(** * LUKS2 header opening and keyslot unlocking (luks2.go)

    A shallow embedding of [luks2.go]: the header reader
    [luks2OpenDevice], the per-keyslot unlocker [unlockKeyslot] with its
    helpers, and the priority search [unlockAnyKeyslot].

    Conventions.
    - Go's [int] and [uint] are the 64-bit ones; integers are [Z] and
      every conversion the source performs is written out ([to_uint64],
      [to_int64], ...).
    - A [[]byte] that holds key material lives in a store of buffers
      (the [heap] of a [world]); a slice is the address of its buffer,
      so that [clearSlice] and the in-place sector decryption are real
      updates that later readers of the same buffer observe.
    - A Go function that returns [(T, error)] is a computation in the
      monad [M]: it ends in [Ret], in [Err], or in [Panic] for a run-time
      panic (slice bound out of range, division by zero).
    - Calls into the environment (file reads, hashing, JSON decoding,
      sector decryption, the call of [unlockKeyslot] itself) are
      recorded, in order, in the [trace] of the world. *)

From Stdlib Require Import ZArith List String Ascii Bool Lia.
From Stdlib Require Import Sorting.Sorted Sorting.Permutation.
From Stdlib Require Strings.Byte.
Import ListNotations.
Local Open Scope string_scope.
Local Open Scope list_scope.
Local Open Scope Z_scope.

Definition byte : Set := Init.Byte.byte.
Definition x00 : byte := Init.Byte.x00.

(** ** Go values *)

Module Go.

(** Conversions between integer types (two's complement, 64 bits). *)
Definition to_uint64 (z : Z) : Z := z mod 2 ^ 64.
Definition to_uint32 (z : Z) : Z := z mod 2 ^ 32.
Definition to_uint8 (z : Z) : Z := z mod 2 ^ 8.
Definition to_int64 (z : Z) : Z := (z + 2 ^ 63) mod 2 ^ 64 - 2 ^ 63.

(** [len] of a slice or of a map, as an [int]. *)
Definition len {A : Type} (l : list A) : Z := Z.of_nat (List.length l).

Definition byte_eqb (a b : byte) : bool := Strings.Byte.eqb a b.

(** [bytes.Equal]. *)
Fixpoint bytes_Equal (a b : list byte) : bool :=
  match a, b with
  | [], [] => true
  | x :: a', y :: b' => byte_eqb x y && bytes_Equal a' b'
  | _, _ => false
  end.

(** [bytes.IndexByte]: the index of the first [c], or [-1]. *)
Fixpoint bytes_IndexByte (b : list byte) (c : byte) : Z :=
  match b with
  | [] => -1
  | x :: b' =>
      if byte_eqb x c then 0
      else let i := bytes_IndexByte b' c in
           if i <? 0 then -1 else i + 1
  end.

(** [b[lo:hi]] for in-range bounds (the callers check the bounds). *)
Definition slice_of {A : Type} (b : list A) (lo hi : Z) : list A :=
  firstn (Z.to_nat (hi - lo)) (skipn (Z.to_nat lo) b).

(** [string(b)]. *)
Definition string_of_bytes (b : list byte) : string :=
  string_of_list_byte b.

(** [strings.Split(s, "-")]: the fields between the separators; always
    at least one field. *)
Fixpoint strings_Split (s : string) (sep : ascii) : list string :=
  match s with
  | EmptyString => [EmptyString]
  | String c s' =>
      if Ascii.eqb c sep then EmptyString :: strings_Split s' sep
      else match strings_Split s' sep with
           | [] => [String c EmptyString]
           | w :: ws => String c w :: ws
           end
  end.

(** [strconv.ParseInt(s, 10, 64)], which is also what [strconv.Atoi]
    and [json.Number.Int64] compute: an optional sign, then one or more
    decimal digits; [None] on a syntax error or when the value does not
    fit an [int64]. *)
Definition digit_of (c : ascii) : option Z :=
  let n := Z.of_nat (nat_of_ascii c) in
  if (48 <=? n) && (n <=? 57) then Some (n - 48) else None.

Fixpoint parse_digits (s : string) (acc : Z) : option Z :=
  match s with
  | EmptyString => Some acc
  | String c s' =>
      match digit_of c with
      | Some d => parse_digits s' (10 * acc + d)
      | None => None
      end
  end.

Definition ParseInt (s : string) : option Z :=
  let '(neg, body) :=
    match s with
    | String "+"%char r => (false, r)
    | String "-"%char r => (true, r)
    | _ => (false, s)
    end in
  match body with
  | EmptyString => None
  | _ =>
      match parse_digits body 0 with
      | Some n =>
          let v := if neg then - n else n in
          if (- 2 ^ 63 <=? v) && (v <? 2 ^ 63) then Some v else None
      | None => None
      end
  end.

Definition Atoi (s : string) : option Z := ParseInt s.

(** [sort.Ints]: ascending order (insertion sort stands for the
    library's algorithm; only the result matters). *)
Fixpoint insert_sorted (x : Z) (l : list Z) : list Z :=
  match l with
  | [] => [x]
  | y :: l' => if x <=? y then x :: l else y :: insert_sorted x l'
  end.

Fixpoint sort_Ints (l : list Z) : list Z :=
  match l with
  | [] => []
  | x :: l' => insert_sorted x (sort_Ints l')
  end.

(** [binary.BigEndian.Uint64] / [Uint16] over a field's bytes. *)
Definition be_uint (b : list byte) : Z :=
  fold_left (fun acc x => acc * 256 + Z.of_N (Strings.Byte.to_N x)) b 0.

End Go.

(** ** Errors and outcomes *)

(** Errors made by the libraries the source calls. None of them can be
    the package's own sentinel: they come from other packages. *)
Inductive lib_error : Type :=
| io_EOF                                  (* a read met the end of the file *)
| io_ErrUnexpectedEOF                     (* binary.Read got a partial header *)
| os_PathError                            (* ReadAt at a negative offset *)
| strconv_NumError (input : string)       (* ParseInt / Atoi *)
| base64_CorruptInputError
| json_UnmarshalError
| xts_KeySizeError.                       (* xts.NewCipher / aes.NewCipher *)

(** An operand of a [fmt.Errorf] format. *)
Inductive fmt_arg : Type :=
| VInt (z : Z)
| VStr (s : string)
| VErr (e : lib_error).

(** Modelled from the spec: [ErrPassphraseDoesNotMatch] is declared
    outside [luks2.go]; it is the distinguished value that reports a
    wrong passphrase. An error built by [fmt.Errorf] is a new value at
    every call, so [err == ErrPassphraseDoesNotMatch] holds of the
    sentinel only; [Errorf] keeps the format and its operands. *)
Inductive error : Type :=
| ErrPassphraseDoesNotMatch
| Errorf (format : string) (args : list fmt_arg)
| LibErr (e : lib_error).

Definition is_ErrPassphraseDoesNotMatch (e : error) : bool :=
  match e with ErrPassphraseDoesNotMatch => true | _ => false end.

Inductive outcome (A : Type) : Type :=
| Ret (a : A)
| Err (e : error)
| Panic (reason : string).
Arguments Ret {A} a.
Arguments Err {A} e.
Arguments Panic {A} reason.

(** ** The world: buffers, file position, call trace *)

Inductive event : Type :=
| EvSeek (off : Z)                        (* f.Seek(off, 0) *)
| EvRead (n : Z)                          (* binary.Read of n bytes *)
| EvReadAt (off n : Z)                    (* f.ReadAt(buf[:n], off) *)
| EvHash (data : list byte)               (* h.Write(data); h.Sum(nil) *)
| EvUnmarshal (data : list byte)          (* json.Unmarshal(data, &meta) *)
| EvDecrypt (sector : Z)                  (* ciph.Decrypt(block, block, sector) *)
| EvUnlockKeyslot (idx : Z).              (* d.unlockKeyslot(f, idx, passphrase) *)

(** A slice is the address of its buffer in the heap. *)
Definition slice : Set := nat.

Record world : Type := mkWorld {
  heap : list (list byte);
  fpos : Z;
  trace : list event
}.

Definition M (A : Type) : Type := world -> outcome A * world.

Definition ret {A : Type} (a : A) : M A := fun w => (Ret a, w).

Definition bind {A B : Type} (c : M A) (k : A -> M B) : M B :=
  fun w =>
    match c w with
    | (Ret a, w') => k a w'
    | (Err e, w') => (Err e, w')
    | (Panic p, w') => (Panic p, w')
    end.

Definition fail {A : Type} (e : error) : M A := fun w => (Err e, w).
Definition panic {A : Type} (reason : string) : M A := fun w => (Panic reason, w).

Notation "x <- c ;; k" := (bind c (fun x => k))
  (at level 61, c at next level, right associativity).
Notation "c ;;; k" := (bind c (fun _ => k))
  (at level 61, right associativity).

(** [defer cleanup] followed by the rest of the function body: the
    cleanup runs when the body is left, whichever way it is left. *)
Definition defer {A : Type} (cleanup : world -> world) (body : M A) : M A :=
  fun w => let '(r, w') := body w in (r, cleanup w').

(** A call that only changes the world. *)
Definition modify (f : world -> world) : M unit := fun w => (Ret tt, f w).

Definition log (ev : event) : M unit :=
  fun w => (Ret tt, mkWorld (heap w) (fpos w) (trace w ++ [ev])).

Definition set_heap (h : list (list byte)) (w : world) : world :=
  mkWorld h (fpos w) (trace w).

(** The content of a buffer; an unknown address reads as empty. *)
Definition buffer (w : world) (s : slice) : list byte := nth s (heap w) [].

Fixpoint update {A : Type} (l : list A) (n : nat) (x : A) : list A :=
  match l, n with
  | [], _ => []
  | _ :: l', O => x :: l'
  | y :: l', S n' => y :: update l' n' x
  end.

Definition alloc (content : list byte) : M slice :=
  fun w => (Ret (List.length (heap w)), set_heap (heap w ++ [content]) w).

Definition load (s : slice) : M (list byte) := fun w => (Ret (buffer w s), w).

Definition store (s : slice) (content : list byte) : M unit :=
  fun w => (Ret tt, set_heap (update (heap w) s content) w).

(** The allocator's limit on amd64; [make] panics beyond it. *)
Definition maxAlloc : Z := 2 ^ 48.

(** [make([]byte, n)]: a new buffer of [n] zero bytes. *)
Definition make_bytes (n : Z) : M slice :=
  if (n <? 0) || (maxAlloc <? n) then panic "makeslice: len out of range"
  else alloc (repeat x00 (Z.to_nat n)).

(** [b[i] = v], with Go's bounds check. *)
Definition set_index (s : slice) (i : Z) (v : byte) : M unit :=
  b <- load s ;;
  if (i <? 0) || (Go.len b <=? i) then panic "index out of range"
  else store s (update b (Z.to_nat i) v).

(** Modelled from the spec: [clearSlice] is declared outside [luks2.go];
    it zeroes every byte of the buffer in place. *)
Definition clearSlice (s : slice) (w : world) : world :=
  set_heap (update (heap w) s (repeat x00 (List.length (buffer w s)))) w.

Definition all_zero (b : list byte) : Prop := Forall (fun x => x = x00) b.

(** ** The device file

    An open regular file is its content; reads do not change it.
    [f.Seek] on it succeeds. *)
Definition file : Type := list byte.

Definition f_Seek (off : Z) : M unit :=
  fun w => (Ret tt, mkWorld (heap w) off (trace w ++ [EvSeek off])).

(** [binary.Read] of [n] bytes from the current position ([io.ReadFull]). *)
Definition binary_Read (f : file) (n : Z) : M (list byte) :=
  fun w =>
    let avail := skipn (Z.to_nat (fpos w)) f in
    let tr := trace w ++ [EvRead n] in
    if Go.len avail =? 0 then
      (Err (LibErr io_EOF), mkWorld (heap w) (fpos w) tr)
    else if Go.len avail <? n then
      (Err (LibErr io_ErrUnexpectedEOF),
       mkWorld (heap w) (fpos w + Go.len avail) tr)
    else
      (Ret (firstn (Z.to_nat n) avail), mkWorld (heap w) (fpos w + n) tr).

(** [f.ReadAt(buf, off)]: fills [buf] from absolute offset [off]; a short
    read leaves what was read in [buf] and is an error. *)
Definition f_ReadAt (f : file) (buf : slice) (off : Z) : M unit :=
  b <- load buf ;;
  log (EvReadAt off (Go.len b)) ;;;
  if off <? 0 then fail (LibErr os_PathError)
  else
    let got := firstn (List.length b) (skipn (Z.to_nat off) f) in
    store buf (got ++ skipn (List.length got) b) ;;;
    if Go.len got <? Go.len b then fail (LibErr io_EOF) else ret tt.

(** ** Constants and helpers declared outside luks2.go *)

(** Modelled from the spec: the fixed stripe count of the anti-forensic
    splitter (4000) and the keyslot sector size (512 bytes). *)
Definition stripesNum : Z := 4000.
Definition storageSectorSize : Z := 512.

(** Modelled from the spec: [isPowerOfTwo] decides whether its argument
    is a power of two. *)
Definition isPowerOfTwo (x : Z) : bool :=
  (0 <? x) && (2 ^ Z.log2 x =? x).

(** Modelled from the spec: [fixedArrayToString] reads a fixed-width,
    NUL-padded header field as a string: the bytes before the first NUL,
    or the whole field when it has none. *)
Definition fixedArrayToString (buff : list byte) : string :=
  let idx := Go.bytes_IndexByte buff x00 in
  Go.string_of_bytes (if idx <? 0 then buff else firstn (Z.to_nat idx) buff).

(** ** Data model *)

(** The binary header, field by field in the order of the 512-byte
    superblock; the checksum field starts at byte 448. *)
Record headerV2 : Type := mkHeaderV2 {
  Magic : list byte;               (* [6]byte *)
  Version : Z;                     (* uint16 *)
  HeaderSize : Z;                  (* uint64 *)
  SequenceId : Z;                  (* uint64 *)
  Label : list byte;               (* [48]byte *)
  ChecksumAlgorithm : list byte;   (* [32]byte *)
  Salt : list byte;                (* [64]byte *)
  UUID : list byte;                (* [40]byte *)
  SubsystemLabel : list byte;      (* [48]byte *)
  HeaderOffset : Z;                (* uint64 *)
  Checksum : list byte             (* [64]byte *)
}.

Definition headerV2_size : Z := 512.

(** [unsafe.Offsetof(hdr.Checksum)]: 6+2+8+8+48+32+64+40+48+8+184. *)
Definition Offsetof_Checksum : Z := 448.

(** What [binary.Read(f, binary.BigEndian, &hdr)] stores in [hdr]. *)
Definition decode_headerV2 (raw : list byte) : headerV2 :=
  {| Magic := Go.slice_of raw 0 6;
     Version := Go.be_uint (Go.slice_of raw 6 8);
     HeaderSize := Go.be_uint (Go.slice_of raw 8 16);
     SequenceId := Go.be_uint (Go.slice_of raw 16 24);
     Label := Go.slice_of raw 24 72;
     ChecksumAlgorithm := Go.slice_of raw 72 104;
     Salt := Go.slice_of raw 104 168;
     UUID := Go.slice_of raw 168 208;
     SubsystemLabel := Go.slice_of raw 208 256;
     HeaderOffset := Go.be_uint (Go.slice_of raw 256 264);
     Checksum := Go.slice_of raw 448 512 |}.

(** Modelled from the spec: the JSON metadata types are declared outside
    [luks2.go]. The records below have the fields [luks2.go] reads, with
    the types its conversions imply: a [json.Number] is the string it
    wraps; an unsigned field is a [Z]. The three tables are indexed by
    integer (the JSON objects of the on-disk format are keyed by index);
    a table is the list of its entries in the order [range] visits them,
    which Go leaves unspecified, so nothing below depends on it.
    Indexing a table at an absent index yields the zero value. *)
Record kdf : Type := mkKdf {
  kdf_Type : string;
  kdf_Hash : string;
  kdf_Salt : string;
  kdf_Iterations : Z;
  kdf_Time : Z;
  kdf_Memory : Z;
  kdf_Cpus : Z
}.

Record area : Type := mkArea {
  area_KeySize : Z;
  area_Size : string;              (* json.Number *)
  area_Offset : string;            (* json.Number *)
  area_Encryption : string
}.

Record af : Type := mkAf {
  af_Stripes : Z;
  af_Hash : string
}.

Record keyslot : Type := mkKeyslot {
  ks_KeySize : Z;
  ks_Area : area;
  ks_Kdf : kdf;
  ks_Af : af;
  ks_Priority : string
}.

Record digest : Type := mkDigest {
  dig_Type : string;
  dig_Hash : string;
  dig_Salt : string;
  dig_Iterations : Z;
  dig_Digest : string;
  dig_Keyslots : list string;      (* []json.Number *)
  dig_Segments : list string       (* []json.Number *)
}.

Record segment : Type := mkSegment {
  seg_Offset : string;             (* json.Number *)
  seg_Size : string;
  seg_IvTweak : string;            (* json.Number *)
  seg_SectorSize : Z;
  seg_Encryption : string
}.

Record metadata : Type := mkMetadata {
  Keyslots : list (Z * keyslot);
  Segments : list (Z * segment);
  Digests : list (Z * digest)
}.

Definition zero_keyslot : keyslot :=
  mkKeyslot 0 (mkArea 0 EmptyString EmptyString EmptyString)
    (mkKdf EmptyString EmptyString EmptyString 0 0 0 0)
    (mkAf 0 EmptyString) EmptyString.

Definition zero_segment : segment :=
  mkSegment EmptyString EmptyString EmptyString 0 EmptyString.

(** [m[k]] on a table. *)
Fixpoint index {A : Type} (zero : A) (m : list (Z * A)) (k : Z) : A :=
  match m with
  | [] => zero
  | (k', v) :: m' => if k' =? k then v else index zero m' k
  end.

Record luks2Device : Type := mkDevice {
  hdr : headerV2;
  meta : metadata
}.

(** Modelled from the spec: [volumeInfo] is declared outside [luks2.go];
    these are the fields [unlockKeyslot] fills. [vi_key] is the buffer of
    the unlocked key, which the caller owns from then on. *)
Record volumeInfo : Type := mkVolumeInfo {
  vi_key : slice;
  vi_digestId : Z;
  vi_luksType : string;
  vi_storageSize : Z;
  vi_storageOffset : Z;
  vi_storageEncryption : string;
  vi_storageIvTweak : Z;
  vi_storageSectorSize : Z
}.

(** ** The libraries behind the code

    The hash, the key derivation functions, the cipher, the base64 and
    JSON decoders are Go libraries; [afMerge] is declared outside
    [luks2.go]. The code is embedded over any implementation of them. *)
Class Library : Type := {
  (** [h := sha256.New(); h.Write(data); h.Sum(nil)] *)
  sha256_Sum : list byte -> list byte;
  (** [pbkdf2.Key(password, salt, iter, keyLen, sha256.New)]; [None] when
      the library panics. *)
  pbkdf2_Key : list byte -> list byte -> Z -> Z -> option (list byte);
  (** [argon2.Key] and [argon2.IDKey] [(password, salt, time, memory,
      threads, keyLen)]; [None] when the library panics (it does for
      [time < 1] or [threads < 1]). *)
  argon2_Key : list byte -> list byte -> Z -> Z -> Z -> Z -> option (list byte);
  argon2_IDKey : list byte -> list byte -> Z -> Z -> Z -> Z -> option (list byte);
  (** [xts.NewCipher(aes.NewCipher, key)] and the cipher's [Decrypt]. *)
  xts_Cipher : Type;
  xts_NewCipher : list byte -> option xts_Cipher;
  xts_Decrypt : xts_Cipher -> list byte -> Z -> list byte;
  xts_Decrypt_length :
    forall c block sector,
      List.length (xts_Decrypt c block sector) = List.length block;
  (** [base64.StdEncoding.DecodeString] *)
  base64_DecodeString : string -> option (list byte);
  (** [json.Unmarshal(data, &meta)] *)
  json_Unmarshal : list byte -> option metadata;
  (** Modelled from the spec: [afMerge(stripedData, keyLength,
      stripeCount, sha256)] recovers the key of [keyLength] bytes from
      the striped area; a deterministic function without side effects
      that returns a new buffer, or an error of its own making. *)
  afMerge : list byte -> Z -> Z -> (string * list fmt_arg) + list byte
}.

(** [sha256.Size], also [h.Size()] for the SHA-256 hash. *)
Definition sha256_Size : Z := 32.

(** ** The code of luks2.go *)

Section Code.

Context {L : Library}.

(** [for i := lo; i < lo + count; i++ { body }] *)
Fixpoint for_loop (i : Z) (count : nat) (body : Z -> M unit) : M unit :=
  match count with
  | O => ret tt
  | S c => body i ;;; for_loop (i + 1) c body
  end.

(** The result of a library call that makes a new byte slice. *)
Definition new_bytes (r : option (list byte)) : M slice :=
  match r with
  | Some b => alloc b
  | None => panic "panic in library call"
  end.

Definition luks2OpenDevice (f : file) : M luks2Device :=
  f_Seek 0 ;;;
  raw <- binary_Read f headerV2_size ;;
  let hdr := decode_headerV2 raw in
  let hdrSize := HeaderSize hdr in
  if negb (isPowerOfTwo (Go.to_uint64 hdrSize))
     || (hdrSize <? 16384) || (hdrSize >? 4194304)
  then fail (Errorf "Invalid size of LUKS header: %v" [VInt hdrSize])
  else
    (* read the whole header *)
    data <- make_bytes hdrSize ;;
    f_ReadAt f data 0 ;;;
    (* clear the checksum *)
    for_loop 0 64 (fun i => set_index data (Offsetof_Checksum + i) x00) ;;;
    (* calculate the checksum of the whole header *)
    let algo := fixedArrayToString (ChecksumAlgorithm hdr) in
    if (algo =? "sha256")%string then
      content <- load data ;;
      log (EvHash content) ;;;
      let checksum := sha256_Sum content in
      let expectedChecksum := Go.slice_of (Checksum hdr) 0 sha256_Size in
      if negb (Go.bytes_Equal checksum expectedChecksum)
      then fail (Errorf "Invalid header checksum" [])
      else
        let jsonData := skipn 4096 content in
        let nul := Go.bytes_IndexByte jsonData x00 in
        if nul <? 0 then panic "slice bounds out of range [:-1]"
        else
          let jsonData := firstn (Z.to_nat nul) jsonData in
          log (EvUnmarshal jsonData) ;;;
          match json_Unmarshal jsonData with
          | None => fail (LibErr json_UnmarshalError)
          | Some meta => ret (mkDevice hdr meta)
          end
    else fail (Errorf "Unknown header checksum algorithm: %v" [VStr algo]).

Definition uuid (d : luks2Device) : string :=
  fixedArrayToString (UUID (hdr d)).

Definition deriveLuks2AfKey (k : kdf) (keyslotIdx : Z)
    (passphrase : list byte) (keyLength : Z) : M slice :=
  match base64_DecodeString (kdf_Salt k) with
  | None =>
      fail (Errorf "keyslotIdx[%v].kdf.salt base64 parsing failed: %v"
              [VInt keyslotIdx; VErr base64_CorruptInputError])
  | Some salt =>
      if (kdf_Type k =? "pbkdf2")%string then
        if (kdf_Hash k =? "sha256")%string then
          new_bytes (pbkdf2_Key passphrase salt
                       (Go.to_int64 (kdf_Iterations k)) (Go.to_int64 keyLength))
        else
          fail (Errorf "Unknown keyslotIdx[%v].kdf.hash algorithm: %v"
                  [VInt keyslotIdx; VStr (kdf_Hash k)])
      else if (kdf_Type k =? "argon2i")%string then
        new_bytes (argon2_Key passphrase salt
                     (Go.to_uint32 (kdf_Time k)) (Go.to_uint32 (kdf_Memory k))
                     (Go.to_uint8 (kdf_Cpus k)) (Go.to_uint32 keyLength))
      else if (kdf_Type k =? "argon2id")%string then
        new_bytes (argon2_IDKey passphrase salt
                     (Go.to_uint32 (kdf_Time k)) (Go.to_uint32 (kdf_Memory k))
                     (Go.to_uint8 (kdf_Cpus k)) (Go.to_uint32 keyLength))
      else fail (Errorf "Unknown kdf type: %v" [VStr (kdf_Type k)])
  end.

Definition buildLuks2AfCipher (encryption : string) (afKey : slice)
    : M xts_Cipher :=
  (* example of `encryption` value is 'aes-xts-plain64' *)
  let encParts := Go.strings_Split encryption "-"%char in
  if negb (Go.len encParts =? 3)
  then fail (Errorf "Unexpected encryption format: %v" [VStr encryption])
  else
    let cipherName := nth 0 encParts EmptyString in
    let cipherMode := nth 1 encParts EmptyString in
    if (cipherName =? "aes")%string then
      if (cipherMode =? "xts")%string then
        key <- load afKey ;;
        match xts_NewCipher key with
        | Some c => ret c
        | None => fail (LibErr xts_KeySizeError)
        end
      else fail (Errorf "Unknown encryption mode: %v" [VStr cipherMode])
    else fail (Errorf "Unknown cipher: %v" [VStr cipherName]).

(** [block := keyData[i*512 : (i+1)*512]; ciph.Decrypt(block, block, i)] *)
Definition decrypt_sector (ciph : xts_Cipher) (keyData : slice) (i : Z) : M unit :=
  b <- load keyData ;;
  let lo := i * storageSectorSize in
  let hi := (i + 1) * storageSectorSize in
  if Go.len b <? hi then panic "slice bounds out of range"
  else
    log (EvDecrypt i) ;;;
    store keyData (firstn (Z.to_nat lo) b
                     ++ xts_Decrypt ciph (Go.slice_of b lo hi) (Go.to_uint64 i)
                     ++ skipn (Z.to_nat hi) b).

Definition decryptLuks2VolumeKey (f : file) (keyslotIdx : Z)
    (keyslot : keyslot) (afKey : slice) : M slice :=
  let area := ks_Area keyslot in
  (* decrypt keyslotIdx area using the derived key *)
  let keyslotSize := Go.to_uint64 (area_KeySize area * stripesNum) in
  match Go.ParseInt (area_Size area) with
  | None =>
      fail (Errorf "Invalid keyslotIdx[%v] size value: %v. %v"
              [VInt keyslotIdx; VStr (area_Size area);
               VErr (strconv_NumError (area_Size area))])
  | Some areaSize =>
      if Go.to_int64 keyslotSize >? areaSize then
        fail (Errorf "keyslot[%v] area size too small, given %v expected at least %v"
                [VInt keyslotIdx; VInt areaSize; VInt keyslotSize])
      else if negb (keyslotSize mod storageSectorSize =? 0) then
        fail (Errorf "keyslot[%v] size %v is not multiple of the sector size %v"
                [VInt keyslotIdx; VInt keyslotSize; VInt storageSectorSize])
      else
        keyData <- make_bytes keyslotSize ;;
        defer (clearSlice keyData) (
          match Go.ParseInt (area_Offset area) with
          | None =>
              fail (Errorf "Invalid keyslotIdx[%v] offset: %v. %v"
                      [VInt keyslotIdx; VStr (area_Offset area);
                       VErr (strconv_NumError (area_Offset area))])
          | Some keyslotOffset =>
              if negb (Z.rem keyslotOffset storageSectorSize =? 0) then
                fail (Errorf "keyslot[%v] offset %v is not aligned to sector size %v"
                        [VInt keyslotIdx; VInt keyslotOffset; VInt storageSectorSize])
              else
                f_ReadAt f keyData keyslotOffset ;;;
                ciph <- buildLuks2AfCipher (area_Encryption area) afKey ;;
                for_loop 0 (Z.to_nat (Go.to_int64 (keyslotSize / storageSectorSize)))
                  (decrypt_sector ciph keyData) ;;;
                (* anti-forensic merge *)
                let af := ks_Af keyslot in
                if negb (af_Stripes af =? stripesNum) then
                  fail (Errorf "LUKS currently supports only af with 4000 stripes" [])
                else if (af_Hash af =? "sha256")%string then
                  striped <- load keyData ;;
                  match afMerge striped (Go.to_int64 (ks_KeySize keyslot))
                          (Go.to_int64 (af_Stripes af)) with
                  | inl (format, args) => fail (Errorf format args)
                  | inr merged => alloc merged
                  end
                else fail (Errorf "Unknown af hash algorithm: %v" [VStr (af_Hash af)])
          end)
  end.

Definition computeDigestForKey (dig : digest) (keyslotIdx : Z)
    (finalKey : slice) : M slice :=
  match base64_DecodeString (dig_Salt dig) with
  | None =>
      fail (Errorf "keyslotIdx[%v].digest.salt base64 parsing failed: %v"
              [VInt keyslotIdx; VErr base64_CorruptInputError])
  | Some digSalt =>
      if (dig_Type dig =? "pbkdf2")%string then
        if (dig_Hash dig =? "sha256")%string then
          key <- load finalKey ;;
          new_bytes (pbkdf2_Key key digSalt
                       (Go.to_int64 (dig_Iterations dig)) sha256_Size)
        else fail (Errorf "Unknown digest hash algorithm: %v" [VStr (dig_Hash dig)])
      else fail (Errorf "Unknown digest kdf type: %v" [VStr (dig_Type dig)])
  end.

(** The inner loop of [findDigestForKeyslot]: does the bound-keyslot
    list name [keyslotIdx]? *)
Fixpoint bound_to (keyslots : list string) (keyslotIdx : Z) : bool :=
  match keyslots with
  | [] => false
  | k :: rest =>
      match Go.ParseInt k with
      | None => bound_to rest keyslotIdx            (* continue *)
      | Some k' => if k' =? keyslotIdx then true else bound_to rest keyslotIdx
      end
  end.

(** The outer loop; [None] is the [(0, nil)] result. *)
Fixpoint find_digest (digests : list (Z * digest)) (keyslotIdx : Z)
    : option (Z * digest) :=
  match digests with
  | [] => None
  | (i, dig) :: rest =>
      if bound_to (dig_Keyslots dig) keyslotIdx then Some (i, dig)
      else find_digest rest keyslotIdx
  end.

Definition findDigestForKeyslot (d : luks2Device) (keyslotIdx : Z)
    : option (Z * digest) :=
  find_digest (Digests (meta d)) keyslotIdx.

(** Lines 150-192 of [unlockKeyslot]: from the verified key and its
    digest to the volume description. *)
Definition resolve_segment (d : luks2Device) (finalKey : slice)
    (digIdx : Z) (digInfo : digest) : M volumeInfo :=
  if negb (Go.len (dig_Segments digInfo) =? 1) then
    fail (Errorf "LUKS partition expects exactly 1 storage segment, got %+v"
            [VInt (Go.len (dig_Segments digInfo))])
  else
    let seg0 := nth 0 (dig_Segments digInfo) EmptyString in
    match Go.ParseInt seg0 with
    | None => fail (LibErr (strconv_NumError seg0))
    | Some seg =>
        let storageSegment := index zero_segment (Segments (meta d)) seg in
        match Go.ParseInt (seg_Offset storageSegment) with
        | None => fail (LibErr (strconv_NumError (seg_Offset storageSegment)))
        | Some offset =>
            storageSize <-
              (if negb (seg_Size storageSegment =? "dynamic")%string then
                 match Go.Atoi (seg_Size storageSegment) with
                 | None => fail (LibErr (strconv_NumError (seg_Size storageSegment)))
                 | Some size =>
                     if size =? 0 then
                       fail (Errorf "invalid segment size: %v" [VInt size])
                     else ret (Go.to_uint64 size)
                 end
               else ret 0) ;;
            match Go.ParseInt (seg_IvTweak storageSegment) with
            | None => fail (LibErr (strconv_NumError (seg_IvTweak storageSegment)))
            | Some ivTweak =>
                let sectorSize := Go.to_uint64 (seg_SectorSize storageSegment) in
                if sectorSize =? 0 then panic "integer divide by zero"
                else
                  ret {| vi_key := finalKey;
                         vi_digestId := digIdx;
                         vi_luksType := "LUKS2";
                         vi_storageSize := storageSize / sectorSize;
                         vi_storageOffset := Go.to_uint64 offset / sectorSize;
                         vi_storageEncryption := seg_Encryption storageSegment;
                         vi_storageIvTweak := Go.to_uint64 ivTweak;
                         vi_storageSectorSize := sectorSize |}
            end
        end
    end.

Definition unlockKeyslot (d : luks2Device) (f : file) (keyslotIdx : Z)
    (passphrase : list byte) : M volumeInfo :=
  log (EvUnlockKeyslot keyslotIdx) ;;;
  let keyslots := Keyslots (meta d) in
  if (keyslotIdx <? 0) || (keyslotIdx >=? Go.len keyslots) then
    fail (Errorf "keyslot %d is out of range of available slots" [VInt keyslotIdx])
  else
    let keyslot := index zero_keyslot keyslots keyslotIdx in
    afKey <- deriveLuks2AfKey (ks_Kdf keyslot) keyslotIdx passphrase
               (ks_KeySize keyslot) ;;
    defer (clearSlice afKey) (
      finalKey <- decryptLuks2VolumeKey f keyslotIdx keyslot afKey ;;
      (* verify with digest *)
      match findDigestForKeyslot d keyslotIdx with
      | None =>
          fail (Errorf "No digest is found for keyslot %v" [VInt keyslotIdx])
      | Some (digIdx, digInfo) =>
          generatedDigest <- computeDigestForKey digInfo keyslotIdx finalKey ;;
          defer (clearSlice generatedDigest) (
            match base64_DecodeString (dig_Digest digInfo) with
            | None =>
                fail (Errorf "keyslotIdx[%v].digest.Digest base64 parsing failed: %v"
                        [VInt keyslotIdx; VErr base64_CorruptInputError])
            | Some expectedDigest =>
                generated <- load generatedDigest ;;
                if negb (Go.bytes_Equal generated expectedDigest) then
                  fail ErrPassphraseDoesNotMatch
                else
                  modify (clearSlice generatedDigest) ;;;
                  resolve_segment d finalKey digIdx digInfo
            end)
      end).

(** The [range] loop that fills [highPrio] and [normPrio]. *)
Fixpoint collect_prio (keyslots : list (Z * keyslot))
    (highPrio normPrio : list Z) : list Z * list Z :=
  match keyslots with
  | [] => (highPrio, normPrio)
  | (k, v) :: rest =>
      if (ks_Priority v =? "2")%string then
        collect_prio rest (highPrio ++ [k]) normPrio
      else if (ks_Priority v =? EmptyString)%string || (ks_Priority v =? "1")%string then
        collect_prio rest highPrio (normPrio ++ [k])
      else collect_prio rest highPrio normPrio
  end.

(** The slice [activeKeyslots] that [unlockAnyKeyslot] builds. *)
Definition activeKeyslots (d : luks2Device) : list Z :=
  (* first we iterate over "high"-priority slots, then "normal" *)
  let '(highPrio, normPrio) := collect_prio (Keyslots (meta d)) [] [] in
  Go.sort_Ints highPrio ++ Go.sort_Ints normPrio.

(** The loop over [activeKeyslots]. *)
Fixpoint try_keyslots (d : luks2Device) (f : file) (passphrase : list byte)
    (active : list Z) : M volumeInfo :=
  match active with
  | [] => fail ErrPassphraseDoesNotMatch
  | k :: rest =>
      fun w =>
        match unlockKeyslot d f k passphrase w with
        | (Ret volumeKey, w') => (Ret volumeKey, w')
        | (Err e, w') =>
            if is_ErrPassphraseDoesNotMatch e
            then try_keyslots d f passphrase rest w'     (* continue *)
            else (Err e, w')
        | (Panic p, w') => (Panic p, w')
        end
  end.

Definition unlockAnyKeyslot (d : luks2Device) (f : file)
    (passphrase : list byte) : M volumeInfo :=
  try_keyslots d f passphrase (activeKeyslots d).

End Code.

(** ** A small implementation of the library interface

    Used to run the code on concrete devices. The functions are stand-ins
    with the right shapes (lengths, failure cases), not the real
    algorithms: every theorem below is proved over an arbitrary
    [Library], this one included. *)

Module Toy.

Definition x01 : byte := Init.Byte.x01.

(** Pads (with [pad]) or cuts to [n] bytes. *)
Definition fit_with (pad : byte) (n : Z) (b : list byte) : list byte :=
  firstn (Z.to_nat n) (b ++ repeat pad (Z.to_nat n)).

Definition fit (n : Z) (b : list byte) : list byte := fit_with x01 n b.

(** A device in the shape of the specification's scenario: one
    PBKDF2 keyslot with a key of [keySize] bytes, one digest bound to
    keyslot 0 and segment 0, one segment at offset 16384 of size 131072
    with 512-byte sectors. *)
Definition keyslot_of (keySize : Z) (areaSize priority : string) : keyslot :=
  {| ks_KeySize := keySize;
     ks_Area := mkArea keySize areaSize "16384" "aes-xts-plain64";
     ks_Kdf := mkKdf "pbkdf2" "sha256" "0123456789abcdef0123456789abcdef" 4 0 0 0;
     ks_Af := mkAf 4000 "sha256";
     ks_Priority := priority |}.

(** The keyslot of most runs below has a 16-byte key, to keep its key
    area (64000 bytes) small. *)
Definition keyslot0 (priority : string) : keyslot :=
  keyslot_of 16 "64000" priority.

Definition passphrase : list byte := list_byte_of_string "secret".

Definition digest_of (stored : string) (keyslots : list string) : digest :=
  {| dig_Type := "pbkdf2"; dig_Hash := "sha256";
     dig_Salt := "salt"; dig_Iterations := 1000;
     dig_Digest := stored;
     dig_Keyslots := keyslots; dig_Segments := ["0"] |}.

Definition segment0 : segment :=
  mkSegment "16384" "131072" "0" 512 "aes-xts-plain64".

Definition device_with (ks : keyslot) (dig : digest) : luks2Device :=
  {| hdr := decode_headerV2 [];
     meta := {| Keyslots := [(0, ks)];
                Segments := [(0, segment0)];
                Digests := [(0, dig)] |} |}.

Definition device_of (stored : string) : luks2Device :=
  device_with (keyslot0 EmptyString) (digest_of stored ["0"]).

(** The digest that the toy functions compute for a key of [keySize]
    bytes merged from the key area of [image], in the toy base64 (the
    identity). *)
Definition good_digest_of (keySize : Z) : string :=
  string_of_list_byte
    (fit 32 (repeat x01 (Z.to_nat keySize) ++ list_byte_of_string "salt")).

Definition good_digest : string := good_digest_of 16.


(** The device of [device_of] whose digest names keyslot 0 by an entry
    that is a JSON number but not an integer. *)
Definition device_malformed : luks2Device :=
  device_with (keyslot0 EmptyString) (digest_of good_digest ["0.0"; "1"]).

(** Five keyslots with priorities 2, 1, (unset), 2, 0 at indices 0 to
    4, listed out of order, all bound to one digest. *)
Definition device5_of (stored : string) : luks2Device :=
  {| hdr := decode_headerV2 [];
     meta := {| Keyslots := [(3, keyslot0 "2"); (1, keyslot0 "1");
                             (4, keyslot0 "0"); (0, keyslot0 "2");
                             (2, keyslot0 EmptyString)];
                Segments := [(0, segment0)];
                Digests := [(0, digest_of stored ["0"; "1"; "2"; "3"; "4"])] |} |}.

Definition hash (data : list byte) : list byte := fit 32 data.

Definition kdf2 (password salt : list byte) (iter keyLen : Z)
    : option (list byte) :=
  if keyLen <? 0 then None else Some (fit keyLen (password ++ salt)).

Definition argon (password salt : list byte) (time memory threads keyLen : Z)
    : option (list byte) :=
  if (time <? 1) || (threads <? 1) then None
  else Some (fit keyLen (salt ++ password)).

Definition newCipher (k : list byte) : option (list byte) :=
  let n := Go.len k in
  if (n =? 16) || (n =? 32) || (n =? 48) || (n =? 64) then Some k else None.

Definition decrypt (k block : list byte) (sector : Z) : list byte := block.

Definition decode64 (s : string) : option (list byte) :=
  Some (list_byte_of_string s).

Definition merge (striped : list byte) (keyLength stripeCount : Z)
    : (string * list fmt_arg) + list byte :=
  if Go.len striped =? keyLength * stripeCount
  then inr (fit keyLength striped)
  else inl ("af: source buffer size mismatch", []).

(** Accepts the text of a JSON object, whatever it holds. *)
Definition unmarshal (data : list byte) : option metadata :=
  match data with
  | Init.Byte.x7b :: _ => Some (meta (device_of good_digest))
  | _ => None
  end.

Definition library : Library := {|
  sha256_Sum := hash;
  pbkdf2_Key := kdf2;
  argon2_Key := argon;
  argon2_IDKey := argon;
  xts_Cipher := list byte;
  xts_NewCipher := newCipher;
  xts_Decrypt := decrypt;
  xts_Decrypt_length := fun _ _ _ => eq_refl;
  base64_DecodeString := decode64;
  json_Unmarshal := unmarshal;
  afMerge := merge
|}.

(** A device file: 16384 bytes of header space, the key area of 128000
    bytes, and one more sector. *)
Definition image : file :=
  repeat x00 (Z.to_nat 16384) ++ repeat x01 (Z.to_nat 128000)
    ++ repeat x00 (Z.to_nat 512).

Definition w0 : world := mkWorld [] 0 [].

(** A world that holds the 16-byte derived key of [passphrase] at
    address 0. *)
Definition w_afKey : world :=
  mkWorld [fit 16 (passphrase ++ list_byte_of_string "0123456789abcdef0123456789abcdef")]
    0 [].

(** The 512-byte binary header with the given size field and checksum
    algorithm name; the checksum field holds [checksum]. *)
Definition header512 (sizeField : list byte) (algo : string)
    (checksum : list byte) : list byte :=
  list_byte_of_string "LUKS" ++ [Init.Byte.xba; Init.Byte.xbe]   (* magic *)
    ++ [x00; Init.Byte.x02]                                       (* version *)
    ++ fit_with x00 8 sizeField                                   (* header size *)
    ++ repeat x00 8                                               (* sequence id *)
    ++ repeat x00 48                                              (* label *)
    ++ fit_with x00 32 (list_byte_of_string algo)
    ++ repeat x00 64                                              (* salt *)
    ++ fit_with x00 40 (list_byte_of_string "6a4ba6e2-4d8e-4d0e-9f5a-6a58b1f3c1aa")
    ++ repeat x00 48                                              (* subsystem *)
    ++ repeat x00 8                                               (* header offset *)
    ++ repeat x00 184                                             (* padding *)
    ++ fit_with x00 64 checksum.

(** A 16384-byte header area: the binary header with the checksum the
    toy hash gives it, padding up to offset 4096, then the metadata
    region: [json] followed by [fill] bytes. *)
Definition header_image (sizeField : list byte) (algo : string)
    (json : string) (fill : byte) : file :=
  header512 sizeField algo (hash (header512 sizeField algo []))
    ++ repeat x00 (Z.to_nat (4096 - 512))
    ++ fit_with fill (16384 - 4096) (list_byte_of_string json).

(** 16384 and 16385 as big-endian 64-bit fields. *)
Definition size_16384 : list byte :=
  [x00; x00; x00; x00; x00; x00; Init.Byte.x40; x00].
Definition size_16385 : list byte :=
  [x00; x00; x00; x00; x00; x00; Init.Byte.x40; x01].
Definition size_32768 : list byte :=
  [x00; x00; x00; x00; x00; x00; Init.Byte.x80; x00].

(** A keyslot whose Argon2i parameters (a time cost of 0) make the
    library panic. *)
Definition keyslot_argon0 : keyslot :=
  {| ks_KeySize := 16;
     ks_Area := mkArea 16 "64000" "16384" "aes-xts-plain64";
     ks_Kdf := mkKdf "argon2i" EmptyString "0123456789abcdef" 0 0 65536 1;
     ks_Af := mkAf 4000 "sha256";
     ks_Priority := EmptyString |}.

(** The device of [device5_of] with the first two entries of the
    keyslot table swapped. *)
Definition device5_swapped (stored : string) : luks2Device :=
  {| hdr := decode_headerV2 [];
     meta := {| Keyslots := [(1, keyslot0 "1"); (3, keyslot0 "2");
                             (4, keyslot0 "0"); (0, keyslot0 "2");
                             (2, keyslot0 EmptyString)];
                Segments := [(0, segment0)];
                Digests := [(0, digest_of stored ["0"; "1"; "2"; "3"; "4"])] |} |}.

End Toy.

(** * Vocabulary of the properties *)

(** The keyslot indices that [unlockKeyslot] was called with, in call
    order, read off a trace. *)
Definition attempts (tr : list event) : list Z :=
  flat_map (fun ev => match ev with EvUnlockKeyslot k => [k] | _ => [] end) tr.

Definition is_high (v : keyslot) : bool := (ks_Priority v =? "2")%string.
Definition is_norm (v : keyslot) : bool :=
  (ks_Priority v =? EmptyString)%string || (ks_Priority v =? "1")%string.

(** The indices of the keyslots of [d] that satisfy [p], in table order. *)
Definition keys_with (p : keyslot -> bool) (d : luks2Device) : list Z :=
  map fst (filter (fun kv => p (snd kv)) (Keyslots (meta d))).

(** Every keyslot of [ks], tried in turn from [w], answers that the
    passphrase does not match; [w'] is the world after the last one. *)
Fixpoint all_wrong {L : Library} (d : luks2Device) (f : file)
    (passphrase : list byte) (ks : list Z) (w w' : world) : Prop :=
  match ks with
  | [] => w' = w
  | k :: rest =>
      exists w1,
        unlockKeyslot d f k passphrase w = (Err ErrPassphraseDoesNotMatch, w1)
        /\ all_wrong d f passphrase rest w1 w'
  end.

(** [quiet c]: running [c] adds no call of [unlockKeyslot] to the trace. *)
Definition quiet {A : Type} (c : M A) : Prop :=
  forall w r w', c w = (r, w') -> attempts (trace w') = attempts (trace w).


(** [w'] differs from [w] at most in the content of buffer [s], whose
    length is kept. *)
Definition rewrites (s : slice) (w w' : world) : Prop :=
  exists b, heap w' = update (heap w) s b /\
            List.length b = List.length (buffer w s).

(** [i; i+1; ...] of length [n]: the values a [for_loop] gives its body. *)
Fixpoint count_from (i : Z) (n : nat) : list Z :=
  match n with
  | O => []
  | S n' => i :: count_from (i + 1) n'
  end.

(** A result other than the wrong-passphrase sentinel. *)
Definition not_sentinel {A : Type} (r : outcome A) : Prop :=
  r <> Err ErrPassphraseDoesNotMatch.

(** [unlockKeyslot d f idx pass], run from [w], recovers a candidate
    key: the index is in range, the key [afKey] is derived (world [w1]),
    and the area is decrypted and merged into [finalKey] (world [w2]). *)
Definition recovers_key {L : Library} (d : luks2Device) (f : file)
    (idx : Z) (pass : list byte) (w : world)
    (afKey finalKey : slice) (w1 w2 : world) : Prop :=
  let keyslot := index zero_keyslot (Keyslots (meta d)) idx in
  0 <= idx < Go.len (Keyslots (meta d)) /\
  deriveLuks2AfKey (ks_Kdf keyslot) idx pass (ks_KeySize keyslot)
    (mkWorld (heap w) (fpos w) (trace w ++ [EvUnlockKeyslot idx]))
  = (Ret afKey, w1) /\
  decryptLuks2VolumeKey f idx keyslot afKey w1 = (Ret finalKey, w2).

(** It then gets as far as comparing digests: a digest
    [(digIdx, digInfo)] is bound to the keyslot, the candidate digest
    [generatedDigest] is computed (world [w3]) and the stored digest
    decodes to [expected]. *)
Definition reaches_verification {L : Library} (d : luks2Device) (f : file)
    (idx : Z) (pass : list byte) (w : world)
    (afKey finalKey generatedDigest : slice) (digIdx : Z) (digInfo : digest)
    (expected : list byte) (w1 w2 w3 : world) : Prop :=
  recovers_key d f idx pass w afKey finalKey w1 w2 /\
  findDigestForKeyslot d idx = Some (digIdx, digInfo) /\
  computeDigestForKey digInfo idx finalKey w2 = (Ret generatedDigest, w3) /\
  base64_DecodeString (dig_Digest digInfo) = Some expected.

(** The encryption string and key from which [buildLuks2AfCipher] makes
    a cipher: three fields, "aes", "xts", and a key the library takes. *)
Definition cipher_ok {L : Library} (encryption : string) (key : list byte) : Prop :=
  exists ivmode c,
    Go.strings_Split encryption "-"%char = ["aes"; "xts"; ivmode] /\
    xts_NewCipher key = Some c.

(** [b] with the [n] bytes from index [lo] set to zero. *)
Definition zero_range (b : list byte) (lo n : nat) : list byte :=
  firstn lo b ++ repeat x00 n ++ skipn (lo + n) b.

(** The header region of a file as [luks2OpenDevice] hashes it: the
    first [hdrSize] bytes with the 64 bytes of the checksum field
    zeroed. *)
Definition hashed_region (f : file) (hdrSize : Z) : list byte :=
  zero_range (firstn (Z.to_nat hdrSize) f) (Z.to_nat Offsetof_Checksum) 64.

(** The header size that [luks2OpenDevice] accepts. *)
Definition valid_header_size (hdrSize : Z) : Prop :=
  (exists n, 0 <= n /\ hdrSize = 2 ^ n) /\ 16384 <= hdrSize <= 4194304.

(** * Vocabulary of the further properties *)

(** Every buffer of [new] but the one at position [keep] is zero. *)
Definition zero_except (keep : nat) (new : list (list byte)) : Prop :=
  forall i b, nth_error new i = Some b -> i <> keep -> all_zero b.

(** The key area after the decryption loop: sector after sector, each
    512-byte sector of [data] decrypted with its index, from [i] on, as
    tweak. *)
Fixpoint decrypt_all {L : Library} (c : xts_Cipher) (data : list byte)
    (i : Z) (n : nat) : list byte :=
  match n with
  | O => []
  | S n' =>
      xts_Decrypt c (firstn 512 data) i
        ++ decrypt_all c (skipn 512 data) (i + 1) n'
  end.

(** A string without the separator of encryption specifications. *)
Fixpoint no_hyphen (s : string) : bool :=
  match s with
  | EmptyString => true
  | String c s' => negb (Ascii.eqb c "-"%char) && no_hyphen s'
  end.
(** * Properties *)

(** ** Library functions *)

Lemma byte_eqb_eq (a b : byte) : Go.byte_eqb a b = true <-> a = b.
Proof.
  unfold Go.byte_eqb. split.
  - apply Strings.Byte.byte_dec_bl.
  - apply Strings.Byte.byte_dec_lb.
Qed.

Lemma bytes_Equal_eq (a b : list byte) : Go.bytes_Equal a b = true <-> a = b.
Proof.
  revert b. induction a as [|x a IH]; intros [|y b]; simpl; split;
    try congruence; try discriminate.
  - intros H. apply andb_true_iff in H as [Hx Hab].
    apply byte_eqb_eq in Hx. apply IH in Hab. congruence.
  - intros H. injection H as -> ->. apply andb_true_iff. split.
    + now apply byte_eqb_eq.
    + now apply IH.
Qed.

Lemma bytes_Equal_neq (a b : list byte) : Go.bytes_Equal a b = false <-> a <> b.
Proof.
  rewrite <- bytes_Equal_eq. destruct (Go.bytes_Equal a b); split; congruence.
Qed.

Lemma insert_sorted_perm x l : Permutation (x :: l) (Go.insert_sorted x l).
Proof.
  induction l as [|y l IH]; simpl; [reflexivity|].
  destruct (x <=? y); [reflexivity|].
  rewrite perm_swap. now constructor.
Qed.

Lemma sort_Ints_perm l : Permutation l (Go.sort_Ints l).
Proof.
  induction l as [|x l IH]; simpl; [constructor|].
  rewrite <- insert_sorted_perm. now constructor.
Qed.

Lemma insert_sorted_sorted x l :
  StronglySorted Z.le l -> StronglySorted Z.le (Go.insert_sorted x l).
Proof.
  induction 1 as [|y l Hl IH Hy]; simpl.
  - repeat constructor.
  - destruct (Z.leb_spec x y).
    + constructor; [now constructor|].
      constructor; [assumption|].
      eapply Forall_impl; [|exact Hy]. intros; lia.
    + constructor; [assumption|].
      eapply Permutation_Forall; [apply insert_sorted_perm|].
      constructor; [lia|assumption].
Qed.

Lemma sort_Ints_sorted l : StronglySorted Z.le (Go.sort_Ints l).
Proof.
  induction l; simpl; [constructor|now apply insert_sorted_sorted].
Qed.

(** ** Which computations call [unlockKeyslot] *)

Lemma attempts_app a b : attempts (a ++ b) = attempts a ++ attempts b.
Proof. apply flat_map_app. Qed.

Section Quiet.

Context {L : Library}.
Context {A B : Type}.

Lemma quiet_ret (a : A) : quiet (ret a).
Proof. intros w r w' H. now inversion H. Qed.

Lemma quiet_fail (e : error) : quiet (@fail A e).
Proof. intros w r w' H. now inversion H. Qed.

Lemma quiet_panic (p : string) : quiet (@panic A p).
Proof. intros w r w' H. now inversion H. Qed.

Lemma quiet_bind (c : M A) (k : A -> M B) :
  quiet c -> (forall a, quiet (k a)) -> quiet (bind c k).
Proof.
  intros Hc Hk w r w' H. unfold bind in H.
  destruct (c w) as [[a|e|p] w1] eqn:E; apply Hc in E.
  - apply Hk in H. congruence.
  - inversion H; subst. exact E.
  - inversion H; subst. exact E.
Qed.

Lemma quiet_defer (cleanup : world -> world) (body : M A) :
  (forall w, trace (cleanup w) = trace w) -> quiet body ->
  quiet (defer cleanup body).
Proof.
  intros Hc Hb w r w' H. unfold defer in H.
  destruct (body w) as [r1 w1] eqn:E. inversion H; subst.
  rewrite Hc. eapply Hb; eauto.
Qed.

End Quiet.

Lemma quiet_modify (f : world -> world) :
  (forall w, trace (f w) = trace w) -> quiet (modify f).
Proof. intros Hf w r w' H. inversion H; subst. now rewrite Hf. Qed.

Lemma quiet_log (ev : event) : attempts [ev] = [] -> quiet (log ev).
Proof.
  intros Hev w r w' H. inversion H; subst. simpl.
  rewrite attempts_app, Hev. apply app_nil_r.
Qed.

Lemma quiet_alloc b : quiet (alloc b).
Proof. intros w r w' H. now inversion H. Qed.

Lemma quiet_load s : quiet (load s).
Proof. intros w r w' H. now inversion H. Qed.

Lemma quiet_store s b : quiet (store s b).
Proof. intros w r w' H. now inversion H. Qed.

Lemma clearSlice_trace s w : trace (clearSlice s w) = trace w.
Proof. reflexivity. Qed.

Lemma quiet_for_loop body n :
  (forall i, quiet (body i)) -> forall i, quiet (for_loop i n body).
Proof.
  intros Hb. induction n as [|n IH]; intros i; simpl.
  - apply quiet_ret.
  - apply quiet_bind; [apply Hb | intros _; apply IH].
Qed.

(** One step through the structure of a computation. *)
Ltac quiet_step :=
  lazymatch goal with
  | |- quiet (bind _ _) => apply quiet_bind; [ | intro ]
  | |- quiet (ret _) => apply quiet_ret
  | |- quiet (fail _) => apply quiet_fail
  | |- quiet (panic _) => apply quiet_panic
  | |- quiet (defer _ _) => apply quiet_defer; [ apply clearSlice_trace | ]
  | |- quiet (modify _) => apply quiet_modify; apply clearSlice_trace
  | |- quiet (log _) => apply quiet_log; reflexivity
  | |- quiet (alloc _) => apply quiet_alloc
  | |- quiet (load _) => apply quiet_load
  | |- quiet (store _ _) => apply quiet_store
  | |- quiet (for_loop _ _ _) => apply quiet_for_loop; intro
  | |- quiet (if ?c then _ else _) => destruct c
  | |- quiet (match ?x with _ => _ end) => destruct x
  end.

Ltac quiet_auto := cbv zeta; repeat (quiet_step; cbv zeta); eauto.

Lemma quiet_make_bytes n : quiet (make_bytes n).
Proof. unfold make_bytes. quiet_auto. Qed.

Lemma quiet_new_bytes r : quiet (new_bytes r).
Proof. unfold new_bytes. quiet_auto. Qed.

Lemma quiet_f_ReadAt f buf off : quiet (f_ReadAt f buf off).
Proof. unfold f_ReadAt. quiet_auto. Qed.

Section QuietCode.

Context {L : Library}.

Lemma quiet_deriveLuks2AfKey k idx pass n : quiet (deriveLuks2AfKey k idx pass n).
Proof. unfold deriveLuks2AfKey. quiet_auto; apply quiet_new_bytes. Qed.

Lemma quiet_buildLuks2AfCipher enc afKey : quiet (buildLuks2AfCipher enc afKey).
Proof. unfold buildLuks2AfCipher. quiet_auto. Qed.

Lemma quiet_decrypt_sector c kd i : quiet (decrypt_sector c kd i).
Proof. unfold decrypt_sector. quiet_auto. Qed.

Lemma quiet_decryptLuks2VolumeKey f idx ks afKey :
  quiet (decryptLuks2VolumeKey f idx ks afKey).
Proof.
  unfold decryptLuks2VolumeKey. cbv zeta.
  destruct (Go.ParseInt (area_Size (ks_Area ks))); [|apply quiet_fail].
  repeat (quiet_step; cbv zeta);
    auto using quiet_make_bytes, quiet_f_ReadAt, quiet_buildLuks2AfCipher,
               quiet_decrypt_sector.
Qed.

Lemma quiet_computeDigestForKey dig idx key : quiet (computeDigestForKey dig idx key).
Proof. unfold computeDigestForKey. quiet_auto; apply quiet_new_bytes. Qed.

Lemma quiet_resolve_segment d key i dig : quiet (resolve_segment d key i dig).
Proof. unfold resolve_segment, Go.Atoi. quiet_auto. Qed.

(** A call of [unlockKeyslot] is recorded once, whatever its result. *)
Lemma unlockKeyslot_attempts d f k pass w r w' :
  unlockKeyslot d f k pass w = (r, w') ->
  attempts (trace w') = attempts (trace w) ++ [k].
Proof.
  unfold unlockKeyslot. intros H. unfold bind at 1 in H. simpl in H.
  match type of H with ?c ?w1 = _ =>
    assert (Q : quiet c); [| apply Q in H; rewrite H; simpl;
                               now rewrite attempts_app] end.
  clear H. cbv zeta.
  repeat (quiet_step; cbv zeta);
    auto using quiet_deriveLuks2AfKey, quiet_decryptLuks2VolumeKey,
               quiet_computeDigestForKey, quiet_resolve_segment.
Qed.

End QuietCode.

(** ** The priority search *)

Section Search.

Context {L : Library}.

Lemma is_high_not_norm v : is_high v = true -> is_norm v = false.
Proof.
  unfold is_high, is_norm. intros H. apply String.eqb_eq in H.
  now rewrite H.
Qed.

Lemma collect_prio_spec ks h n :
  collect_prio ks h n =
    (h ++ map fst (filter (fun kv => is_high (snd kv)) ks),
     n ++ map fst (filter (fun kv => is_norm (snd kv)) ks)).
Proof.
  revert h n. induction ks as [|[k v] ks IH]; intros h n; simpl.
  - now rewrite !app_nil_r.
  - fold (is_high v). fold (is_norm v).
    destruct (is_high v) eqn:Hh.
    + rewrite (is_high_not_norm v Hh), IH. simpl.
      now rewrite <- app_assoc.
    + destruct (is_norm v); rewrite IH; simpl; [|reflexivity].
      now rewrite <- app_assoc.
Qed.

Lemma activeKeyslots_eq d :
  activeKeyslots d =
    Go.sort_Ints (keys_with is_high d) ++ Go.sort_Ints (keys_with is_norm d).
Proof. unfold activeKeyslots. now rewrite collect_prio_spec. Qed.

Lemma all_wrong_attempts d f pass ks :
  forall w w', all_wrong d f pass ks w w' ->
               attempts (trace w') = attempts (trace w) ++ ks.
Proof.
  induction ks as [|k ks IH]; simpl; intros w w' H.
  - subst. now rewrite app_nil_r.
  - destruct H as (w1 & Hk & Hks).
    apply IH in Hks. apply unlockKeyslot_attempts in Hk.
    rewrite Hks, Hk, <- app_assoc. reflexivity.
Qed.

(** The loop: a run of attempts that do not match, then either the end
    of the list or one attempt with any other result, which is the
    result of the loop. *)
Lemma try_keyslots_spec d f pass active :
  forall w r w',
    try_keyslots d f pass active w = (r, w') ->
    exists wrong rest wm,
      active = wrong ++ rest /\ all_wrong d f pass wrong w wm /\
      ((rest = [] /\ r = Err ErrPassphraseDoesNotMatch /\ w' = wm) \/
       (exists k rest',
          rest = k :: rest' /\ unlockKeyslot d f k pass wm = (r, w') /\
          r <> Err ErrPassphraseDoesNotMatch)).
Proof.
  induction active as [|k active IH]; simpl; intros w r w' H.
  - inversion H; subst. exists [], [], w'. simpl.
    split; [reflexivity|]. split; [reflexivity|]. left. auto.
  - destruct (unlockKeyslot d f k pass w) as [[v|e|p] w1] eqn:E.
    + inversion H; subst. exists [], (k :: active), w. simpl.
      split; [reflexivity|]. split; [reflexivity|]. right.
      exists k, active. repeat split; [assumption|discriminate].
    + destruct e; simpl in H.
      * apply IH in H as (wrong & rest & wm & -> & Hw & Hr).
        exists (k :: wrong), rest, wm. simpl.
        split; [reflexivity|]. split; [|exact Hr].
        exists w1. auto.
      * inversion H; subst. exists [], (k :: active), w. simpl.
        split; [reflexivity|]. split; [reflexivity|]. right.
        exists k, active. repeat split; [assumption|discriminate].
      * inversion H; subst. exists [], (k :: active), w. simpl.
        split; [reflexivity|]. split; [reflexivity|]. right.
        exists k, active. repeat split; [assumption|discriminate].
    + inversion H; subst. exists [], (k :: active), w. simpl.
      split; [reflexivity|]. split; [reflexivity|]. right.
      exists k, active. repeat split; [assumption|discriminate].
Qed.




(** C3. In the loop of [unlockAnyKeyslot], an attempt that returns
    "passphrase does not match" is followed by the next candidate; the
    first attempt with any other result ends the search with that
    result (the volume on success, the error otherwise) and nothing is
    tried after it; when every candidate answers "passphrase does not
    match", or there is none, the result is "passphrase does not
    match". *)
Theorem unlockAny_control_flow d f pass w r w' :
  unlockAnyKeyslot d f pass w = (r, w') ->
  exists wrong rest wm,
    activeKeyslots d = wrong ++ rest /\
    all_wrong d f pass wrong w wm /\
    ((rest = [] /\ r = Err ErrPassphraseDoesNotMatch /\ w' = wm /\
      attempts (trace w') = attempts (trace w) ++ wrong) \/
     (exists k rest',
        rest = k :: rest' /\
        unlockKeyslot d f k pass wm = (r, w') /\
        r <> Err ErrPassphraseDoesNotMatch /\
        attempts (trace w') = attempts (trace w) ++ wrong ++ [k])).
Proof.
  intros H. unfold unlockAnyKeyslot in H.
  apply try_keyslots_spec in H as (wrong & rest & wm & Hact & Hw & Hr).
  exists wrong, rest, wm. split; [assumption|]. split; [assumption|].
  pose proof (all_wrong_attempts _ _ _ _ _ _ Hw) as Ha.
  destruct Hr as [(-> & -> & ->) | (k & rest' & -> & Hk & Hne)].
  - left. auto.
  - right. exists k, rest'. repeat split; auto.
    apply unlockKeyslot_attempts in Hk.
    rewrite Hk, Ha, <- app_assoc. reflexivity.
Qed.

End Search.

(** ** Buffers *)

Lemma update_length {A : Type} (l : list A) n x :
  List.length (update l n x) = List.length l.
Proof.
  revert n. induction l as [|y l IH]; intros [|n]; simpl; auto.
Qed.

Lemma update_app_r {A : Type} (pre l : list A) n x :
  update (pre ++ l) (List.length pre + n) x = pre ++ update l n x.
Proof.
  induction pre as [|y pre IH]; simpl; [reflexivity|]. now rewrite IH.
Qed.

Lemma update_update {A : Type} (l : list A) n x y :
  update (update l n x) n y = update l n y.
Proof.
  revert n. induction l as [|z l IH]; intros [|n]; simpl; auto.
  now rewrite IH.
Qed.

Lemma nth_update {A : Type} (l : list A) n x d :
  (n < List.length l)%nat -> nth n (update l n x) d = x.
Proof.
  revert n. induction l as [|z l IH]; intros [|n]; simpl; intros H;
    try lia; auto. apply IH. lia.
Qed.


Lemma update_same {A : Type} (l : list A) n d :
  update l n (nth n l d) = l.
Proof.
  revert n. induction l as [|z l IH]; intros [|n]; simpl; auto.
  now rewrite IH.
Qed.

Lemma update_beyond {A : Type} (l : list A) n x :
  (List.length l <= n)%nat -> update l n x = l.
Proof.
  revert n. induction l as [|z l IH]; intros [|n]; simpl; intros H;
    try lia; auto. rewrite IH; [reflexivity|lia].
Qed.

Lemma all_zero_repeat n : all_zero (repeat x00 n).
Proof. apply Forall_forall. intros x H. now apply repeat_spec in H. Qed.

Lemma rewrites_refl s w : rewrites s w w.
Proof.
  exists (buffer w s). split; [|reflexivity].
  unfold buffer. now rewrite update_same.
Qed.

Lemma buffer_update_length {A : Type} (h : list (list A)) s (b d : list A) :
  List.length b = List.length (nth s h d) ->
  List.length (nth s (update h s b) d) = List.length (nth s h d).
Proof.
  intros Hb. destruct (Nat.lt_ge_cases s (List.length h)) as [Hs|Hs].
  - rewrite nth_update by assumption. exact Hb.
  - now rewrite update_beyond.
Qed.

Lemma rewrites_trans s w1 w2 w3 :
  rewrites s w1 w2 -> rewrites s w2 w3 -> rewrites s w1 w3.
Proof.
  intros (b1 & H1 & L1) (b2 & H2 & L2). exists b2. split.
  - now rewrite H2, H1, update_update.
  - rewrite L2. unfold buffer. rewrite H1.
    now apply buffer_update_length.
Qed.

Lemma rewrites_clearSlice s w : rewrites s w (clearSlice s w).
Proof.
  exists (repeat x00 (List.length (buffer w s))). split; [reflexivity|].
  apply repeat_length.
Qed.

(** ** Stepping through a computation *)

Lemma bind_inv {A B : Type} (c : M A) (k : A -> M B) w r w' :
  bind c k w = (r, w') ->
  (exists a w1, c w = (Ret a, w1) /\ k a w1 = (r, w')) \/
  (exists e, c w = (Err e, w') /\ r = Err e) \/
  (exists p, c w = (Panic p, w') /\ r = Panic p).
Proof.
  unfold bind. destruct (c w) as [[a|e|p] w1]; intros H.
  - left. eauto.
  - right. left. inversion H; subst. eauto.
  - right. right. inversion H; subst. eauto.
Qed.

Ltac bind_inv H :=
  let a := fresh "a" in
  let w := fresh "w" in
  let e := fresh "e" in
  let p := fresh "p" in
  let H1 := fresh "H" in
  let Hr := fresh "Hr" in
  apply bind_inv in H;
  destruct H as [(a & w & H1 & H) | [(e & H & Hr) | (p & H & Hr)]];
  [ | match type of Hr with
      | ?r = _ => first [is_var r; subst r | discriminate Hr | idtac]
      end .. ].

Lemma defer_inv {A : Type} (cleanup : world -> world) (body : M A) w r w' :
  defer cleanup body w = (r, w') ->
  exists w1, body w = (r, w1) /\ w' = cleanup w1.
Proof.
  unfold defer. destruct (body w) as [r1 w1]. intros H.
  inversion H; subst. eauto.
Qed.

Lemma alloc_spec b w r w' :
  alloc b w = (r, w') ->
  r = Ret (List.length (heap w)) /\ heap w' = heap w ++ [b] /\
  fpos w' = fpos w /\ trace w' = trace w.
Proof. intros H. inversion H; subst. auto. Qed.

Lemma make_bytes_spec n w r w' :
  make_bytes n w = (r, w') ->
  fpos w' = fpos w /\ trace w' = trace w /\
  match r with
  | Ret s => s = List.length (heap w) /\ n <= maxAlloc /\
             heap w' = heap w ++ [repeat x00 (Z.to_nat n)]
  | Err _ => False
  | Panic _ => w' = w /\ (n < 0 \/ maxAlloc < n)
  end.
Proof.
  unfold make_bytes. intros H.
  destruct (n <? 0) eqn:E1; [|destruct (maxAlloc <? n) eqn:E2]; simpl in H.
  - inversion H; subst. repeat split; auto. left. lia.
  - inversion H; subst. repeat split; auto. right. lia.
  - inversion H; subst. simpl. repeat split; auto. lia.
Qed.

Lemma new_bytes_spec o w r w' :
  new_bytes o w = (r, w') ->
  fpos w' = fpos w /\ trace w' = trace w /\
  match r with
  | Ret s => s = List.length (heap w) /\ exists b, o = Some b /\ heap w' = heap w ++ [b]
  | Err _ => False
  | Panic _ => w' = w
  end.
Proof.
  unfold new_bytes. destruct o as [b|]; intros H; inversion H; subst; simpl; eauto 7.
Qed.

Lemma f_ReadAt_spec f buf off w r w' :
  f_ReadAt f buf off w = (r, w') ->
  fpos w' = fpos w /\
  trace w' = trace w ++ [EvReadAt off (Go.len (buffer w buf))] /\
  rewrites buf w w' /\
  (r = Ret tt \/ exists e, r = Err (LibErr e)) /\
  (0 <= off -> off + Go.len (buffer w buf) <= Go.len f -> r = Ret tt).
Proof.
  unfold f_ReadAt, bind, load, log, store, fail, ret. simpl.
  destruct (off <? 0) eqn:Eoff.
  - intros H. inversion H; subst. simpl.
    split; [reflexivity|]. split; [reflexivity|].
    split; [apply (rewrites_refl buf w)|].
    split; [right; eauto | intros; lia].
  - set (b := buffer w buf).
    set (got := firstn (List.length b) (skipn (Z.to_nat off) f)).
    assert (Hgot : (List.length got <= List.length b)%nat)
      by (unfold got; rewrite length_firstn; lia).
    assert (Hrw : exists b', update (heap w) buf (got ++ skipn (List.length got) b)
                             = update (heap w) buf b' /\
                             List.length b' = List.length b).
    { eexists. split; [reflexivity|].
      rewrite length_app, length_skipn. lia. }
    destruct Hrw as (b' & Hb' & Lb').
    assert (Hr : rewrites buf w
                   (set_heap (update (heap w) buf (got ++ skipn (List.length got) b))
                      (mkWorld (heap w) (fpos w)
                         (trace w ++ [EvReadAt off (Go.len b)])))).
    { exists b'. simpl. split; assumption. }
    destruct (Go.len got <? Go.len b) eqn:Elen; intros H; inversion H; subst;
      (split; [reflexivity|]; split; [reflexivity|]; split; [exact Hr|]).
    + split; [right; eauto|]. intros H0 H1. exfalso.
      apply Z.ltb_lt in Elen. unfold Go.len in *.
      unfold got in Elen. rewrite length_firstn, length_skipn in Elen.
      fold b in H1. lia.
    + split; [left; reflexivity | reflexivity].
Qed.

(** Runs a hypothesis [c w = (r, w')] through the control structure of
    [c]: case analysis on every test, inversion at every exit. *)
Ltac steps :=
  repeat (cbv beta zeta in *;
          match goal with
          | H : ret _ _ = (_, _) |- _ => inversion H; subst; clear H
          | H : fail _ _ = (_, _) |- _ => inversion H; subst; clear H
          | H : panic _ _ = (_, _) |- _ => inversion H; subst; clear H
          | H : load _ _ = (_, _) |- _ => inversion H; subst; clear H
          | H : bind _ _ _ = (_, _) |- _ => bind_inv H
          | H : (if ?c then _ else _) _ = (_, _) |- _ => destruct c eqn:?
          | H : (match ?x with _ => _ end) _ = (_, _) |- _ => destruct x eqn:?
          end).

(** ** The helpers of [unlockKeyslot] *)

Section Helpers.

Context {L : Library}.

Lemma buffer_length_rewrites s w w' :
  rewrites s w w' ->
  List.length (buffer w' s) = List.length (buffer w s).
Proof.
  intros (b & Hh & Hl). unfold buffer in *. rewrite Hh.
  now apply buffer_update_length.
Qed.

Lemma decrypt_sector_spec c s i w r w' :
  decrypt_sector c s i w = (r, w') ->
  0 <= i -> (i + 1) * storageSectorSize <= Go.len (buffer w s) ->
  r = Ret tt /\ fpos w' = fpos w /\ trace w' = trace w ++ [EvDecrypt i] /\
  rewrites s w w'.
Proof.
  unfold decrypt_sector, bind, load, log, store, panic. intros H Hi Hlen.
  destruct (Go.len (buffer w s) <? (i + 1) * storageSectorSize) eqn:E;
    [apply Z.ltb_lt in E; lia|].
  inversion H; subst; clear H. simpl.
  repeat split.
  eexists. split; [reflexivity|]. simpl.
  unfold storageSectorSize, Go.len, Go.slice_of in *.
  rewrite !length_app, xts_Decrypt_length, !length_firstn, !length_skipn.
  lia.
Qed.

Lemma decrypt_loop_spec c s n :
  forall i w r w',
    for_loop i n (decrypt_sector c s) w = (r, w') ->
    0 <= i ->
    (i + Z.of_nat n) * storageSectorSize <= Go.len (buffer w s) ->
    r = Ret tt /\ fpos w' = fpos w /\
    trace w' = trace w ++ map EvDecrypt (count_from i n) /\
    rewrites s w w'.
Proof.
  induction n as [|n IH]; simpl; intros i w r w' H Hi Hlen.
  - inversion H; subst. rewrite app_nil_r. auto using rewrites_refl.
  - unfold storageSectorSize in *.
    bind_inv H.
    + apply decrypt_sector_spec in H0 as (_ & Hf & Ht & Hr);
        [|lia|unfold storageSectorSize; lia].
      apply IH in H as (-> & Hf' & Ht' & Hr'); [|lia|].
      * repeat split; [congruence| |eapply rewrites_trans; eauto].
        rewrite Ht', Ht, <- app_assoc. reflexivity.
      * unfold Go.len. rewrite (buffer_length_rewrites _ _ _ Hr).
        unfold Go.len in Hlen. lia.
    + apply decrypt_sector_spec in H as (Hr & _);
        [discriminate|lia|unfold storageSectorSize; lia].
    + apply decrypt_sector_spec in H as (Hr & _);
        [discriminate|lia|unfold storageSectorSize; lia].
Qed.

Lemma buildLuks2AfCipher_spec enc afKey w r w' :
  buildLuks2AfCipher enc afKey w = (r, w') ->
  w' = w /\ not_sentinel r /\ (forall p, r <> Panic p).
Proof.
  unfold buildLuks2AfCipher, not_sentinel. cbv zeta. intros H.
  repeat match type of H with
         | (if ?c then _ else _) _ = _ => destruct c
         end;
    try (inversion H; subst; repeat split; intros; discriminate).
  unfold bind, load in H.
  destruct (xts_NewCipher (buffer w afKey));
    inversion H; subst; repeat split; intros; discriminate.
Qed.

Lemma deriveLuks2AfKey_spec k idx pass n w r w' :
  deriveLuks2AfKey k idx pass n w = (r, w') ->
  fpos w' = fpos w /\ trace w' = trace w /\
  match r with
  | Ret s => s = List.length (heap w) /\ exists key, heap w' = heap w ++ [key]
  | Err e => w' = w /\ e <> ErrPassphraseDoesNotMatch
  | Panic _ => w' = w
  end.
Proof.
  unfold deriveLuks2AfKey. intros H.
  destruct (base64_DecodeString (kdf_Salt k)) as [salt|];
    [|inversion H; subst; repeat split; discriminate].
  repeat match type of H with
         | (if ?c then _ else _) _ = _ => destruct c
         end;
    try (inversion H; subst; repeat split; discriminate);
    apply new_bytes_spec in H as (Hf & Ht & Hr);
    (split; [assumption|]; split; [assumption|]);
    destruct r; try contradiction; auto;
    destruct Hr as (-> & b & _ & Hh); eauto.
Qed.

Lemma computeDigestForKey_spec dig idx key w r w' :
  computeDigestForKey dig idx key w = (r, w') ->
  fpos w' = fpos w /\ trace w' = trace w /\
  match r with
  | Ret s => s = List.length (heap w) /\ exists dg, heap w' = heap w ++ [dg]
  | Err e => w' = w /\ e <> ErrPassphraseDoesNotMatch
  | Panic _ => w' = w
  end.
Proof.
  unfold computeDigestForKey. intros H.
  destruct (base64_DecodeString (dig_Salt dig)) as [salt|];
    [|inversion H; subst; repeat split; discriminate].
  repeat match type of H with
         | (if ?c then _ else _) _ = _ => destruct c
         end;
    try (inversion H; subst; repeat split; discriminate).
  unfold bind, load in H.
  apply new_bytes_spec in H as (Hf & Ht & Hr).
  split; [assumption|]. split; [assumption|].
  destruct r; try contradiction; auto.
  destruct Hr as (-> & b & _ & Hh); eauto.
Qed.

Lemma resolve_segment_spec d key i dig w r w' :
  resolve_segment d key i dig w = (r, w') -> w' = w /\ not_sentinel r.
Proof.
  unfold resolve_segment, not_sentinel, Go.Atoi. intros H.
  steps; split; auto; discriminate.
Qed.

End Helpers.

Section Decrypt.

Context {L : Library}.

Lemma to_uint64_range z : 0 <= Go.to_uint64 z < 2 ^ 64.
Proof. unfold Go.to_uint64. apply Z.mod_pos_bound. lia. Qed.

Lemma sector_count_small z :
  Go.to_int64 (Go.to_uint64 z / storageSectorSize)
  = Go.to_uint64 z / storageSectorSize.
Proof.
  pose proof (to_uint64_range z) as Hz.
  unfold Go.to_int64, storageSectorSize.
  assert (0 <= Go.to_uint64 z / 512 < 2 ^ 55).
  { split; [apply Z.div_pos; lia|].
    apply Z.div_lt_upper_bound; lia. }
  rewrite Z.mod_small; lia.
Qed.

Lemma buffer_fresh w w' b :
  heap w' = heap w ++ [b] -> buffer w' (List.length (heap w)) = b.
Proof. intros H. unfold buffer. rewrite H. apply nth_middle. Qed.

Lemma rewrites_fresh h z w0 wk :
  heap w0 = h ++ [z] -> rewrites (List.length h) w0 wk ->
  exists b, heap wk = h ++ [b].
Proof.
  intros H0 (b & Hb & _). exists b. rewrite Hb, H0.
  rewrite <- (Nat.add_0_r (List.length h)). now rewrite update_app_r.
Qed.

Lemma clearSlice_heap h b rest w :
  heap w = h ++ b :: rest ->
  heap (clearSlice (List.length h) w)
  = h ++ repeat x00 (List.length b) :: rest.
Proof.
  intros H. unfold clearSlice, buffer. simpl. rewrite H, nth_middle.
  rewrite <- (Nat.add_0_r (List.length h)). now rewrite update_app_r.
Qed.

Lemma decryptLuks2VolumeKey_spec f idx ks afKey w r w' :
  decryptLuks2VolumeKey f idx ks afKey w = (r, w') ->
  fpos w' = fpos w /\ not_sentinel r /\
  match r with
  | Ret key =>
      key = S (List.length (heap w)) /\
      exists n striped merged,
        heap w' = heap w ++ [repeat x00 n; merged] /\
        afMerge striped (Go.to_int64 (ks_KeySize ks))
          (Go.to_int64 (af_Stripes (ks_Af ks))) = inr merged
  | _ => heap w' = heap w \/ exists n, heap w' = heap w ++ [repeat x00 n]
  end.
Proof.
  unfold decryptLuks2VolumeKey, not_sentinel. intros H.
  cbv zeta in H.
  destruct (Go.ParseInt (area_Size (ks_Area ks))) as [areaSize|];
    [|inversion H; subst; repeat split; auto; discriminate].
  destruct (_ >? _); [inversion H; subst; repeat split; auto; discriminate|].
  destruct (negb _); [inversion H; subst; repeat split; auto; discriminate|].
  bind_inv H.
  2:{ apply make_bytes_spec in H as (_ & _ & []). }
  2:{ apply make_bytes_spec in H as (Hf & _ & (-> & _)).
      repeat split; auto; discriminate. }
  apply make_bytes_spec in H0 as (Hf0 & Ht0 & (-> & _ & Hh0)).
  apply defer_inv in H as (w2 & H & ->).
  set (kd := List.length (heap w)) in *.
  set (ksz := Go.to_uint64 (area_KeySize (ks_Area ks) * stripesNum)) in *.
  assert (Hbuf : Go.len (buffer w0 kd) = ksz).
  { unfold kd. rewrite (buffer_fresh w w0 _ Hh0). unfold Go.len.
    rewrite repeat_length. pose proof (to_uint64_range (area_KeySize (ks_Area ks) * stripesNum)).
    fold ksz in H0. lia. }
  assert (Hrange : 0 <= ksz < 2 ^ 64) by apply to_uint64_range.
  assert (Hexit : forall (r0 : outcome slice) wf,
             rewrites kd w0 wf -> fpos wf = fpos w0 ->
             (forall key, r0 <> Ret key) -> r0 <> Err ErrPassphraseDoesNotMatch ->
             fpos (clearSlice kd wf) = fpos w /\
             r0 <> Err ErrPassphraseDoesNotMatch /\
             match r0 with
             | Ret key => False
             | _ => heap (clearSlice kd wf) = heap w \/
                    exists n, heap (clearSlice kd wf) = heap w ++ [repeat x00 n]
             end).
  { intros r0 wf Hr Hf Hnr Hns. split; [simpl; congruence|]. split; [exact Hns|].
    destruct (rewrites_fresh _ _ _ _ Hh0 Hr) as (b & Hb).
    destruct r0 as [key|e|p]; [now apply (Hnr key)| |];
      right; exists (List.length b);
      unfold kd; erewrite clearSlice_heap; try reflexivity; exact Hb. }
  destruct (Go.ParseInt (area_Offset (ks_Area ks))) as [off|].
  2:{ inversion H; subst r w2.
      apply (Hexit (Err _) w0); auto using rewrites_refl; discriminate. }
  destruct (negb (Z.rem off storageSectorSize =? 0)).
  { inversion H; subst r w2.
    apply (Hexit (Err _) w0); auto using rewrites_refl; discriminate. }
  bind_inv H.
  2:{ apply f_ReadAt_spec in H as (Hf1 & _ & Hr1 & [Hres|(e' & Hres)] & _);
        [discriminate|].
      inversion Hres; subst e.
      apply (Hexit (Err _) w2); auto; discriminate. }
  2:{ apply f_ReadAt_spec in H as (Hf1 & _ & Hr1 & [Hres|(e' & Hres)] & _);
        discriminate. }
  apply f_ReadAt_spec in H0 as (Hf1 & _ & Hr1 & _).
  bind_inv H.
  2:{ apply buildLuks2AfCipher_spec in H as (-> & Hns & _).
      apply (Hexit (Err _) w1); auto; try discriminate.
      intros Heq. apply Hns. inversion Heq. reflexivity. }
  2:{ apply buildLuks2AfCipher_spec in H as (-> & _ & Hnp).
      now destruct (Hnp p). }
  apply buildLuks2AfCipher_spec in H0 as (-> & _ & _).
  assert (Hlen : (0 + Z.of_nat (Z.to_nat (Go.to_int64 (ksz / storageSectorSize))))
                 * storageSectorSize <= Go.len (buffer w1 kd)).
  { unfold Go.len. rewrite (buffer_length_rewrites _ _ _ Hr1).
    unfold Go.len in Hbuf. rewrite Hbuf.
    unfold Go.to_int64, storageSectorSize.
    assert (0 <= ksz / 512 < 2 ^ 55).
    { split; [apply Z.div_pos; lia|apply Z.div_lt_upper_bound; lia]. }
    rewrite Z.mod_small by lia.
    pose proof (Z.mul_div_le ksz 512). lia. }
  bind_inv H.
  2:{ apply decrypt_loop_spec in H as (Hret & _); [discriminate|lia|exact Hlen]. }
  2:{ apply decrypt_loop_spec in H as (Hret & _); [discriminate|lia|exact Hlen]. }
  apply decrypt_loop_spec in H0 as (_ & Hf2 & _ & Hr2); [|lia|exact Hlen].
  pose proof (rewrites_trans _ _ _ _ Hr1 Hr2) as Hr.
  assert (Hf : fpos w3 = fpos w0) by congruence.
  destruct (negb (af_Stripes (ks_Af ks) =? stripesNum)).
  { inversion H; subst r w2.
    apply (Hexit (Err _) w3); auto; discriminate. }
  destruct (af_Hash (ks_Af ks) =? "sha256")%string.
  2:{ inversion H; subst r w2.
      apply (Hexit (Err _) w3); auto; discriminate. }
  unfold bind, load in H.
  destruct (afMerge _ _ _) as [[fmt args]|merged] eqn:Em.
  { inversion H; subst r w2.
    apply (Hexit (Err _) w3); auto; discriminate. }
  apply alloc_spec in H as (-> & Hh & Hf3 & _).
  split; [simpl; congruence|]. split; [discriminate|].
  destruct (rewrites_fresh _ _ _ _ Hh0 Hr) as (b & Hb).
  split; [rewrite Hb, length_app; simpl; unfold kd; lia|].
  exists (List.length b), (buffer w3 kd), merged. split; [|exact Em].
  unfold kd. erewrite clearSlice_heap; [reflexivity|].
  rewrite Hh, Hb, <- app_assoc. reflexivity.
Qed.

End Decrypt.

(** ** The checks on the keyslot area *)

Section Area.

Context {L : Library}.




End Area.

Section Unlock.

Context {L : Library}.

(** Every run of [unlockKeyslot] either stops before the comparison of
    the digests, with an error other than the sentinel or a panic, or
    reaches it; then a mismatch gives the sentinel and a match hands
    over to the segment resolution. *)
Lemma unlockKeyslot_inv d f idx pass w r w' :
  unlockKeyslot d f idx pass w = (r, w') ->
  (not_sentinel r /\ forall v, r <> Ret v) \/
  exists afKey finalKey gd digIdx digInfo expected w1 w2 w3,
    reaches_verification d f idx pass w afKey finalKey gd digIdx digInfo
      expected w1 w2 w3 /\
    ((buffer w3 gd <> expected /\ r = Err ErrPassphraseDoesNotMatch /\
      w' = clearSlice afKey (clearSlice gd w3)) \/
     (buffer w3 gd = expected /\
      exists w4,
        resolve_segment d finalKey digIdx digInfo (clearSlice gd w3) = (r, w4) /\
        w' = clearSlice afKey (clearSlice gd w4))).
Proof.
  unfold unlockKeyslot, not_sentinel. intros H.
  unfold bind at 1, log at 1 in H. cbv beta iota zeta in H.
  destruct ((idx <? 0) || (idx >=? Go.len (Keyslots (meta d)))) eqn:Erange.
  { inversion H; subst. left. split; intros; discriminate. }
  assert (Hrange : 0 <= idx < Go.len (Keyslots (meta d))).
  { apply orb_false_iff in Erange as [E1 E2].
    apply Z.ltb_ge in E1. rewrite Z.geb_leb in E2. apply Z.leb_gt in E2. lia. }
  bind_inv H.
  2:{ apply deriveLuks2AfKey_spec in H as (_ & _ & _ & Hne).
      left. split; [congruence | intros; discriminate]. }
  2:{ left. split; intros; discriminate. }
  apply defer_inv in H as (wd & H & ->).
  bind_inv H.
  2:{ apply decryptLuks2VolumeKey_spec in H as (_ & Hns & _).
      left. split; [|intros; discriminate].
      intros Heq. apply Hns. inversion Heq. reflexivity. }
  2:{ left. split; intros; discriminate. }
  destruct (findDigestForKeyslot d idx) as [[digIdx digInfo]|] eqn:Efind.
  2:{ inversion H; subst. left. split; intros; discriminate. }
  bind_inv H.
  2:{ apply computeDigestForKey_spec in H as (_ & _ & _ & Hne).
      left. split; [congruence | intros; discriminate]. }
  2:{ left. split; intros; discriminate. }
  apply defer_inv in H as (wg & H & ->).
  destruct (base64_DecodeString (dig_Digest digInfo)) as [expected|] eqn:Edec.
  2:{ inversion H; subst. left. split; intros; discriminate. }
  unfold bind at 1, load at 1 in H.
  right. exists a, a0, a1, digIdx, digInfo, expected, w0, w1, w2.
  split; [unfold reaches_verification, recovers_key; auto 10|].
  destruct (negb (Go.bytes_Equal (buffer w2 a1) expected)) eqn:Ecmp.
  - left. inversion H; subst. apply negb_true_iff, bytes_Equal_neq in Ecmp. auto.
  - right. apply negb_false_iff, bytes_Equal_eq in Ecmp.
    split; [assumption|].
    unfold bind at 1, modify in H. eauto.
Qed.

End Unlock.

Section UnlockClaims.

Context {L : Library}.

(** The other direction: what [unlockKeyslot] returns once it has
    reached the comparison. *)
Lemma unlockKeyslot_reached d f idx pass w afKey finalKey gd digIdx digInfo
    expected w1 w2 w3 :
  reaches_verification d f idx pass w afKey finalKey gd digIdx digInfo
    expected w1 w2 w3 ->
  unlockKeyslot d f idx pass w =
    if Go.bytes_Equal (buffer w3 gd) expected then
      let '(r, w4) :=
        resolve_segment d finalKey digIdx digInfo (clearSlice gd w3) in
      (r, clearSlice afKey (clearSlice gd w4))
    else (Err ErrPassphraseDoesNotMatch, clearSlice afKey (clearSlice gd w3)).
Proof.
  intros ((Hrange & Hd & Hdec) & Hfind & Hc & He).
  unfold unlockKeyslot. unfold bind at 1, log at 1. cbv beta iota zeta.
  replace ((idx <? 0) || (idx >=? Go.len (Keyslots (meta d)))) with false.
  2:{ symmetry. apply orb_false_iff. split; [apply Z.ltb_ge; lia|].
      rewrite Z.geb_leb. apply Z.leb_gt. lia. }
  unfold bind at 1. rewrite Hd. unfold defer at 1.
  unfold bind at 1. rewrite Hdec, Hfind.
  unfold bind at 1. rewrite Hc. unfold defer at 1. rewrite He.
  unfold bind at 1, load at 1.
  destruct (Go.bytes_Equal (buffer w3 gd) expected); simpl; [|reflexivity].
  unfold bind at 1, modify.
  destruct (resolve_segment _ _ _ _ _) as [r4 w4]. reflexivity.
Qed.

(** C1. [unlockKeyslot] returns [ErrPassphraseDoesNotMatch] exactly
    when it reaches the digest verification and the computed digest
    differs from the decoded stored digest; every other error exit
    returns another error. *)
Theorem unlockKeyslot_wrong_passphrase d f idx pass w r w' :
  unlockKeyslot d f idx pass w = (r, w') ->
  (r = Err ErrPassphraseDoesNotMatch <->
   exists afKey finalKey gd digIdx digInfo expected w1 w2 w3,
     reaches_verification d f idx pass w afKey finalKey gd digIdx digInfo
       expected w1 w2 w3 /\
     buffer w3 gd <> expected).
Proof.
  intros H. split.
  - intros ->. apply unlockKeyslot_inv in H as [(Hns & _) | H].
    + now destruct Hns.
    + destruct H as (afKey & finalKey & gd & digIdx & digInfo & expected
                       & w1 & w2 & w3 & Hreach & [(Hne & _) | (_ & w4 & Hres & _)]).
      * eauto 12.
      * apply resolve_segment_spec in Hres as (_ & Hns). now destruct Hns.
  - intros (afKey & finalKey & gd & digIdx & digInfo & expected
              & w1 & w2 & w3 & Hreach & Hne).
    rewrite (unlockKeyslot_reached _ _ _ _ _ _ _ _ _ _ _ _ _ _ Hreach) in H.
    apply bytes_Equal_neq in Hne. rewrite Hne in H. congruence.
Qed.

(** *** Segment resolution *)

Lemma to_uint64_nonneg z : 0 <= z < 2 ^ 63 -> Go.to_uint64 z = z.
Proof. intros H. unfold Go.to_uint64. apply Z.mod_small. lia. Qed.

Lemma ParseInt_range s z : Go.ParseInt s = Some z -> - 2 ^ 63 <= z < 2 ^ 63.
Proof.
  unfold Go.ParseInt.
  destruct (match s with
            | String "+"%char r => (false, r)
            | String "-"%char r => (true, r)
            | _ => (false, s)
            end) as [neg body].
  destruct body; [discriminate|].
  destruct (Go.parse_digits _ _) as [n|]; [|discriminate].
  destruct (_ && _) eqn:E; [|discriminate].
  intros H. inversion H; subst.
  apply andb_true_iff in E as [E1 E2].
  apply Z.leb_le in E1. apply Z.ltb_lt in E2. lia.
Qed.

Lemma singleton_of_len {A : Type} (l : list A) (dflt : A) :
  Go.len l = 1 -> l = [nth 0 l dflt].
Proof.
  unfold Go.len. destruct l as [|x [|y l]]; simpl; intros H;
    try reflexivity; lia.
Qed.

(** What a successful [resolve_segment] returns. *)
Lemma resolve_segment_Ret d key digIdx digInfo w info w' :
  resolve_segment d key digIdx digInfo w = (Ret info, w') ->
  exists seg0 segNo offset ivTweak,
    dig_Segments digInfo = [seg0] /\ Go.ParseInt seg0 = Some segNo /\
    let seg := index zero_segment (Segments (meta d)) segNo in
    let sectorSize := Go.to_uint64 (seg_SectorSize seg) in
    Go.ParseInt (seg_Offset seg) = Some offset /\
    Go.ParseInt (seg_IvTweak seg) = Some ivTweak /\
    sectorSize <> 0 /\
    vi_key info = key /\ vi_digestId info = digIdx /\
    vi_storageSectorSize info = sectorSize /\
    vi_storageOffset info = Go.to_uint64 offset / sectorSize /\
    vi_storageIvTweak info = Go.to_uint64 ivTweak /\
    vi_storageEncryption info = seg_Encryption seg /\
    ((seg_Size seg = "dynamic" /\ vi_storageSize info = 0) \/
     (seg_Size seg <> "dynamic" /\
      exists size, Go.Atoi (seg_Size seg) = Some size /\ size <> 0 /\
                   vi_storageSize info = Go.to_uint64 size / sectorSize)).
Proof.
  unfold resolve_segment. intros H.
  destruct (negb (Go.len (dig_Segments digInfo) =? 1)) eqn:Elen;
    [discriminate|].
  apply negb_false_iff, Z.eqb_eq in Elen.
  apply (singleton_of_len _ EmptyString) in Elen.
  cbv zeta in H.
  set (seg0 := nth 0 (dig_Segments digInfo) EmptyString) in *.
  destruct (Go.ParseInt seg0) as [segNo|] eqn:Eseg; [|discriminate].
  set (seg := index zero_segment (Segments (meta d)) segNo) in *.
  destruct (Go.ParseInt (seg_Offset seg)) as [offset|] eqn:Eoff; [|discriminate].
  bind_inv H.
  destruct (Go.ParseInt (seg_IvTweak seg)) as [ivTweak|] eqn:Eiv; [|discriminate].
  destruct (Go.to_uint64 (seg_SectorSize seg) =? 0) eqn:Esec; [discriminate|].
  apply Z.eqb_neq in Esec.
  inversion H; subst; clear H. simpl.
  exists seg0, segNo, offset, ivTweak. fold seg.
  repeat (split; [solve [auto]|]).
  destruct (negb (seg_Size seg =? "dynamic")%string) eqn:Edyn.
  - right. apply negb_true_iff, String.eqb_neq in Edyn.
    split; [assumption|].
    destruct (Go.Atoi (seg_Size seg)) as [size|]; [|discriminate].
    destruct (size =? 0) eqn:Ez; [discriminate|].
    apply Z.eqb_neq in Ez. inversion H0; subst. eauto.
  - left. apply negb_false_iff, String.eqb_eq in Edyn.
    split; [assumption|]. inversion H0; subst. apply Z.div_0_l.
    assumption.
Qed.

(** A decimal size of zero on a segment that is not dynamic. *)
Lemma resolve_segment_zero_size d key digIdx digInfo w seg0 segNo offset :
  dig_Segments digInfo = [seg0] -> Go.ParseInt seg0 = Some segNo ->
  let seg := index zero_segment (Segments (meta d)) segNo in
  Go.ParseInt (seg_Offset seg) = Some offset ->
  seg_Size seg <> "dynamic" -> Go.Atoi (seg_Size seg) = Some 0 ->
  resolve_segment d key digIdx digInfo w
  = (Err (Errorf "invalid segment size: %v" [VInt 0]), w).
Proof.
  intros Hsegs Hseg seg Hoff Hdyn Hsize. unfold resolve_segment.
  rewrite Hsegs. simpl. rewrite Hseg. fold seg. rewrite Hoff.
  apply String.eqb_neq in Hdyn. unfold bind. rewrite Hdyn. simpl.
  rewrite Hsize. reflexivity.
Qed.

(** C8. After the digest matches, the segment named by the digest is
    resolved: on success the volume has the sector size of the segment,
    its offset divided by the sector size, and as size 0 for a
    "dynamic" segment and the decimal size divided by the sector size
    otherwise; a decimal size of 0 is an error. Offset 16384, size
    "131072" and sector size 512 give offset 32, size 256, sector size
    512. (Sizes and offsets are converted to [uint64] before the
    division, which changes nothing for the non-negative ones.) *)
Theorem unlockKeyslot_segment d f idx pass w r w' :
  unlockKeyslot d f idx pass w = (r, w') ->
  (forall info, r = Ret info ->
     exists seg0 segNo offset,
       (exists digIdx digInfo,
          findDigestForKeyslot d idx = Some (digIdx, digInfo) /\
          dig_Segments digInfo = [seg0]) /\
       Go.ParseInt seg0 = Some segNo /\
       let seg := index zero_segment (Segments (meta d)) segNo in
       let sectorSize := Go.to_uint64 (seg_SectorSize seg) in
       Go.ParseInt (seg_Offset seg) = Some offset /\
       sectorSize <> 0 /\
       vi_storageSectorSize info = sectorSize /\
       vi_storageOffset info = Go.to_uint64 offset / sectorSize /\
       (0 <= offset -> vi_storageOffset info = offset / sectorSize) /\
       (seg_Size seg = "dynamic" -> vi_storageSize info = 0) /\
       (seg_Size seg <> "dynamic" ->
        exists size,
          Go.Atoi (seg_Size seg) = Some size /\ size <> 0 /\
          vi_storageSize info = Go.to_uint64 size / sectorSize /\
          (0 <= size -> vi_storageSize info = size / sectorSize)) /\
       (seg_Offset seg = "16384" -> seg_Size seg = "131072" ->
        seg_SectorSize seg = 512 ->
        vi_storageOffset info = 32 /\ vi_storageSize info = 256 /\
        vi_storageSectorSize info = 512)) /\
  (forall afKey finalKey gd digIdx digInfo expected w1 w2 w3 seg0 segNo offset,
     reaches_verification d f idx pass w afKey finalKey gd digIdx digInfo
       expected w1 w2 w3 ->
     buffer w3 gd = expected ->
     dig_Segments digInfo = [seg0] -> Go.ParseInt seg0 = Some segNo ->
     let seg := index zero_segment (Segments (meta d)) segNo in
     Go.ParseInt (seg_Offset seg) = Some offset ->
     seg_Size seg <> "dynamic" -> Go.Atoi (seg_Size seg) = Some 0 ->
     r = Err (Errorf "invalid segment size: %v" [VInt 0])).
Proof.
  intros H. split.
  - intros info Hr. subst r.
    apply unlockKeyslot_inv in H as [(_ & Hnr) | H]; [now destruct (Hnr info)|].
    destruct H as (afKey & finalKey & gd & digIdx & digInfo & expected
                     & w1 & w2 & w3 & Hreach
                     & [(_ & Heq & _) | (_ & w4 & Hres & _)]); [discriminate|].
    destruct Hreach as (_ & Hfind & _).
    apply resolve_segment_Ret in Hres
      as (seg0 & segNo & offset & ivTweak & Hsegs & Hseg & Hoff & _ & Hsec
          & _ & _ & Hss & Hso & _ & _ & Hsize).
    exists seg0, segNo, offset.
    split; [eauto|]. split; [assumption|]. cbv zeta.
    set (seg := index zero_segment (Segments (meta d)) segNo) in *.
    split; [assumption|]. split; [assumption|]. split; [assumption|].
    split; [assumption|].
    split.
    { intros Hnn. rewrite Hso, to_uint64_nonneg; [reflexivity|].
      apply ParseInt_range in Hoff. lia. }
    split.
    { intros Hdyn. destruct Hsize as [(_ & Hs) | (Hnd & _)];
        [assumption | contradiction]. }
    split.
    { intros Hnd. destruct Hsize as [(Hdyn & _) | (_ & size & Hat & Hnz & Hs)];
        [contradiction|].
      exists size. repeat split; try assumption.
      intros Hnn. rewrite Hs, to_uint64_nonneg; [reflexivity|].
      apply ParseInt_range in Hat. lia. }
    intros Eo Es Ess. rewrite Eo in Hoff. rewrite Ess in *.
    vm_compute in Hoff. inversion Hoff; subst offset.
    destruct Hsize as [(Hdyn & _) | (_ & size & Hat & _ & Hs)].
    { rewrite Es in Hdyn. discriminate. }
    rewrite Es in Hat. vm_compute in Hat. inversion Hat; subst size.
    rewrite Hso, Hs, Hss. repeat split; reflexivity.
  - intros afKey finalKey gd digIdx digInfo expected w1 w2 w3 seg0 segNo offset
           Hreach Hmatch Hsegs Hseg seg Hoff Hdyn Hsize.
    rewrite (unlockKeyslot_reached _ _ _ _ _ _ _ _ _ _ _ _ _ _ Hreach) in H.
    apply bytes_Equal_eq in Hmatch. rewrite Hmatch in H.
    rewrite (resolve_segment_zero_size d finalKey digIdx digInfo _ seg0 segNo offset)
      in H; auto.
    congruence.
Qed.

(** *** The digest of a keyslot *)

Lemma bound_to_skip pre bad post idx :
  Go.ParseInt bad = None ->
  bound_to (pre ++ bad :: post) idx = bound_to (pre ++ post) idx.
Proof.
  intros Hbad. induction pre as [|k pre IH]; simpl.
  - now rewrite Hbad.
  - now rewrite IH.
Qed.

Lemma bound_to_false ks idx :
  (forall k, In k ks -> Go.ParseInt k <> Some idx) -> bound_to ks idx = false.
Proof.
  induction ks as [|k ks IH]; simpl; intros H; [reflexivity|].
  pose proof (H k (or_introl eq_refl)) as Hk.
  destruct (Go.ParseInt k) as [k'|].
  - destruct (Z.eqb_spec k' idx); [congruence|]. apply IH. auto.
  - apply IH. auto.
Qed.

Lemma find_digest_None digests idx :
  (forall i dig k, In (i, dig) digests -> In k (dig_Keyslots dig) ->
                   Go.ParseInt k <> Some idx) ->
  find_digest digests idx = None.
Proof.
  induction digests as [|[i dig] digests IH]; simpl; intros H; [reflexivity|].
  rewrite bound_to_false by eauto. apply IH. eauto.
Qed.

(** C10. An entry of a bound-keyslot list that does not parse as an
    integer is skipped, as if it were not there. So when no entry of
    any digest parses to the keyslot index, malformed ones included,
    the search finds no digest, and [unlockKeyslot], once it has
    recovered a candidate key, reports that no digest is found; it
    reports neither success nor a wrong passphrase. *)
Theorem findDigest_skips_malformed d f idx pass w r w' :
  (forall i dig k, In (i, dig) (Digests (meta d)) -> In k (dig_Keyslots dig) ->
                   Go.ParseInt k <> Some idx) ->
  unlockKeyslot d f idx pass w = (r, w') ->
  (forall pre bad post,
     Go.ParseInt bad = None ->
     bound_to (pre ++ bad :: post) idx = bound_to (pre ++ post) idx) /\
  findDigestForKeyslot d idx = None /\
  (forall v, r <> Ret v) /\ r <> Err ErrPassphraseDoesNotMatch /\
  (forall afKey finalKey w1 w2,
     recovers_key d f idx pass w afKey finalKey w1 w2 ->
     r = Err (Errorf "No digest is found for keyslot %v" [VInt idx])).
Proof.
  intros Hall H.
  assert (Hnone : findDigestForKeyslot d idx = None)
    by (apply find_digest_None; exact Hall).
  split; [intros; now apply bound_to_skip|]. split; [exact Hnone|].
  assert (Hcases : (forall v, r <> Ret v) /\ r <> Err ErrPassphraseDoesNotMatch).
  { apply unlockKeyslot_inv in H as Hinv. destruct Hinv as [(Hns & Hnr) | Hinv].
    - split; assumption.
    - destruct Hinv as (afKey & finalKey & gd & digIdx & digInfo & expected
                          & w1 & w2 & w3 & (_ & Hfind & _) & _).
      congruence. }
  destruct Hcases as (Hnr & Hns). split; [exact Hnr|]. split; [exact Hns|].
  intros afKey finalKey w1 w2 (Hrange & Hd & Hdec).
  unfold unlockKeyslot in H. unfold bind at 1, log at 1 in H.
  cbv beta iota zeta in H.
  replace ((idx <? 0) || (idx >=? Go.len (Keyslots (meta d)))) with false in H.
  2:{ symmetry. apply orb_false_iff. split; [apply Z.ltb_ge; lia|].
      rewrite Z.geb_leb. apply Z.leb_gt. lia. }
  unfold bind at 1 in H. rewrite Hd in H. unfold defer at 1 in H.
  unfold bind at 1 in H. rewrite Hdec, Hnone in H.
  inversion H. reflexivity.
Qed.

(** *** What is left in memory *)

(** C5 (where the code departs from the claim). When [unlockKeyslot]
    returns [ErrPassphraseDoesNotMatch], the buffers it made for the
    derived AF key, the decrypted area and the computed digest are
    zeroed, but the buffer of the merged candidate key, the third one
    it made, still holds the key that [afMerge] returned. *)
Theorem unlockKeyslot_wrong_passphrase_leaves_key d f idx pass w w' :
  unlockKeyslot d f idx pass w = (Err ErrPassphraseDoesNotMatch, w') ->
  exists afKeyBuf areaBuf merged digestBuf striped,
    heap w' = heap w ++ [afKeyBuf; areaBuf; merged; digestBuf] /\
    all_zero afKeyBuf /\ all_zero areaBuf /\ all_zero digestBuf /\
    let keyslot := index zero_keyslot (Keyslots (meta d)) idx in
    afMerge striped (Go.to_int64 (ks_KeySize keyslot))
      (Go.to_int64 (af_Stripes (ks_Af keyslot))) = inr merged /\
    buffer w' (List.length (heap w) + 2)%nat = merged.
Proof.
  intros H. apply unlockKeyslot_inv in H as [(Hns & _) | H];
    [now destruct Hns|].
  destruct H as (afKey & finalKey & gd & digIdx & digInfo & expected
                   & w1 & w2 & w3 & Hreach & [(_ & _ & ->) | (_ & w4 & Hres & _)]).
  2:{ apply resolve_segment_spec in Hres as (_ & Hns). now destruct Hns. }
  destruct Hreach as ((_ & Hd & Hdec) & _ & Hc & _).
  apply deriveLuks2AfKey_spec in Hd as (_ & _ & -> & key & Hh1).
  simpl in Hh1.
  apply decryptLuks2VolumeKey_spec in Hdec
    as (_ & _ & -> & n & striped & merged & Hh2 & Hm).
  apply computeDigestForKey_spec in Hc as (_ & _ & -> & dg & Hh3).
  rewrite Hh1 in Hh2. rewrite Hh2 in Hh3.
  rewrite <- !app_assoc in Hh3. simpl in Hh3.
  assert (Hgd : List.length (heap w2) = List.length (heap w ++ [key; repeat x00 n; merged])).
  { rewrite Hh2, <- app_assoc. reflexivity. }
  assert (Hh4 : heap (clearSlice (List.length (heap w2)) w3)
                = heap w ++ [key; repeat x00 n; merged; repeat x00 (List.length dg)]).
  { rewrite Hgd.
    replace (heap w ++ [key; repeat x00 n; merged; repeat x00 (List.length dg)])
      with ((heap w ++ [key; repeat x00 n; merged]) ++ [repeat x00 (List.length dg)])
      by (rewrite <- app_assoc; reflexivity).
    apply clearSlice_heap. rewrite Hh3, <- app_assoc. reflexivity. }
  exists (repeat x00 (List.length key)), (repeat x00 n), merged,
         (repeat x00 (List.length dg)), striped.
  assert (Hfinal : heap (clearSlice (List.length (heap w))
                           (clearSlice (List.length (heap w2)) w3))
                   = heap w ++ [repeat x00 (List.length key); repeat x00 n; merged;
                                repeat x00 (List.length dg)]).
  { apply clearSlice_heap. exact Hh4. }
  split; [exact Hfinal|].
  repeat (split; [apply all_zero_repeat|]).
  split; [exact Hm|].
  change (buffer (clearSlice (List.length (heap w))
                    (clearSlice (List.length (heap w2)) w3))
            (List.length (heap w) + 2)%nat = merged).
  unfold buffer. rewrite Hfinal.
  rewrite app_nth2 by lia.
  replace (List.length (heap w) + 2 - List.length (heap w))%nat with 2%nat by lia.
  reflexivity.
Qed.

End UnlockClaims.

(** ** Opening a device *)

Lemma isPowerOfTwo_spec x : isPowerOfTwo x = true <-> exists n, 0 <= n /\ x = 2 ^ n.
Proof.
  unfold isPowerOfTwo. rewrite andb_true_iff, Z.ltb_lt, Z.eqb_eq. split.
  - intros (Hpos & Heq). exists (Z.log2 x). split; [apply Z.log2_nonneg|].
    now symmetry.
  - intros (n & Hn & ->). split; [now apply Z.pow_pos_nonneg|].
    now rewrite Z.log2_pow2.
Qed.

Lemma be_uint_range b : 0 <= Go.be_uint b < 256 ^ Go.len b.
Proof.
  unfold Go.be_uint, Go.len.
  assert (G : forall acc n, 0 <= acc < 256 ^ n -> 0 <= n ->
              0 <= fold_left (fun a x => a * 256 + Z.of_N (Strings.Byte.to_N x)) b acc
              < 256 ^ (n + Z.of_nat (List.length b))).
  { induction b as [|x b IH]; intros acc n Hacc Hn; simpl.
    - now rewrite Z.add_0_r.
    - replace (n + Z.pos (Pos.of_succ_nat (List.length b)))
        with ((n + 1) + Z.of_nat (List.length b)) by lia.
      apply IH; [|lia].
      pose proof (Strings.Byte.to_N_bounded x) as Hx.
      rewrite Z.pow_add_r, Z.pow_1_r by lia.
      assert (0 <= Z.of_N (Strings.Byte.to_N x) <= 255) by lia. nia. }
  specialize (G 0 0). simpl in G. apply G; lia.
Qed.

Lemma binary_Read_ok f n w :
  fpos w = 0 -> 0 < n <= Go.len f ->
  binary_Read f n w
  = (Ret (firstn (Z.to_nat n) f),
     mkWorld (heap w) n (trace w ++ [EvRead n])).
Proof.
  intros Hpos Hn. unfold binary_Read. rewrite Hpos. simpl.
  replace (Go.len f =? 0) with false by (symmetry; apply Z.eqb_neq; lia).
  replace (Go.len f <? n) with false by (symmetry; apply Z.ltb_ge; lia).
  reflexivity.
Qed.

Lemma f_ReadAt_ok f buf off w :
  0 <= off -> off + Go.len (buffer w buf) <= Go.len f ->
  f_ReadAt f buf off w
  = (Ret tt,
     mkWorld (update (heap w) buf
                (firstn (List.length (buffer w buf)) (skipn (Z.to_nat off) f)))
       (fpos w) (trace w ++ [EvReadAt off (Go.len (buffer w buf))])).
Proof.
  intros Hoff Hlen.
  unfold f_ReadAt, bind, load, log, store, fail, ret, set_heap. simpl.
  replace (off <? 0) with false by (symmetry; apply Z.ltb_ge; lia).
  set (b := buffer w buf) in *.
  set (got := firstn (List.length b) (skipn (Z.to_nat off) f)).
  assert (Hgot : List.length got = List.length b).
  { unfold got. rewrite length_firstn, length_skipn. unfold Go.len in Hlen. lia. }
  replace (Go.len got <? Go.len b) with false
    by (symmetry; apply Z.ltb_ge; unfold Go.len; lia).
  rewrite Hgot, skipn_all, app_nil_r. reflexivity.
Qed.

(** The bytes after [n] steps of a loop that zeroes one byte per step,
    from index [i] on. *)
Fixpoint clear_from (b : list byte) (i n : nat) : list byte :=
  match n with
  | O => b
  | S n' => clear_from (update b i x00) (S i) n'
  end.

Lemma update_firstn_skipn {A : Type} (b : list A) i x :
  (i < List.length b)%nat -> update b i x = firstn i b ++ x :: skipn (S i) b.
Proof.
  revert i. induction b as [|y b IH]; intros [|i]; simpl; intros H;
    try lia; [reflexivity|]. rewrite IH by lia. reflexivity.
Qed.

Lemma firstn_update_S {A : Type} (b : list A) i x :
  (i < List.length b)%nat -> firstn (S i) (update b i x) = firstn i b ++ [x].
Proof.
  revert i. induction b as [|y b IH]; intros [|i]; simpl; intros H;
    try lia; [reflexivity|]. f_equal. apply IH. lia.
Qed.

Lemma skipn_update {A : Type} (b : list A) i k x :
  (i < k)%nat -> skipn k (update b i x) = skipn k b.
Proof.
  revert i k. induction b as [|y b IH]; intros [|i] [|k]; simpl; intros H;
    try lia; try reflexivity. apply IH. lia.
Qed.

Lemma clear_from_zero_range n : forall b i,
  (i + n <= List.length b)%nat -> clear_from b i n = zero_range b i n.
Proof.
  unfold zero_range. induction n as [|n IH]; intros b i H; simpl.
  - rewrite Nat.add_0_r. symmetry. apply firstn_skipn.
  - rewrite IH by (rewrite update_length; lia).
    rewrite firstn_update_S by lia.
    rewrite skipn_update by lia.
    rewrite <- app_assoc. simpl.
    replace (i + S n)%nat with (S (i + n)) by lia. reflexivity.
Qed.

Lemma clear_loop_ok s off n : forall i w,
  (s < List.length (heap w))%nat ->
  0 <= off + i ->
  (Z.to_nat (off + i) + n <= List.length (buffer w s))%nat ->
  for_loop i n (fun j => set_index s (off + j) x00) w
  = (Ret tt,
     set_heap (update (heap w) s (clear_from (buffer w s) (Z.to_nat (off + i)) n)) w).
Proof.
  induction n as [|n IH]; intros i w Hs Hi Hlen; simpl.
  - unfold ret, set_heap, buffer. rewrite update_same. now destruct w.
  - unfold bind at 1. unfold set_index at 1. unfold bind at 1, load at 1.
    replace ((off + i <? 0) || (Go.len (buffer w s) <=? off + i)) with false.
    2:{ symmetry. apply orb_false_iff. split; [apply Z.ltb_ge; lia|].
        apply Z.leb_gt. unfold Go.len. lia. }
    unfold store at 1.
    rewrite IH.
    + unfold set_heap, buffer. simpl. rewrite nth_update by assumption.
      rewrite update_update.
      replace (Z.to_nat (off + (i + 1))) with (S (Z.to_nat (off + i))) by lia.
      reflexivity.
    + simpl. now rewrite update_length.
    + lia.
    + unfold buffer. simpl. rewrite nth_update by assumption.
      rewrite update_length. fold (buffer w s). lia.
Qed.

Section Open.

Context {L : Library}.

Variable f : file.
Variable w : world.

Let hdr := decode_headerV2 (firstn 512 f).
Let hdrSize := HeaderSize hdr.
Let algo := fixedArrayToString (ChecksumAlgorithm hdr).

Hypothesis header_readable : 512 <= Go.len f.

Lemma hdrSize_uint64 : Go.to_uint64 hdrSize = hdrSize.
Proof.
  unfold Go.to_uint64, hdrSize, hdr, decode_headerV2. cbn [HeaderSize].
  apply Z.mod_small.
  pose proof (be_uint_range (Go.slice_of (firstn 512 f) 8 16)) as H.
  assert (H8 : Go.len (Go.slice_of (firstn 512 f) 8 16) <= 8).
  { unfold Go.len, Go.slice_of. rewrite length_firstn. lia. }
  assert (Hp : 256 ^ Go.len (Go.slice_of (firstn 512 f) 8 16) <= 256 ^ 8)
    by (apply Z.pow_le_mono_r; [lia|assumption]).
  change (256 ^ 8) with (2 ^ 64) in Hp. lia.
Qed.

(** The start of [luks2OpenDevice]: seek, header read, size check. *)
Lemma open_start :
  luks2OpenDevice f w =
    let w1 := mkWorld (heap w) 512 (trace w ++ [EvSeek 0; EvRead 512]) in
    if negb (isPowerOfTwo hdrSize) || (hdrSize <? 16384) || (hdrSize >? 4194304)
    then (Err (Errorf "Invalid size of LUKS header: %v" [VInt hdrSize]), w1)
    else
      (data <- make_bytes hdrSize ;;
       f_ReadAt f data 0 ;;;
       for_loop 0 64 (fun i => set_index data (Offsetof_Checksum + i) x00) ;;;
       if (algo =? "sha256")%string then
         content <- load data ;;
         log (EvHash content) ;;;
         let checksum := sha256_Sum content in
         let expectedChecksum := Go.slice_of (Checksum hdr) 0 sha256_Size in
         if negb (Go.bytes_Equal checksum expectedChecksum)
         then fail (Errorf "Invalid header checksum" [])
         else
           let jsonData := skipn 4096 content in
           let nul := Go.bytes_IndexByte jsonData x00 in
           if nul <? 0 then panic "slice bounds out of range [:-1]"
           else
             let jsonData := firstn (Z.to_nat nul) jsonData in
             log (EvUnmarshal jsonData) ;;;
             match json_Unmarshal jsonData with
             | None => fail (LibErr json_UnmarshalError)
             | Some meta => ret (mkDevice hdr meta)
             end
       else fail (Errorf "Unknown header checksum algorithm: %v" [VStr algo])) w1.
Proof.
  unfold luks2OpenDevice. unfold bind at 1, f_Seek at 1.
  unfold bind at 1.
  rewrite binary_Read_ok by (simpl; unfold headerV2_size; lia || reflexivity).
  cbv zeta. unfold headerV2_size.
  change (Z.to_nat 512) with 512%nat.
  fold hdr. fold hdrSize. fold algo. rewrite hdrSize_uint64.
  cbn [trace heap fpos].
  rewrite <- app_assoc. simpl app.
  destruct (negb (isPowerOfTwo hdrSize) || (hdrSize <? 16384) || (hdrSize >? 4194304));
    reflexivity.
Qed.

Hypothesis size_valid : valid_header_size hdrSize.
Hypothesis region_readable : hdrSize <= Go.len f.

Lemma size_check_passes :
  negb (isPowerOfTwo hdrSize) || (hdrSize <? 16384) || (hdrSize >? 4194304)
  = false.
Proof.
  destruct size_valid as (Hpow & Hlo & Hhi).
  apply isPowerOfTwo_spec in Hpow. rewrite Hpow. simpl.
  apply orb_false_iff. split; [apply Z.ltb_ge; lia|].
  rewrite Z.gtb_ltb. apply Z.ltb_ge. lia.
Qed.

(** The world in which the checksum is computed: the header region,
    with its checksum field zeroed, is in a new buffer. *)
Lemma open_region :
  (data <- make_bytes hdrSize ;;
   f_ReadAt f data 0 ;;;
   for_loop 0 64 (fun i => set_index data (Offsetof_Checksum + i) x00) ;;;
   ret data)
    (mkWorld (heap w) 512 (trace w ++ [EvSeek 0; EvRead 512]))
  = (Ret (List.length (heap w)),
     mkWorld (heap w ++ [hashed_region f hdrSize]) 512
       (trace w ++ [EvSeek 0; EvRead 512; EvReadAt 0 hdrSize])).
Proof.
  destruct size_valid as (_ & Hlo & Hhi).
  set (w1 := mkWorld (heap w) 512 (trace w ++ [EvSeek 0; EvRead 512])).
  set (zeros := repeat x00 (Z.to_nat hdrSize)).
  set (kd := List.length (heap w)).
  assert (Hmake : make_bytes hdrSize w1
                  = (Ret kd, mkWorld (heap w ++ [zeros]) 512 (trace w1))).
  { unfold make_bytes, maxAlloc.
    replace ((hdrSize <? 0) || (2 ^ 48 <? hdrSize)) with false.
    - reflexivity.
    - symmetry. apply orb_false_iff. split; apply Z.ltb_ge; lia. }
  unfold bind at 1. rewrite Hmake.
  set (w2 := mkWorld (heap w ++ [zeros]) 512 (trace w1)).
  assert (Hb2 : buffer w2 kd = zeros) by (unfold buffer; apply nth_middle).
  assert (Hz : List.length zeros = Z.to_nat hdrSize) by apply repeat_length.
  set (region := firstn (Z.to_nat hdrSize) f).
  assert (Hregion : List.length region = Z.to_nat hdrSize).
  { unfold region. rewrite length_firstn. unfold Go.len in region_readable. lia. }
  assert (Hread : f_ReadAt f kd 0 w2
                  = (Ret tt, mkWorld (heap w ++ [region]) 512
                               (trace w1 ++ [EvReadAt 0 hdrSize]))).
  { rewrite f_ReadAt_ok.
    - rewrite Hb2. unfold Go.len. rewrite Hz. simpl skipn.
      rewrite Z2Nat.id by lia. f_equal. f_equal.
      unfold w2, kd. simpl.
      rewrite <- (Nat.add_0_r (List.length (heap w))).
      now rewrite update_app_r.
    - lia.
    - rewrite Hb2. pose proof region_readable as Hrr.
      unfold Go.len in *. rewrite Hz. lia. }
  unfold bind at 1. rewrite Hread.
  set (w3 := mkWorld (heap w ++ [region]) 512 (trace w1 ++ [EvReadAt 0 hdrSize])).
  assert (Hb3 : buffer w3 kd = region) by (unfold buffer; apply nth_middle).
  unfold bind at 1.
  rewrite (clear_loop_ok kd Offsetof_Checksum 64 0 w3).
  - unfold ret, set_heap. rewrite Hb3. f_equal.
    unfold w3, w1. cbn [heap fpos trace]. f_equal.
    + unfold kd. rewrite <- (Nat.add_0_r (List.length (heap w))).
      rewrite update_app_r. cbn [update]. f_equal. f_equal.
      unfold hashed_region. fold region.
      rewrite Z.add_0_r.
      apply clear_from_zero_range.
      rewrite Hregion. unfold Offsetof_Checksum. lia.
    + rewrite <- app_assoc. reflexivity.
  - unfold w3, kd. simpl. rewrite length_app. simpl. lia.
  - unfold Offsetof_Checksum. lia.
  - rewrite Hb3, Hregion. unfold Offsetof_Checksum. lia.
Qed.

(** [luks2OpenDevice] on a file that holds a header of valid size. *)
Lemma open_valid :
  luks2OpenDevice f w =
    let region := hashed_region f hdrSize in
    let h := heap w ++ [region] in
    let tr := trace w ++ [EvSeek 0; EvRead 512; EvReadAt 0 hdrSize] in
    if (algo =? "sha256")%string then
      let tr' := tr ++ [EvHash region] in
      if negb (Go.bytes_Equal (sha256_Sum region)
                 (Go.slice_of (Checksum hdr) 0 sha256_Size))
      then (Err (Errorf "Invalid header checksum" []), mkWorld h 512 tr')
      else
        let jsonData := skipn 4096 region in
        let nul := Go.bytes_IndexByte jsonData x00 in
        if nul <? 0
        then (Panic "slice bounds out of range [:-1]", mkWorld h 512 tr')
        else
          let js := firstn (Z.to_nat nul) jsonData in
          let tr'' := tr' ++ [EvUnmarshal js] in
          match json_Unmarshal js with
          | None => (Err (LibErr json_UnmarshalError), mkWorld h 512 tr'')
          | Some meta => (Ret (mkDevice hdr meta), mkWorld h 512 tr'')
          end
    else (Err (Errorf "Unknown header checksum algorithm: %v" [VStr algo]),
          mkWorld h 512 tr).
Proof.
  rewrite open_start. cbv zeta. rewrite size_check_passes.
  pose proof open_region as Hreg.
  unfold bind in Hreg |- *.
  destruct (make_bytes hdrSize _) as [[data|e|p] w1]; try discriminate.
  destruct (f_ReadAt f data 0 w1) as [[[]|e|p] w2]; try discriminate.
  destruct (for_loop 0 64 _ w2) as [[[]|e|p] w3]; try discriminate.
  unfold ret in Hreg. inversion Hreg; subst data w3. clear Hreg.
  destruct (algo =? "sha256")%string; [|reflexivity].
  unfold load, log. cbn [heap fpos trace].
  replace (buffer _ (List.length (heap w))) with (hashed_region f hdrSize)
    by (unfold buffer; cbn [heap]; now rewrite nth_middle).
  destruct (negb _); [reflexivity|].
  destruct (_ <? 0); [reflexivity|].
  cbn [heap fpos trace].
  destruct (json_Unmarshal _); reflexivity.
Qed.

End Open.

Lemma IndexByte_ge b c : - 1 <= Go.bytes_IndexByte b c.
Proof.
  induction b as [|x b IH]; simpl; [lia|].
  destruct (Go.byte_eqb x c); [lia|].
  destruct (Go.bytes_IndexByte b c <? 0) eqn:E; [lia|].
  apply Z.ltb_ge in E. lia.
Qed.

Lemma IndexByte_absent b c :
  (Go.bytes_IndexByte b c <? 0) = true <-> (forall x, In x b -> x <> c).
Proof.
  induction b as [|x b IH]; simpl.
  - split; [intros _ y []|reflexivity].
  - destruct (Go.byte_eqb x c) eqn:E.
    + apply byte_eqb_eq in E. split; [discriminate|].
      intros H. exfalso. apply (H x); auto.
    + assert (Hx : x <> c) by (intros Hx; apply byte_eqb_eq in Hx; congruence).
      destruct (Go.bytes_IndexByte b c <? 0) eqn:E2.
      * split; [|reflexivity]. intros _ y [<-|Hy]; [assumption|].
        now apply (proj1 IH).
      * split.
        -- intros H. apply Z.ltb_lt in H. apply Z.ltb_ge in E2. lia.
        -- intros H. assert (Hf : false = true) by (apply (proj2 IH); auto).
           discriminate.
Qed.

Lemma zero_range_length b lo n :
  (lo + n <= List.length b)%nat ->
  List.length (zero_range b lo n) = List.length b.
Proof.
  intros H. unfold zero_range.
  rewrite !length_app, length_firstn, repeat_length, length_skipn. lia.
Qed.

Lemma skipn_zero_range b lo n k :
  (lo + n <= k)%nat -> (lo + n <= List.length b)%nat ->
  skipn k (zero_range b lo n) = skipn k b.
Proof.
  intros Hk Hb. unfold zero_range.
  rewrite skipn_app, (skipn_all2 (firstn lo b)) by (rewrite length_firstn; lia).
  rewrite length_firstn. simpl.
  rewrite skipn_app, (skipn_all2 (repeat x00 n)) by (rewrite repeat_length; lia).
  rewrite repeat_length. simpl. rewrite skipn_skipn. f_equal. lia.
Qed.

Section OpenClaims.

Context {L : Library}.

(** C6. When the header can be read and its size field is not a power
    of two in [16384, 4194304], [luks2OpenDevice] returns the
    invalid-size error; all it has done by then is the seek and the
    read of the 512-byte header: nothing is hashed, no JSON is
    decoded, no buffer is made. *)
Theorem luks2OpenDevice_header_size f w :
  512 <= Go.len f ->
  let hdrSize := HeaderSize (decode_headerV2 (firstn 512 f)) in
  ~ valid_header_size hdrSize ->
  luks2OpenDevice f w
  = (Err (Errorf "Invalid size of LUKS header: %v" [VInt hdrSize]),
     mkWorld (heap w) 512 (trace w ++ [EvSeek 0; EvRead 512])).
Proof.
  intros Hread hdrSize Hinvalid.
  rewrite (open_start f w Hread). cbv zeta. fold hdrSize.
  destruct (isPowerOfTwo hdrSize) eqn:Epow; [|reflexivity].
  destruct (Z.ltb_spec hdrSize 16384); [reflexivity|].
  destruct (Z.gtb_spec hdrSize 4194304); [reflexivity|].
  exfalso. apply Hinvalid. split; [now apply isPowerOfTwo_spec|lia].
Qed.

(** C7. When the file holds a header of valid size, [luks2OpenDevice]
    accepts no checksum algorithm but "sha256"; with it, it hashes the
    whole [headerSize]-byte region in which the checksum field is
    zeroed, once, and returns the invalid-checksum error exactly when
    that hash differs from the stored checksum (the first 32 bytes of
    the field). *)
Theorem luks2OpenDevice_checksum f w r w' :
  512 <= Go.len f ->
  let hdr := decode_headerV2 (firstn 512 f) in
  let hdrSize := HeaderSize hdr in
  let algo := fixedArrayToString (ChecksumAlgorithm hdr) in
  let region := hashed_region f hdrSize in
  valid_header_size hdrSize -> hdrSize <= Go.len f ->
  luks2OpenDevice f w = (r, w') ->
  Go.len region = hdrSize /\
  (algo <> "sha256" ->
     r = Err (Errorf "Unknown header checksum algorithm: %v" [VStr algo]) /\
     trace w' = trace w ++ [EvSeek 0; EvRead 512; EvReadAt 0 hdrSize]) /\
  (algo = "sha256" ->
     (exists evs,
        trace w' = trace w ++ [EvSeek 0; EvRead 512; EvReadAt 0 hdrSize;
                               EvHash region] ++ evs /\
        forall data, ~ In (EvHash data) evs) /\
     (r = Err (Errorf "Invalid header checksum" []) <->
      sha256_Sum region <> firstn 32 (Checksum hdr))).
Proof.
  intros Hread hdr hdrSize algo region Hvalid Hregion H.
  rewrite (open_valid f w Hread Hvalid Hregion) in H. cbv zeta in H.
  fold hdr in H. fold hdrSize in H. fold algo in H. fold region in H.
  split.
  { unfold region, hashed_region, Go.len.
    destruct Hvalid as (_ & Hlo & _). unfold Go.len in Hregion.
    rewrite zero_range_length; rewrite length_firstn;
      unfold Offsetof_Checksum; lia. }
  split.
  - intros Halgo. apply String.eqb_neq in Halgo. rewrite Halgo in H.
    inversion H. auto.
  - intros Halgo. apply String.eqb_eq in Halgo. rewrite Halgo in H.
    change (Go.slice_of (Checksum hdr) 0 sha256_Size)
      with (firstn 32 (Checksum hdr)) in H.
    destruct (Go.bytes_Equal (sha256_Sum region) (firstn 32 (Checksum hdr))) eqn:Ecmp;
      cbn [negb] in H.
    + apply bytes_Equal_eq in Ecmp.
      assert (Hr : r <> Err (Errorf "Invalid header checksum" [])).
      { destruct (_ <? 0); [inversion H; discriminate|].
        destruct (json_Unmarshal _); inversion H; discriminate. }
      split; [|split; intros; contradiction].
      destruct (_ <? 0).
      * inversion H; subst. exists []. rewrite <- app_assoc. simpl. auto.
      * destruct (json_Unmarshal _); inversion H; subst; eexists;
          (split; [rewrite <- !app_assoc; simpl; reflexivity|]);
          intros data [Hd|[]]; discriminate.
    + apply bytes_Equal_neq in Ecmp. inversion H; subst.
      split; [|split; auto].
      exists []. rewrite <- app_assoc. simpl. auto.
Qed.

(** C9. On a file that passes the size and checksum checks, when no
    byte of the metadata region (from offset 4096 to the header size)
    is NUL, [luks2OpenDevice] does not return: it panics on the slice
    bound [-1]. When the region has a NUL byte it does not panic. *)
Theorem luks2OpenDevice_unterminated f w r w' :
  512 <= Go.len f ->
  let hdr := decode_headerV2 (firstn 512 f) in
  let hdrSize := HeaderSize hdr in
  valid_header_size hdrSize -> hdrSize <= Go.len f ->
  fixedArrayToString (ChecksumAlgorithm hdr) = "sha256" ->
  sha256_Sum (hashed_region f hdrSize) = firstn 32 (Checksum hdr) ->
  luks2OpenDevice f w = (r, w') ->
  let metadata_region := skipn 4096 (firstn (Z.to_nat hdrSize) f) in
  ((forall x, In x metadata_region -> x <> x00) ->
   r = Panic "slice bounds out of range [:-1]") /\
  (In x00 metadata_region -> forall p, r <> Panic p).
Proof.
  intros Hread hdr hdrSize Hvalid Hregion Halgo Hsum H metadata_region.
  rewrite (open_valid f w Hread Hvalid Hregion) in H. cbv zeta in H.
  fold hdr in H. fold hdrSize in H.
  apply String.eqb_eq in Halgo. rewrite Halgo in H.
  change (Go.slice_of (Checksum hdr) 0 sha256_Size)
    with (firstn 32 (Checksum hdr)) in H.
  apply bytes_Equal_eq in Hsum. rewrite Hsum in H. cbn [negb] in H.
  assert (Hmeta : skipn 4096 (hashed_region f hdrSize) = metadata_region).
  { unfold hashed_region, metadata_region.
    destruct Hvalid as (_ & Hlo & _). unfold Go.len in Hregion.
    apply skipn_zero_range; [unfold Offsetof_Checksum; lia|].
    rewrite length_firstn. unfold Offsetof_Checksum. lia. }
  rewrite Hmeta in H.
  split.
  - intros Hnone.
    pose proof (proj2 (IndexByte_absent metadata_region x00) Hnone) as Hneg.
    rewrite Hneg in H. now inversion H.
  - intros Hin p Hp.
    destruct (Go.bytes_IndexByte metadata_region x00 <? 0) eqn:E.
    + pose proof (proj1 (IndexByte_absent metadata_region x00) E) as Habs.
      now apply (Habs x00).
    + destruct (json_Unmarshal _); inversion H; subst; discriminate.
Qed.

End OpenClaims.
(** * Further properties of the code *)

(** ** Memory left by [unlockKeyslot] *)

Section Memory.

Context {L : Library}.

Lemma clearSlice_heap_at h pre b post w :
  heap w = h ++ pre ++ b :: post ->
  heap (clearSlice (List.length h + List.length pre)%nat w)
  = h ++ pre ++ repeat x00 (List.length b) :: post.
Proof.
  intros H. rewrite <- length_app, app_assoc.
  apply clearSlice_heap. now rewrite <- app_assoc.
Qed.

Lemma clearSlice_fpos s w : fpos (clearSlice s w) = fpos w.
Proof. reflexivity. Qed.

(** The buffers that a run of [unlockKeyslot] leaves behind, by how far
    the run went. *)
Lemma unlockKeyslot_heap d f idx pass w r w' :
  unlockKeyslot d f idx pass w = (r, w') ->
  fpos w' = fpos w /\
  (heap w' = heap w \/
   (exists n1, heap w' = heap w ++ [repeat x00 n1]) \/
   (exists n1 n2, heap w' = heap w ++ [repeat x00 n1; repeat x00 n2]) \/
   (exists n1 n2 key,
      heap w' = heap w ++ [repeat x00 n1; repeat x00 n2; key]) \/
   (exists n1 n2 key n3,
      heap w' = heap w ++ [repeat x00 n1; repeat x00 n2; key; repeat x00 n3])).
Proof.
  unfold unlockKeyslot. intros H.
  unfold bind at 1, log at 1 in H. cbv beta iota zeta in H.
  destruct ((idx <? 0) || (idx >=? Go.len (Keyslots (meta d)))).
  { inversion H; subst. simpl. auto. }
  set (wl := mkWorld (heap w) (fpos w) (trace w ++ [EvUnlockKeyslot idx])) in *.
  bind_inv H.
  2:{ apply deriveLuks2AfKey_spec in H as (_ & _ & -> & _). simpl. auto. }
  2:{ apply deriveLuks2AfKey_spec in H as (_ & _ & ->). simpl. auto. }
  apply deriveLuks2AfKey_spec in H0 as (Hf0 & _ & -> & key0 & Hh0).
  simpl in Hh0, Hf0.
  apply defer_inv in H as (wd & H & ->). rewrite clearSlice_fpos.
  assert (Hclear1 : forall wx rest,
             heap wx = heap w ++ key0 :: rest ->
             heap (clearSlice (List.length (heap wl)) wx)
             = heap w ++ repeat x00 (List.length key0) :: rest).
  { intros wx rest Hx. apply clearSlice_heap. exact Hx. }
  bind_inv H.
  2,3: apply decryptLuks2VolumeKey_spec in H as (Hf1 & _ & [Hh|(n & Hh)]);
       (split; [congruence|]); rewrite Hh0 in Hh;
       [ right; left; eexists; apply Hclear1; exact Hh
       | right; right; left; do 2 eexists; apply Hclear1;
         rewrite Hh, <- app_assoc; reflexivity ].
  apply decryptLuks2VolumeKey_spec in H0
    as (Hf1 & _ & -> & n & striped & merged & Hh1 & _).
  rewrite Hh0, <- app_assoc in Hh1. simpl in Hh1.
  assert (Hkey : forall wx, heap wx = heap w1 -> fpos wx = fpos w1 ->
             fpos wx = fpos w /\
             (heap (clearSlice (List.length (heap wl)) wx) = heap w \/
              (exists n1, heap (clearSlice (List.length (heap wl)) wx)
                          = heap w ++ [repeat x00 n1]) \/
              (exists n1 n2, heap (clearSlice (List.length (heap wl)) wx)
                             = heap w ++ [repeat x00 n1; repeat x00 n2]) \/
              (exists n1 n2 key,
                 heap (clearSlice (List.length (heap wl)) wx)
                 = heap w ++ [repeat x00 n1; repeat x00 n2; key]) \/
              (exists n1 n2 key n3,
                 heap (clearSlice (List.length (heap wl)) wx)
                 = heap w ++ [repeat x00 n1; repeat x00 n2; key; repeat x00 n3]))).
  { intros wx Hx Hfx. split; [congruence|].
    right; right; right; left. do 3 eexists. apply Hclear1.
    rewrite Hx, Hh1. reflexivity. }
  destruct (findDigestForKeyslot d idx) as [[digIdx digInfo]|].
  2:{ inversion H; subst. now apply Hkey. }
  bind_inv H.
  2:{ apply computeDigestForKey_spec in H as (_ & _ & -> & _). now apply Hkey. }
  2:{ apply computeDigestForKey_spec in H as (_ & _ & ->). now apply Hkey. }
  apply computeDigestForKey_spec in H0 as (Hf2 & _ & -> & dg & Hh2).
  rewrite Hh1, <- app_assoc in Hh2. simpl in Hh2.
  apply defer_inv in H as (wg & H & ->).
  assert (Hgd : List.length (heap w1)
                = (List.length (heap w)
                   + List.length [key0; repeat x00 n; merged])%nat).
  { rewrite Hh1, length_app. reflexivity. }
  assert (Hall : forall wx dgx, heap wx = heap w ++ [key0; repeat x00 n; merged; dgx] ->
             heap (clearSlice (List.length (heap wl))
                     (clearSlice (List.length (heap w1)) wx))
             = heap w ++ [repeat x00 (List.length key0); repeat x00 n; merged;
                          repeat x00 (List.length dgx)]).
  { intros wx dgx Hx. apply Hclear1. rewrite Hgd.
    apply (clearSlice_heap_at (heap w) [key0; repeat x00 n; merged] dgx [] wx).
    exact Hx. }
  assert (Hdone : forall wx dgx, heap wx = heap w ++ [key0; repeat x00 n; merged; dgx] ->
             fpos wx = fpos w2 ->
             fpos wx = fpos w /\
             (heap (clearSlice (List.length (heap wl))
                      (clearSlice (List.length (heap w1)) wx)) = heap w \/
              (exists n1, heap (clearSlice (List.length (heap wl))
                                  (clearSlice (List.length (heap w1)) wx))
                          = heap w ++ [repeat x00 n1]) \/
              (exists n1 n2, heap (clearSlice (List.length (heap wl))
                                     (clearSlice (List.length (heap w1)) wx))
                             = heap w ++ [repeat x00 n1; repeat x00 n2]) \/
              (exists n1 n2 key,
                 heap (clearSlice (List.length (heap wl))
                         (clearSlice (List.length (heap w1)) wx))
                 = heap w ++ [repeat x00 n1; repeat x00 n2; key]) \/
              (exists n1 n2 key n3,
                 heap (clearSlice (List.length (heap wl))
                         (clearSlice (List.length (heap w1)) wx))
                 = heap w ++ [repeat x00 n1; repeat x00 n2; key; repeat x00 n3]))).
  { intros wx dgx Hx Hfx. split; [congruence|].
    right; right; right; right. do 4 eexists. apply (Hall wx dgx Hx). }
  rewrite !clearSlice_fpos.
  destruct (base64_DecodeString (dig_Digest digInfo)) as [expected|].
  2:{ inversion H; subst. eapply Hdone; [exact Hh2 | reflexivity]. }
  unfold bind at 1, load at 1 in H.
  destruct (negb _).
  { inversion H; subst. eapply Hdone; [exact Hh2 | reflexivity]. }
  unfold bind at 1, modify in H.
  apply resolve_segment_spec in H as (-> & _).
  apply (Hdone _ (repeat x00 (List.length dg))); [|reflexivity].
  rewrite Hgd.
  apply (clearSlice_heap_at (heap w) [key0; repeat x00 n; merged] dg [] w2).
  exact Hh2.
Qed.

(** X2. Whatever its result, [unlockKeyslot] leaves the file position and
    every buffer that existed before the call as they were, makes at most
    four buffers, and leaves all of them zeroed except the third, the
    merged key. *)
Theorem unlockKeyslot_memory d f idx pass w r w' :
  unlockKeyslot d f idx pass w = (r, w') ->
  fpos w' = fpos w /\
  exists new,
    heap w' = heap w ++ new /\ (List.length new <= 4)%nat /\ zero_except 2 new.
Proof.
  intros H. apply unlockKeyslot_heap in H as (Hf & Hh). split; [exact Hf|].
  assert (Hz : forall n, all_zero (repeat x00 n)) by apply all_zero_repeat.
  destruct Hh as [Hh | [(n1 & Hh) | [(n1 & n2 & Hh) | [(n1 & n2 & key & Hh)
                 | (n1 & n2 & key & n3 & Hh)]]]].
  - exists []. rewrite app_nil_r. split; [exact Hh|]. split; [simpl; lia|].
    intros [|i] b Hb; discriminate.
  - eexists. split; [exact Hh|]. split; [simpl; lia|].
    intros [|[|i]] b Hb Hi; simpl in Hb; inversion Hb; subst; auto.
  - eexists. split; [exact Hh|]. split; [simpl; lia|].
    intros [|[|[|i]]] b Hb Hi; simpl in Hb; inversion Hb; subst; auto.
  - eexists. split; [exact Hh|]. split; [simpl; lia|].
    intros [|[|[|[|i]]]] b Hb Hi; simpl in Hb; inversion Hb; subst; auto;
      congruence.
  - eexists. split; [exact Hh|]. split; [simpl; lia|].
    intros [|[|[|[|[|i]]]]] b Hb Hi; simpl in Hb; inversion Hb; subst; auto;
      congruence.
Qed.

End Memory.

(** ** More on [unlockKeyslot] *)

Section UnlockMore.

Context {L : Library}.

(** X1. An index outside [0, len(keyslots)) is refused at once: the
    error names the index, no key is derived, the file is not read and
    no buffer is made. *)
Theorem unlockKeyslot_out_of_range d f idx pass w :
  idx < 0 \/ Go.len (Keyslots (meta d)) <= idx ->
  unlockKeyslot d f idx pass w
  = (Err (Errorf "keyslot %d is out of range of available slots" [VInt idx]),
     mkWorld (heap w) (fpos w) (trace w ++ [EvUnlockKeyslot idx])).
Proof.
  intros Hrange. unfold unlockKeyslot. unfold bind at 1, log at 1.
  cbv beta iota zeta.
  replace ((idx <? 0) || (idx >=? Go.len (Keyslots (meta d)))) with true;
    [reflexivity|].
  symmetry. apply orb_true_iff. rewrite Z.ltb_lt, Z.geb_leb, Z.leb_le. exact Hrange.
Qed.

(** X3. On success the volume's key is the third buffer that the call
    made; it holds the key that [afMerge] returned, and the three other
    buffers (AF key, decrypted area, computed digest) are zeroed. The
    digest id is the index of the digest that was found. *)
Theorem unlockKeyslot_success_key d f idx pass w info w' :
  unlockKeyslot d f idx pass w = (Ret info, w') ->
  exists n1 n2 n3 key striped digInfo,
    heap w' = heap w ++ [repeat x00 n1; repeat x00 n2; key; repeat x00 n3] /\
    vi_key info = (List.length (heap w) + 2)%nat /\
    buffer w' (vi_key info) = key /\
    (let keyslot := index zero_keyslot (Keyslots (meta d)) idx in
     afMerge striped (Go.to_int64 (ks_KeySize keyslot))
       (Go.to_int64 (af_Stripes (ks_Af keyslot))) = inr key) /\
    findDigestForKeyslot d idx = Some (vi_digestId info, digInfo).
Proof.
  intros H. apply unlockKeyslot_inv in H as [(_ & Hnr) | H];
    [now destruct (Hnr info)|].
  destruct H as (afKey & finalKey & gd & digIdx & digInfo & expected
                   & w1 & w2 & w3 & Hreach
                   & [(_ & Heq & _) | (_ & w4 & Hres & ->)]); [discriminate|].
  destruct Hreach as ((_ & Hd & Hdec) & Hfind & Hc & _).
  apply deriveLuks2AfKey_spec in Hd as (_ & _ & -> & key0 & Hh1).
  simpl in Hh1.
  apply decryptLuks2VolumeKey_spec in Hdec
    as (_ & _ & -> & n & striped & merged & Hh2 & Hm).
  apply computeDigestForKey_spec in Hc as (_ & _ & -> & dg & Hh3).
  rewrite Hh1, <- app_assoc in Hh2. simpl in Hh2.
  rewrite Hh2, <- app_assoc in Hh3. simpl in Hh3.
  apply resolve_segment_spec in Hres as Hw4. destruct Hw4 as (-> & _).
  apply resolve_segment_Ret in Hres
    as (_ & _ & _ & _ & _ & _ & _ & _ & _ & Hkey & Hid & _).
  cbv zeta in Hkey, Hid.
  assert (Hgd : List.length (heap w2)
                = (List.length (heap w)
                   + List.length [key0; repeat x00 n; merged])%nat).
  { rewrite Hh2, length_app. reflexivity. }
  assert (Hfinal :
            heap (clearSlice (List.length (heap w))
                    (clearSlice (List.length (heap w2))
                       (clearSlice (List.length (heap w2)) w3)))
            = heap w ++ [repeat x00 (List.length key0); repeat x00 n; merged;
                         repeat x00 (List.length (repeat x00 (List.length dg)))]).
  { apply clearSlice_heap. rewrite Hgd.
    apply (clearSlice_heap_at (heap w) [key0; repeat x00 n; merged]
             (repeat x00 (List.length dg)) []).
    apply (clearSlice_heap_at (heap w) [key0; repeat x00 n; merged] dg []).
    exact Hh3. }
  exists (List.length key0), n, (List.length (repeat x00 (List.length dg))),
         merged, striped, digInfo.
  split; [exact Hfinal|].
  assert (Hvk : vi_key info = (List.length (heap w) + 2)%nat).
  { rewrite Hkey, Hh1, length_app. simpl. lia. }
  split; [exact Hvk|].
  split.
  { rewrite Hvk.
    change (buffer (clearSlice (List.length (heap w))
                      (clearSlice (List.length (heap w2))
                         (clearSlice (List.length (heap w2)) w3)))
              (List.length (heap w) + 2)%nat = merged).
    unfold buffer. rewrite Hfinal, app_nth2 by lia.
    replace (List.length (heap w) + 2 - List.length (heap w))%nat with 2%nat by lia.
    reflexivity. }
  split; [exact Hm|]. rewrite Hid. exact Hfind.
Qed.

End UnlockMore.

(** ** The digest search *)

Section DigestSearch.

Context {L : Library}.

Lemma bound_to_true ks idx :
  bound_to ks idx = true <-> exists k, In k ks /\ Go.ParseInt k = Some idx.
Proof.
  induction ks as [|k ks IH]; simpl.
  - split; [discriminate | intros (k & [] & _)].
  - destruct (Go.ParseInt k) as [k'|] eqn:E.
    + destruct (Z.eqb_spec k' idx) as [->|Hne].
      * split; [|reflexivity]. intros _. exists k. auto.
      * rewrite IH. split.
        -- intros (k0 & Hin & Hp). exists k0. auto.
        -- intros (k0 & [<-|Hin] & Hp); [congruence|]. exists k0. auto.
    + rewrite IH. split.
      * intros (k0 & Hin & Hp). exists k0. auto.
      * intros (k0 & [<-|Hin] & Hp); [congruence|]. exists k0. auto.
Qed.

(** X9. [findDigestForKeyslot] returns the first digest, in the order
    the table is visited, that has a bound-keyslot entry which parses to
    the index; it returns the digest together with its own key in the
    table. *)
Theorem findDigestForKeyslot_first d idx i dig :
  findDigestForKeyslot d idx = Some (i, dig) <->
  exists before after,
    Digests (meta d) = before ++ (i, dig) :: after /\
    (exists k, In k (dig_Keyslots dig) /\ Go.ParseInt k = Some idx) /\
    (forall j dg k, In (j, dg) before -> In k (dig_Keyslots dg) ->
                    Go.ParseInt k <> Some idx).
Proof.
  unfold findDigestForKeyslot.
  induction (Digests (meta d)) as [|[j dg] digests IH]; simpl.
  - split; [discriminate|]. intros (before & after & Heq & _).
    destruct before; discriminate.
  - destruct (bound_to (dig_Keyslots dg) idx) eqn:Eb.
    + split.
      * intros H. inversion H; subst. exists [], digests.
        split; [reflexivity|]. split; [now apply bound_to_true|].
        intros ? ? ? [].
      * intros (before & after & Heq & Hbound & Hnone).
        destruct before as [|[j0 dg0] before].
        -- simpl in Heq. inversion Heq. reflexivity.
        -- simpl in Heq. inversion Heq; subst. exfalso.
           apply bound_to_true in Eb as (k & Hin & Hp).
           apply (Hnone j0 dg0 k); simpl; auto.
    + rewrite IH. split.
      * intros (before & after & Heq & Hbound & Hnone).
        exists ((j, dg) :: before), after. rewrite Heq.
        split; [reflexivity|]. split; [exact Hbound|].
        intros j0 dg0 k [Hj|Hj] Hk.
        -- inversion Hj; subst. intros Hp.
           assert (Ht : bound_to (dig_Keyslots dg0) idx = true)
             by (apply bound_to_true; eauto).
           congruence.
        -- eapply Hnone; eauto.
      * intros (before & after & Heq & Hbound & Hnone).
        destruct before as [|[j0 dg0] before].
        -- simpl in Heq. inversion Heq; subst. exfalso.
           apply bound_to_true in Hbound. congruence.
        -- simpl in Heq. inversion Heq; subst.
           exists before, after. split; [reflexivity|]. split; [exact Hbound|].
           intros j1 dg1 k Hin. apply (Hnone j1 dg1 k). simpl. auto.
Qed.

End DigestSearch.

(** ** The cipher of the keyslot area *)

Lemma strings_Split_no_sep s :
  no_hyphen s = true -> Go.strings_Split s "-"%char = [s].
Proof.
  induction s as [|c s IH]; simpl; [reflexivity|].
  intros H. apply andb_true_iff in H as [Hc Hs].
  apply negb_true_iff in Hc. rewrite Hc, (IH Hs). reflexivity.
Qed.

Lemma strings_Split_field a b :
  no_hyphen a = true ->
  Go.strings_Split (a ++ String "-"%char b) "-"%char
  = a :: Go.strings_Split b "-"%char.
Proof.
  induction a as [|c a IH]; simpl; [reflexivity|].
  intros H. apply andb_true_iff in H as [Hc Ha].
  apply negb_true_iff in Hc. rewrite Hc, (IH Ha). reflexivity.
Qed.

Section Cipher.

Context {L : Library}.

(** X11. [buildLuks2AfCipher] makes a cipher exactly from a
    specification of three fields whose first is "aes" and second is
    "xts", with a key that the library accepts; it never changes the
    world, and an error of it is never the wrong-passphrase sentinel. *)
Theorem buildLuks2AfCipher_iff enc afKey w r w' :
  buildLuks2AfCipher enc afKey w = (r, w') ->
  w' = w /\
  ((exists c, r = Ret c) <-> cipher_ok enc (buffer w afKey)) /\
  (Go.len (Go.strings_Split enc "-"%char) <> 3 ->
   r = Err (Errorf "Unexpected encryption format: %v" [VStr enc])).
Proof.
  intros H. split; [apply buildLuks2AfCipher_spec in H; tauto|].
  unfold buildLuks2AfCipher in H. cbv zeta in H.
  destruct (Z.eqb_spec (Go.len (Go.strings_Split enc "-"%char)) 3) as [Hlen|Hlen];
    cbn [negb] in H.
  2:{ inversion H; subst. split; [|reflexivity]. split.
      - intros (c & Hc). discriminate.
      - intros (iv & c & Hsplit & _). rewrite Hsplit in Hlen.
        now destruct Hlen. }
  split; [|intros Hne; contradiction].
  destruct (Go.strings_Split enc "-"%char) as [|a [|b [|iv [|x l]]]] eqn:Es;
    try (unfold Go.len in Hlen; simpl in Hlen; lia).
  cbn [nth] in H.
  destruct (String.eqb_spec a "aes") as [->|Ha].
  2:{ inversion H; subst. split.
      - intros (c & Hc). discriminate.
      - intros (iv' & c & Hsplit & _). inversion Hsplit. congruence. }
  destruct (String.eqb_spec b "xts") as [->|Hb].
  2:{ inversion H; subst. split.
      - intros (c & Hc). discriminate.
      - intros (iv' & c & Hsplit & _). inversion Hsplit. congruence. }
  unfold bind, load in H.
  destruct (xts_NewCipher (buffer w afKey)) as [c|] eqn:En;
    inversion H; subst.
  - split; [|eauto]. intros _. exists iv, c. auto.
  - split.
    + intros (c & Hc). discriminate.
    + intros (iv' & c & _ & Hc). congruence.
Qed.

(** X12. The third field of the specification, the IV mode, is not
    examined: "aes-xts-" followed by any text without a hyphen gives the
    cipher that the key gives. *)
Theorem buildLuks2AfCipher_ivmode ivmode afKey w :
  no_hyphen ivmode = true ->
  buildLuks2AfCipher ("aes-xts-" ++ ivmode) afKey w
  = match xts_NewCipher (buffer w afKey) with
    | Some c => (Ret c, w)
    | None => (Err (LibErr xts_KeySizeError), w)
    end.
Proof.
  intros Hiv. unfold buildLuks2AfCipher.
  change ("aes-xts-" ++ ivmode)%string
    with ("aes" ++ String "-"%char ("xts" ++ String "-"%char ivmode))%string.
  rewrite strings_Split_field by reflexivity.
  rewrite strings_Split_field by reflexivity.
  rewrite strings_Split_no_sep by exact Hiv.
  cbv zeta. simpl. unfold bind, load.
  destruct (xts_NewCipher (buffer w afKey)); reflexivity.
Qed.

End Cipher.

(** ** The candidate list does not depend on the table order *)

Lemma sorted_perm_eq l1 : forall l2,
  StronglySorted Z.le l1 -> StronglySorted Z.le l2 -> Permutation l1 l2 ->
  l1 = l2.
Proof.
  induction l1 as [|x l1 IH]; intros l2 H1 H2 Hp.
  - apply Permutation_nil in Hp. now subst.
  - destruct l2 as [|y l2].
    + apply Permutation_sym, Permutation_nil in Hp. discriminate.
    + inversion H1 as [|? ? H1' Hx]; subst.
      inversion H2 as [|? ? H2' Hy]; subst.
      assert (x = y).
      { assert (Hxin : In x (y :: l2))
          by (eapply Permutation_in; [exact Hp | now left]).
        assert (Hyin : In y (x :: l1))
          by (eapply Permutation_in; [apply Permutation_sym; exact Hp | now left]).
        destruct Hxin as [->|Hxin]; [reflexivity|].
        destruct Hyin as [->|Hyin]; [reflexivity|].
        rewrite Forall_forall in Hx, Hy.
        specialize (Hx y Hyin). specialize (Hy x Hxin). lia. }
      subst y. f_equal. apply IH; try assumption.
      eapply Permutation_cons_inv. exact Hp.
Qed.

Lemma sort_Ints_perm_eq l1 l2 :
  Permutation l1 l2 -> Go.sort_Ints l1 = Go.sort_Ints l2.
Proof.
  intros Hp. apply sorted_perm_eq; try apply sort_Ints_sorted.
  rewrite <- (sort_Ints_perm l1), <- (sort_Ints_perm l2). exact Hp.
Qed.

Lemma filter_perm {A : Type} (p : A -> bool) l1 l2 :
  Permutation l1 l2 -> Permutation (filter p l1) (filter p l2).
Proof.
  induction 1; simpl.
  - constructor.
  - destruct (p x); [now constructor | assumption].
  - destruct (p x), (p y); try reflexivity; try apply perm_swap.
  - etransitivity; eassumption.
Qed.

Section Order.

Context {L : Library}.

(** X7. The list of candidates that [unlockAnyKeyslot] tries depends on
    the keyslots only, not on the order in which [range] visits the
    table: two tables with the same entries give the same list. *)
Theorem activeKeyslots_order_independent d d' :
  Permutation (Keyslots (meta d)) (Keyslots (meta d')) ->
  activeKeyslots d = activeKeyslots d'.
Proof.
  intros Hp. rewrite !activeKeyslots_eq. unfold keys_with.
  f_equal; apply sort_Ints_perm_eq, Permutation_map, filter_perm; exact Hp.
Qed.

(** X8. The candidates are the keys of the keyslots of priority "2",
    empty or "1", each once when the keys of the table are distinct; so
    no keyslot is tried twice. *)
Theorem activeKeyslots_NoDup d :
  NoDup (map fst (Keyslots (meta d))) -> NoDup (activeKeyslots d).
Proof.
  intros Hnd. rewrite activeKeyslots_eq.
  assert (Hperm : Permutation
            (Go.sort_Ints (keys_with is_high d) ++ Go.sort_Ints (keys_with is_norm d))
            (keys_with is_high d ++ keys_with is_norm d)).
  { apply Permutation_app; apply Permutation_sym, sort_Ints_perm. }
  apply (Permutation_NoDup (Permutation_sym Hperm)). clear Hperm.
  unfold keys_with.
  induction (Keyslots (meta d)) as [|[k v] ks IH]; simpl; [constructor|].
  inversion Hnd as [|? ? Hnotin Hnd']; subst.
  specialize (IH Hnd').
  assert (Hk : forall p, ~ In k (map fst (filter (fun kv => p (snd kv)) ks))).
  { intros p Hin. apply Hnotin. apply in_map_iff in Hin as ([k' v'] & <- & Hin).
    apply filter_In in Hin as [Hin _]. apply in_map_iff. now exists (k', v'). }
  destruct (is_high v) eqn:Eh.
  - rewrite (is_high_not_norm v Eh). simpl. constructor; [|exact IH].
    intros Hin. apply in_app_or in Hin as [Hin|Hin]; eapply Hk; eauto.
  - destruct (is_norm v); simpl; [|exact IH].
    apply (Permutation_NoDup (l := k :: (map fst (filter (fun kv => is_high (snd kv)) ks)
                                      ++ map fst (filter (fun kv => is_norm (snd kv)) ks)))).
    + apply Permutation_middle.
    + constructor; [|exact IH].
      intros Hin. apply in_app_or in Hin as [Hin|Hin]; eapply Hk; eauto.
Qed.

End Order.

(** ** Key derivation and digest computation *)

Section Derivation.

Context {L : Library}.

(** X10. [deriveLuks2AfKey] returns an error exactly when the salt is not
    base64, or the type is "pbkdf2" with a hash other than "sha256", or
    the type is none of "pbkdf2", "argon2i", "argon2id"; the salt is
    examined first, the hash only for PBKDF2. An error or a panic leaves
    the world as it was; a key is a new buffer at the end of the heap. *)
Theorem deriveLuks2AfKey_outcome k idx pass n w r w' :
  deriveLuks2AfKey k idx pass n w = (r, w') ->
  ((exists e, r = Err e) <->
   (base64_DecodeString (kdf_Salt k) = None \/
    (kdf_Type k = "pbkdf2" /\ kdf_Hash k <> "sha256") \/
    (kdf_Type k <> "pbkdf2" /\ kdf_Type k <> "argon2i" /\
     kdf_Type k <> "argon2id"))) /\
  (base64_DecodeString (kdf_Salt k) = None ->
   r = Err (Errorf "keyslotIdx[%v].kdf.salt base64 parsing failed: %v"
              [VInt idx; VErr base64_CorruptInputError])) /\
  match r with
  | Ret key => key = List.length (heap w) /\ exists b, heap w' = heap w ++ [b]
  | _ => w' = w
  end.
Proof.
  intros H. pose proof (deriveLuks2AfKey_spec _ _ _ _ _ _ _ H) as (_ & _ & Hs).
  split; [|split].
  - unfold deriveLuks2AfKey in H.
    destruct (base64_DecodeString (kdf_Salt k)) as [salt|].
    2:{ inversion H; subst. split; eauto. }
    destruct (String.eqb_spec (kdf_Type k) "pbkdf2") as [Ht|Ht].
    { destruct (String.eqb_spec (kdf_Hash k) "sha256") as [Hh|Hh].
      - apply new_bytes_spec in H as (_ & _ & Hr). split.
        + intros (e & ->). contradiction.
        + intros [Hd|[(_ & Hn)|(Hn & _)]]; [discriminate|contradiction|contradiction].
      - inversion H; subst. split; eauto. }
    destruct (String.eqb_spec (kdf_Type k) "argon2i") as [Ht2|Ht2].
    { apply new_bytes_spec in H as (_ & _ & Hr). split.
      - intros (e & ->). contradiction.
      - intros [Hd|[(Hn & _)|(_ & Hn & _)]]; [discriminate|contradiction|contradiction]. }
    destruct (String.eqb_spec (kdf_Type k) "argon2id") as [Ht3|Ht3].
    { apply new_bytes_spec in H as (_ & _ & Hr). split.
      - intros (e & ->). contradiction.
      - intros [Hd|[(Hn & _)|(_ & _ & Hn)]]; [discriminate|contradiction|contradiction]. }
    inversion H; subst. split; eauto 6.
  - intros Hnone. unfold deriveLuks2AfKey in H. rewrite Hnone in H.
    now inversion H.
  - destruct r as [key|e|p].
    + destruct Hs as (-> & b & Hb). eauto.
    + tauto.
    + exact Hs.
Qed.

(** A digest computed by [computeDigestForKey] is a new buffer that
    holds PBKDF2-SHA256 of the content of the key buffer with the decoded
    salt, the digest's iteration count and an output length of 32; the
    digest type must be "pbkdf2" and the hash "sha256". *)
Lemma computeDigestForKey_Ret dig idx finalKey w gd w' :
  computeDigestForKey dig idx finalKey w = (Ret gd, w') ->
  exists salt,
    base64_DecodeString (dig_Salt dig) = Some salt /\
    dig_Type dig = "pbkdf2" /\ dig_Hash dig = "sha256" /\
    gd = List.length (heap w) /\
    pbkdf2_Key (buffer w finalKey) salt (Go.to_int64 (dig_Iterations dig)) 32
    = Some (buffer w' gd) /\
    heap w' = heap w ++ [buffer w' gd].
Proof.
  unfold computeDigestForKey. intros H.
  destruct (base64_DecodeString (dig_Salt dig)) as [salt|]; [|discriminate].
  destruct (String.eqb_spec (dig_Type dig) "pbkdf2") as [Ht|Ht]; [|discriminate].
  destruct (String.eqb_spec (dig_Hash dig) "sha256") as [Hh|Hh]; [|discriminate].
  unfold bind, load in H.
  apply new_bytes_spec in H as (_ & _ & -> & b & Hb & Hh').
  exists salt.
  assert (Hbuf : buffer w' (List.length (heap w)) = b)
    by (unfold buffer; rewrite Hh'; apply nth_middle).
  rewrite Hbuf. repeat split; auto.
Qed.

End Derivation.

(** ** What is decrypted and merged *)

Lemma f_ReadAt_Ret f buf off w w' :
  f_ReadAt f buf off w = (Ret tt, w') ->
  0 <= off /\
  let data := firstn (List.length (buffer w buf)) (skipn (Z.to_nat off) f) in
  List.length data = List.length (buffer w buf) /\
  heap w' = update (heap w) buf data /\ fpos w' = fpos w.
Proof.
  unfold f_ReadAt, bind, load, log, store, fail, ret, set_heap. simpl.
  destruct (off <? 0) eqn:Eoff; [discriminate|].
  apply Z.ltb_ge in Eoff.
  set (b := buffer w buf).
  set (got := firstn (List.length b) (skipn (Z.to_nat off) f)).
  destruct (Go.len got <? Go.len b) eqn:Elen; [discriminate|].
  apply Z.ltb_ge in Elen. unfold Go.len in Elen.
  assert (Hgot : List.length got = List.length b).
  { assert (List.length got <= List.length b)%nat
      by (unfold got; rewrite length_firstn; lia). lia. }
  intros H. inversion H; subst; clear H. simpl.
  rewrite Hgot, skipn_all, app_nil_r. auto.
Qed.

Section Functional.

Context {L : Library}.

Lemma buildLuks2AfCipher_Ret enc afKey w c w' :
  buildLuks2AfCipher enc afKey w = (Ret c, w') ->
  w' = w /\ xts_NewCipher (buffer w afKey) = Some c.
Proof.
  unfold buildLuks2AfCipher. cbv zeta. intros H.
  destruct (negb _); [discriminate|].
  destruct (_ =? _)%string; [|discriminate].
  destruct (_ =? _)%string; [|discriminate].
  unfold bind, load in H.
  destruct (xts_NewCipher (buffer w afKey)); inversion H; subst. auto.
Qed.

(** The decryption loop, by its effect on the buffer: the sectors before
    [i] are done, those from [i] on are decrypted one after the other. *)
Lemma decrypt_loop_content c s n : forall i w r w' done todo,
  for_loop i n (decrypt_sector c s) w = (r, w') ->
  0 <= i -> i + Z.of_nat n <= 2 ^ 64 ->
  (s < List.length (heap w))%nat ->
  buffer w s = done ++ todo ->
  Go.len done = i * 512 -> Go.len todo = Z.of_nat n * 512 ->
  r = Ret tt /\ fpos w' = fpos w /\
  heap w' = update (heap w) s (done ++ decrypt_all c todo i n).
Proof.
  induction n as [|n IH]; intros i w r w' done todo H Hi Hmax Hs Hbuf Hdone Htodo.
  - simpl in *. inversion H; subst.
    assert (todo = []) by (destruct todo; [reflexivity|unfold Go.len in Htodo; simpl in Htodo; lia]).
    subst todo. rewrite <- Hbuf. unfold buffer. rewrite update_same. auto.
  - simpl in H. bind_inv H.
    + unfold decrypt_sector, bind, load, log, store, panic in H0.
      unfold storageSectorSize in H0.
      assert (Hlen : Go.len (buffer w s) = (i + 1) * 512 + Z.of_nat n * 512).
      { rewrite Hbuf. unfold Go.len in *. rewrite length_app. lia. }
      destruct (Go.len (buffer w s) <? (i + 1) * 512) eqn:E;
        [apply Z.ltb_lt in E; lia|].
      inversion H0; subst a w0; clear H0.
      assert (Hf : firstn (Z.to_nat (i * 512)) (buffer w s) = done).
      { rewrite Hbuf. unfold Go.len in Hdone.
        replace (Z.to_nat (i * 512)) with (List.length done + 0)%nat by lia.
        rewrite firstn_app_2. simpl. apply app_nil_r. }
      assert (Hmid : Go.slice_of (buffer w s) (i * 512) ((i + 1) * 512)
                     = firstn 512 todo).
      { unfold Go.slice_of. rewrite Hbuf. unfold Go.len in Hdone.
        replace (Z.to_nat ((i + 1) * 512 - i * 512)) with 512%nat by lia.
        replace (Z.to_nat (i * 512)) with (List.length done) by lia.
        rewrite skipn_app, skipn_all, Nat.sub_diag.
        rewrite skipn_0. reflexivity. }
      assert (Hsk : skipn (Z.to_nat ((i + 1) * 512)) (buffer w s) = skipn 512 todo).
      { rewrite Hbuf. unfold Go.len in Hdone.
        replace (Z.to_nat ((i + 1) * 512)) with (List.length done + 512)%nat by lia.
        rewrite skipn_app, skipn_all2 by lia.
        replace (List.length done + 512 - List.length done)%nat with 512%nat by lia.
        reflexivity. }
      rewrite Hf, Hmid, Hsk in H.
      assert (Hu : Go.to_uint64 i = i)
        by (unfold Go.to_uint64; apply Z.mod_small; lia).
      rewrite Hu in H.
      assert (Hl512 : List.length (firstn 512 todo) = 512%nat).
      { rewrite length_firstn. unfold Go.len in Htodo. lia. }
      eapply (IH (i + 1) _ r w'
                (done ++ xts_Decrypt c (firstn 512 todo) i) (skipn 512 todo))
        in H.
      * destruct H as (-> & Hfp & Hh). split; [reflexivity|].
        split; [exact Hfp|]. rewrite Hh. simpl.
        rewrite update_update, <- app_assoc. reflexivity.
      * lia.
      * lia.
      * simpl. now rewrite update_length.
      * unfold buffer. simpl. rewrite nth_update by assumption.
        now rewrite <- app_assoc.
      * unfold Go.len in *. rewrite length_app, xts_Decrypt_length, Hl512. lia.
      * unfold Go.len in *. rewrite length_skipn. lia.
    + exfalso. apply decrypt_sector_spec in H as (Hr & _);
        [discriminate|lia|].
      rewrite Hbuf. unfold Go.len, storageSectorSize in *.
      rewrite length_app. lia.
    + exfalso. apply decrypt_sector_spec in H as (Hr & _);
        [discriminate|lia|].
      rewrite Hbuf. unfold Go.len, storageSectorSize in *.
      rewrite length_app. lia.
Qed.

(** X13. When [decryptLuks2VolumeKey] succeeds, the key it returns is what
    [afMerge] makes of the key area read from the file at [area.offset]
    ([keyslotSize] bytes) and decrypted sector by sector, each 512-byte
    sector on its own with its zero-based index as tweak, under the
    cipher built from the AF key; the stripe count is 4000 and the AF
    hash "sha256". *)
Theorem decryptLuks2VolumeKey_functional f idx ks afKey w key w' :
  (afKey < List.length (heap w))%nat ->
  decryptLuks2VolumeKey f idx ks afKey w = (Ret key, w') ->
  let a := ks_Area ks in
  let keyslotSize := Go.to_uint64 (area_KeySize a * stripesNum) in
  exists off c,
    Go.ParseInt (area_Offset a) = Some off /\ 0 <= off /\
    xts_NewCipher (buffer w afKey) = Some c /\
    af_Stripes (ks_Af ks) = stripesNum /\ af_Hash (ks_Af ks) = "sha256" /\
    let data := firstn (Z.to_nat keyslotSize) (skipn (Z.to_nat off) f) in
    Go.len data = keyslotSize /\
    afMerge (decrypt_all c data 0 (Z.to_nat (keyslotSize / 512)))
      (Go.to_int64 (ks_KeySize ks)) (Go.to_int64 (af_Stripes (ks_Af ks)))
    = inr (buffer w' key).
Proof.
  intros Hafk H a ksz.
  unfold decryptLuks2VolumeKey in H. cbv zeta in H. fold a in H. fold ksz in H.
  assert (Hrange : 0 <= ksz < 2 ^ 64) by apply to_uint64_range.
  destruct (Go.ParseInt (area_Size a)) as [areaSize|]; [|discriminate].
  destruct (_ >? _); [discriminate|].
  destruct (Z.eqb_spec (ksz mod storageSectorSize) 0) as [Hmod|Hmod];
    [|discriminate].
  cbn [negb] in H.
  bind_inv H.
  apply make_bytes_spec in H0 as (Hf0 & _ & (-> & _ & Hh0)).
  apply defer_inv in H as (w2 & H & ->).
  set (kd := List.length (heap w)) in *.
  destruct (Go.ParseInt (area_Offset a)) as [off|]; [|discriminate].
  destruct (negb _); [discriminate|].
  bind_inv H.
  assert (Hb0 : buffer w0 kd = repeat x00 (Z.to_nat ksz))
    by (unfold kd; apply (buffer_fresh w w0 _ Hh0)).
  destruct a0.
  apply f_ReadAt_Ret in H0 as (Hoff & Hdata).
  rewrite Hb0, repeat_length in Hdata. cbv zeta in Hdata.
  destruct Hdata as (Hlen & Hh1 & _).
  set (data := firstn (Z.to_nat ksz) (skipn (Z.to_nat off) f)) in *.
  assert (Hh1' : heap w1 = heap w ++ [data]).
  { rewrite Hh1, Hh0. unfold kd.
    rewrite <- (Nat.add_0_r (List.length (heap w))). now rewrite update_app_r. }
  bind_inv H.
  apply buildLuks2AfCipher_Ret in H0 as (-> & Hc).
  assert (Hkey : buffer w1 afKey = buffer w afKey).
  { unfold buffer. rewrite Hh1'. now apply app_nth1. }
  rewrite Hkey in Hc.
  bind_inv H.
  assert (Hcount : Go.to_int64 (ksz / storageSectorSize) = ksz / 512)
    by (unfold ksz; apply sector_count_small).
  rewrite Hcount in H0.
  assert (Hdiv : ksz = ksz / 512 * 512).
  { unfold storageSectorSize in Hmod.
    pose proof (Z.div_mod ksz 512 ltac:(lia)). lia. }
  assert (Hq : 0 <= ksz / 512) by (apply Z.div_pos; lia).
  apply (decrypt_loop_content a0 kd _ 0 w1 _ _ [] data) in H0.
  2: lia.
  2:{ rewrite Z2Nat.id by lia. lia. }
  2:{ rewrite Hh1', length_app. unfold kd. simpl. lia. }
  2:{ unfold buffer, kd. rewrite Hh1'. apply nth_middle. }
  2: reflexivity.
  2:{ unfold Go.len. rewrite Hlen, !Z2Nat.id by lia. exact Hdiv. }
  destruct H0 as (_ & _ & Hh3). simpl in Hh3.
  assert (Hh3' : heap w3 = heap w ++ [decrypt_all a0 data 0 (Z.to_nat (ksz / 512))]).
  { rewrite Hh3, Hh1'. unfold kd.
    rewrite <- (Nat.add_0_r (List.length (heap w))). now rewrite update_app_r. }
  destruct (Z.eqb_spec (af_Stripes (ks_Af ks)) stripesNum) as [Hst|Hst];
    [|discriminate].
  cbn [negb] in H.
  destruct (String.eqb_spec (af_Hash (ks_Af ks)) "sha256") as [Hha|Hha];
    [|discriminate].
  unfold bind, load in H.
  assert (Hb3 : buffer w3 kd = decrypt_all a0 data 0 (Z.to_nat (ksz / 512)))
    by (unfold buffer, kd; rewrite Hh3'; apply nth_middle).
  rewrite Hb3 in H.
  destruct (afMerge _ _ _) as [[fmt args]|merged] eqn:Em; [discriminate|].
  apply alloc_spec in H as (Hk & Hh4 & _).
  inversion Hk; subst key. clear Hk.
  exists off, a0. split; [reflexivity|]. repeat (split; [assumption|]).
  cbv zeta. fold data.
  split; [unfold Go.len; rewrite Hlen; lia|].
  rewrite Em. f_equal.
  assert (Hfinal : heap (clearSlice kd w2)
                   = heap w ++ [repeat x00 (List.length (decrypt_all a0 data 0
                                              (Z.to_nat (ksz / 512)))); merged]).
  { unfold kd. apply clearSlice_heap. rewrite Hh4, Hh3', <- app_assoc. reflexivity. }
  unfold buffer. rewrite Hfinal, Hh3', length_app. simpl.
  rewrite app_nth2 by lia.
  replace (List.length (heap w) + 1 - List.length (heap w))%nat with 1%nat by lia.
  reflexivity.
Qed.

End Functional.

(** ** Which files [luks2OpenDevice] accepts *)

Lemma skipn_repeat_sub {A : Type} (x : A) n : forall m,
  skipn n (repeat x m) = repeat x (m - n).
Proof.
  induction n as [|n IH]; intros [|m]; simpl; auto.
Qed.

Section OpenMore.

Context {L : Library}.

Lemma open_short f w :
  Go.len f < 512 ->
  luks2OpenDevice f w
  = (Err (LibErr (if Go.len f =? 0 then io_EOF else io_ErrUnexpectedEOF)),
     mkWorld (heap w) (Go.len f) (trace w ++ [EvSeek 0; EvRead 512])).
Proof.
  intros Hlen. unfold luks2OpenDevice.
  unfold bind at 1, f_Seek at 1. unfold bind at 1.
  unfold binary_Read, headerV2_size. cbn [heap fpos trace].
  change (skipn (Z.to_nat 0) f) with f.
  rewrite <- app_assoc. cbn [app].
  destruct (Z.eqb_spec (Go.len f) 0) as [E|E].
  - rewrite E. reflexivity.
  - destruct (Z.ltb_spec (Go.len f) 512); [reflexivity|lia].
Qed.

Lemma open_truncated f w :
  512 <= Go.len f ->
  let hdrSize := HeaderSize (decode_headerV2 (firstn 512 f)) in
  valid_header_size hdrSize -> Go.len f < hdrSize ->
  luks2OpenDevice f w
  = (Err (LibErr io_EOF),
     mkWorld (heap w ++ [f ++ repeat x00 (Z.to_nat hdrSize - List.length f)])
       512 (trace w ++ [EvSeek 0; EvRead 512; EvReadAt 0 hdrSize])).
Proof.
  intros Hread hdrSize Hvalid Hshort.
  rewrite (open_start f w Hread). cbv zeta. fold hdrSize.
  destruct (Hvalid) as (Hpow & Hlo & Hhi).
  apply isPowerOfTwo_spec in Hpow. rewrite Hpow. cbn [negb orb].
  replace (hdrSize <? 16384) with false by (symmetry; apply Z.ltb_ge; lia).
  replace (hdrSize >? 4194304) with false
    by (symmetry; rewrite Z.gtb_ltb; apply Z.ltb_ge; lia).
  cbn [orb].
  unfold bind at 1, make_bytes, maxAlloc.
  replace ((hdrSize <? 0) || (2 ^ 48 <? hdrSize)) with false
    by (symmetry; apply orb_false_iff; split; apply Z.ltb_ge; lia).
  unfold alloc. cbn [heap fpos trace].
  unfold bind at 1, f_ReadAt, bind, load, log, store, fail, ret, set_heap.
  cbn [heap fpos trace].
  unfold buffer. cbn [heap]. rewrite nth_middle.
  change (0 <? 0) with false. cbv iota.
  change (skipn (Z.to_nat 0) f) with f.
  rewrite repeat_length.
  unfold Go.len in *.
  rewrite firstn_all2 by lia.
  rewrite repeat_length, Z2Nat.id by lia.
  destruct (Z.ltb_spec (Z.of_nat (List.length f)) hdrSize); [|lia].
  cbn [heap fpos trace].
  f_equal. f_equal.
  - rewrite <- (Nat.add_0_r (List.length (heap w))), update_app_r.
    cbn [update]. f_equal. f_equal. f_equal.
    apply skipn_repeat_sub.
  - rewrite <- app_assoc. reflexivity.
Qed.

(** X14. A file shorter than the 512-byte binary header is refused by
    the header read: with [io.EOF] when it is empty and with
    [io.ErrUnexpectedEOF] otherwise; no buffer is made. *)
Theorem luks2OpenDevice_short_file f w :
  Go.len f < 512 ->
  luks2OpenDevice f w
  = (Err (LibErr (if Go.len f =? 0 then io_EOF else io_ErrUnexpectedEOF)),
     mkWorld (heap w) (Go.len f) (trace w ++ [EvSeek 0; EvRead 512])).
Proof. exact (open_short f w). Qed.

(** X15. A file whose header declares a valid size but which is shorter
    than that size is refused with [io.EOF] by the read of the whole
    header; nothing has been hashed or decoded by then. *)
Theorem luks2OpenDevice_truncated f w r w' :
  512 <= Go.len f ->
  let hdrSize := HeaderSize (decode_headerV2 (firstn 512 f)) in
  valid_header_size hdrSize -> Go.len f < hdrSize ->
  luks2OpenDevice f w = (r, w') ->
  r = Err (LibErr io_EOF) /\
  trace w' = trace w ++ [EvSeek 0; EvRead 512; EvReadAt 0 hdrSize].
Proof.
  intros Hread hdrSize Hvalid Hshort H.
  rewrite (open_truncated f w Hread Hvalid Hshort) in H.
  inversion H. auto.
Qed.

(** X16. [luks2OpenDevice] returns a device only for a file that holds a
    whole header of valid size with checksum algorithm "sha256" whose
    stored checksum is the hash of the header region with the checksum
    field zeroed; the device then has the decoded binary header and the
    metadata decoded from the bytes from offset 4096 up to the first
    NUL byte of the region. *)
Theorem luks2OpenDevice_accepts f w dev w' :
  luks2OpenDevice f w = (Ret dev, w') ->
  512 <= Go.len f /\
  hdr dev = decode_headerV2 (firstn 512 f) /\
  let hdrSize := HeaderSize (hdr dev) in
  valid_header_size hdrSize /\ hdrSize <= Go.len f /\
  fixedArrayToString (ChecksumAlgorithm (hdr dev)) = "sha256" /\
  sha256_Sum (hashed_region f hdrSize) = firstn 32 (Checksum (hdr dev)) /\
  let metadata_region := skipn 4096 (firstn (Z.to_nat hdrSize) f) in
  let nul := Go.bytes_IndexByte metadata_region x00 in
  0 <= nul /\
  json_Unmarshal (firstn (Z.to_nat nul) metadata_region) = Some (meta dev) /\
  heap w' = heap w ++ [hashed_region f hdrSize].
Proof.
  intros H.
  destruct (Z.lt_ge_cases (Go.len f) 512) as [Hshort|Hread].
  { rewrite (open_short f w Hshort) in H. discriminate. }
  split; [assumption|].
  set (h := decode_headerV2 (firstn 512 f)).
  set (hdrSize := HeaderSize h).
  assert (Hvalid : valid_header_size hdrSize).
  { rewrite (open_start f w Hread) in H. cbv zeta in H.
    fold h in H. fold hdrSize in H.
    destruct (isPowerOfTwo hdrSize) eqn:Epow; [|discriminate].
    destruct (Z.ltb_spec hdrSize 16384); [discriminate|].
    destruct (Z.gtb_spec hdrSize 4194304); [discriminate|].
    split; [now apply isPowerOfTwo_spec|lia]. }
  destruct (Z.lt_ge_cases (Go.len f) hdrSize) as [Htrunc|Hregion].
  { rewrite (open_truncated f w Hread Hvalid Htrunc) in H. discriminate. }
  rewrite (open_valid f w Hread Hvalid Hregion) in H. cbv zeta in H.
  fold h in H. fold hdrSize in H.
  destruct (String.eqb_spec (fixedArrayToString (ChecksumAlgorithm h)) "sha256")
    as [Halgo|]; [|discriminate].
  change (Go.slice_of (Checksum h) 0 sha256_Size) with (firstn 32 (Checksum h)) in H.
  destruct (Go.bytes_Equal (sha256_Sum (hashed_region f hdrSize))
              (firstn 32 (Checksum h))) eqn:Ecmp; [|discriminate].
  apply bytes_Equal_eq in Ecmp. cbn [negb] in H.
  assert (Hmeta : skipn 4096 (hashed_region f hdrSize)
                  = skipn 4096 (firstn (Z.to_nat hdrSize) f)).
  { unfold hashed_region.
    destruct Hvalid as (_ & Hlo & _). unfold Go.len in Hregion.
    apply skipn_zero_range; [unfold Offsetof_Checksum; lia|].
    rewrite length_firstn. unfold Offsetof_Checksum. lia. }
  rewrite Hmeta in H.
  destruct (Z.ltb_spec (Go.bytes_IndexByte
                          (skipn 4096 (firstn (Z.to_nat hdrSize) f)) x00) 0)
    as [|Hnul]; [discriminate|].
  destruct (json_Unmarshal _) as [m|] eqn:Ejson; [|discriminate].
  inversion H; subst dev w'. cbn [hdr meta heap].
  fold hdrSize. cbv zeta. auto 10.
Qed.

End OpenMore.

(** ** Panics *)

Section Panics.

Context {L : Library}.

Lemma deriveLuks2AfKey_panic k idx pass n w p w' :
  deriveLuks2AfKey k idx pass n w = (Panic p, w') ->
  p = "panic in library call".
Proof.
  unfold deriveLuks2AfKey, new_bytes. intros H.
  destruct (base64_DecodeString (kdf_Salt k)); [|discriminate].
  repeat match type of H with
         | (if ?c then _ else _) _ = _ => destruct c
         end; try discriminate;
    match type of H with
    | (match ?o with _ => _ end) _ = _ => destruct o
    end; inversion H; reflexivity.
Qed.

Lemma computeDigestForKey_panic dig idx key w p w' :
  computeDigestForKey dig idx key w = (Panic p, w') ->
  p = "panic in library call".
Proof.
  unfold computeDigestForKey, new_bytes. intros H.
  destruct (base64_DecodeString (dig_Salt dig)); [|discriminate].
  repeat match type of H with
         | (if ?c then _ else _) _ = _ => destruct c
         end; try discriminate.
  unfold bind, load in H.
  match type of H with
  | (match ?o with _ => _ end) _ = _ => destruct o
  end; inversion H; reflexivity.
Qed.

Lemma resolve_segment_panic d key i dig w p w' :
  resolve_segment d key i dig w = (Panic p, w') ->
  p = "integer divide by zero" /\
  exists seg, Go.to_uint64 (seg_SectorSize
                (index zero_segment (Segments (meta d)) seg)) = 0.
Proof.
  unfold resolve_segment, Go.Atoi. intros H.
  destruct (negb _); [discriminate|].
  destruct (Go.ParseInt (nth 0 (dig_Segments dig) EmptyString)) as [seg|];
    [|discriminate].
  destruct (Go.ParseInt (seg_Offset _)); [|discriminate].
  unfold bind in H.
  match type of H with
  | (match ?c w with _ => _ end) = _ => destruct (c w) as [[sz|e|q] w1] eqn:E
  end.
  - destruct (Go.ParseInt (seg_IvTweak _)); [|discriminate].
    destruct (Z.eqb_spec (Go.to_uint64 (seg_SectorSize
                (index zero_segment (Segments (meta d)) seg))) 0) as [Hz|];
      [|discriminate].
    inversion H. split; [reflexivity|]. now exists seg.
  - discriminate.
  - exfalso.
    repeat match type of E with
           | (if ?c then _ else _) _ = _ => destruct c
           | (match ?o with _ => _ end) _ = _ => destruct o
           end; discriminate.
Qed.

Lemma decryptLuks2VolumeKey_panic f idx ks afKey w p w' :
  decryptLuks2VolumeKey f idx ks afKey w = (Panic p, w') ->
  p = "makeslice: len out of range" /\
  maxAlloc < Go.to_uint64 (area_KeySize (ks_Area ks) * stripesNum).
Proof.
  unfold decryptLuks2VolumeKey. intros H. cbv zeta in H.
  set (ksz := Go.to_uint64 (area_KeySize (ks_Area ks) * stripesNum)) in *.
  assert (Hrange : 0 <= ksz < 2 ^ 64) by apply to_uint64_range.
  destruct (Go.ParseInt (area_Size (ks_Area ks))); [|discriminate].
  destruct (_ >? _); [discriminate|].
  destruct (negb _); [discriminate|].
  bind_inv H.
  2:{ inversion Hr; subst p0.
      pose proof H as Hm. apply make_bytes_spec in Hm as (_ & _ & _ & Hn).
      unfold make_bytes in H.
      destruct ((ksz <? 0) || (maxAlloc <? ksz)); [|discriminate].
      inversion H. split; [reflexivity|lia]. }
  exfalso.
  apply make_bytes_spec in H0 as (_ & _ & (-> & _ & Hh0)).
  apply defer_inv in H as (w2 & H & _).
  set (kd := List.length (heap w)) in *.
  assert (Hbuf : Go.len (buffer w0 kd) = ksz).
  { unfold kd. rewrite (buffer_fresh w w0 _ Hh0). unfold Go.len.
    rewrite repeat_length. lia. }
  destruct (Go.ParseInt (area_Offset (ks_Area ks))); [|discriminate].
  destruct (negb (Z.rem _ storageSectorSize =? 0)); [discriminate|].
  bind_inv H.
  2:{ apply f_ReadAt_spec in H as (_ & _ & _ & [Hres|(e' & Hres)] & _);
        discriminate. }
  apply f_ReadAt_spec in H0 as (_ & _ & Hr1 & _).
  bind_inv H.
  2:{ apply buildLuks2AfCipher_spec in H as (_ & _ & Hnp). now apply (Hnp p0). }
  apply buildLuks2AfCipher_spec in H0 as (-> & _ & _).
  assert (Hlen : (0 + Z.of_nat (Z.to_nat (Go.to_int64 (ksz / storageSectorSize))))
                 * storageSectorSize <= Go.len (buffer w1 kd)).
  { unfold Go.len. rewrite (buffer_length_rewrites _ _ _ Hr1).
    unfold Go.len in Hbuf. rewrite Hbuf.
    unfold ksz. rewrite sector_count_small. fold ksz.
    unfold storageSectorSize.
    assert (0 <= ksz / 512) by (apply Z.div_pos; lia).
    pose proof (Z.mul_div_le ksz 512). lia. }
  bind_inv H.
  2:{ apply decrypt_loop_spec in H as (Hret & _); [discriminate|lia|exact Hlen]. }
  destruct (negb _); [discriminate|].
  destruct (_ =? _)%string; [|discriminate].
  unfold bind, load in H.
  destruct (afMerge _ _ _) as [[fmt args]|merged]; discriminate.
Qed.

(** X5. [unlockKeyslot] panics in three ways only: inside a key
    derivation of the library, on the allocation of a key area too large
    to allocate, and on the division by a sector size of zero. The
    sector loop never leaves the key area buffer. *)
Theorem unlockKeyslot_panics d f idx pass w p w' :
  unlockKeyslot d f idx pass w = (Panic p, w') ->
  p = "panic in library call" \/
  (p = "makeslice: len out of range" /\
   maxAlloc < Go.to_uint64
                (area_KeySize (ks_Area (index zero_keyslot (Keyslots (meta d)) idx))
                 * stripesNum)) \/
  (p = "integer divide by zero" /\
   exists seg, Go.to_uint64 (seg_SectorSize
                 (index zero_segment (Segments (meta d)) seg)) = 0).
Proof.
  unfold unlockKeyslot. intros H.
  unfold bind at 1, log at 1 in H. cbv beta iota zeta in H.
  destruct ((idx <? 0) || (idx >=? Go.len (Keyslots (meta d))));
    [discriminate|].
  bind_inv H.
  2:{ inversion Hr; subst p0. left. eapply deriveLuks2AfKey_panic; eauto. }
  apply defer_inv in H as (wd & H & _).
  bind_inv H.
  2:{ inversion Hr; subst p0. right. left.
      eapply decryptLuks2VolumeKey_panic; eauto. }
  destruct (findDigestForKeyslot d idx) as [[digIdx digInfo]|]; [|discriminate].
  bind_inv H.
  2:{ inversion Hr; subst p0. left. eapply computeDigestForKey_panic; eauto. }
  apply defer_inv in H as (wg & H & _).
  destruct (base64_DecodeString (dig_Digest digInfo)); [|discriminate].
  unfold bind at 1, load at 1 in H.
  destruct (negb _); [discriminate|].
  unfold bind at 1, modify in H.
  right. right. eapply resolve_segment_panic; eauto.
Qed.

End Panics.

(** ** Memory left by [unlockAnyKeyslot] *)

Section SearchMemory.

Context {L : Library}.

Lemma try_keyslots_memory d f pass active : forall w r w',
  try_keyslots d f pass active w = (r, w') ->
  fpos w' = fpos w /\
  exists new, heap w' = heap w ++ new /\
              (List.length new <= 4 * List.length active)%nat.
Proof.
  induction active as [|k active IH]; intros w r w' H; simpl in H.
  - inversion H; subst. split; [reflexivity|]. exists [].
    rewrite app_nil_r. auto.
  - destruct (unlockKeyslot d f k pass w) as [r1 w1] eqn:E.
    apply unlockKeyslot_heap in E as (Hf & Hh).
    assert (Hnew : exists new, heap w1 = heap w ++ new
                               /\ (List.length new <= 4)%nat).
    { destruct Hh as [Hh | [(n1 & Hh) | [(n1 & n2 & Hh) | [(n1 & n2 & key & Hh)
                     | (n1 & n2 & key & n3 & Hh)]]]].
      - exists []. rewrite app_nil_r. simpl. split; [exact Hh|lia].
      - eexists. split; [exact Hh|simpl; lia].
      - eexists. split; [exact Hh|simpl; lia].
      - eexists. split; [exact Hh|simpl; lia].
      - eexists. split; [exact Hh|simpl; lia]. }
    destruct Hnew as (new & Hh1 & Hl1).
    assert (Hstop : forall r0, (r0, w1) = (r, w') ->
              fpos w' = fpos w /\
              exists new0, heap w' = heap w ++ new0 /\
                (List.length new0 <= 4 * List.length (k :: active))%nat).
    { intros r0 Heq. inversion Heq; subst. split; [exact Hf|].
      exists new. split; [exact Hh1|]. simpl. lia. }
    destruct r1 as [v|e|p]; [now apply (Hstop (Ret v)) | | now apply (Hstop (Panic p))].
    destruct (is_ErrPassphraseDoesNotMatch e); [|now apply (Hstop (Err e))].
    apply IH in H as (Hf2 & new2 & Hh2 & Hl2).
    split; [congruence|].
    exists (new ++ new2). split; [rewrite Hh2, Hh1, app_assoc; reflexivity|].
    rewrite length_app. simpl. lia.
Qed.

(** X6. [unlockAnyKeyslot] never moves the file position and never
    changes a buffer that existed before the call; it makes at most
    four buffers per active keyslot. *)
Theorem unlockAnyKeyslot_memory d f pass w r w' :
  unlockAnyKeyslot d f pass w = (r, w') ->
  fpos w' = fpos w /\
  exists new, heap w' = heap w ++ new /\
              (List.length new <= 4 * List.length (activeKeyslots d))%nat.
Proof. apply try_keyslots_memory. Qed.

End SearchMemory.

(** ** What a returned key has passed *)

Section Verified.

Context {L : Library}.

(** A successful run of [unlockKeyslot] reached the comparison, found
    the digests equal and resolved the segment. *)
Lemma unlockKeyslot_Ret_inv d f idx pass w info w' :
  unlockKeyslot d f idx pass w = (Ret info, w') ->
  exists afKey finalKey gd digIdx digInfo expected w1 w2 w3 w4,
    reaches_verification d f idx pass w afKey finalKey gd digIdx digInfo
      expected w1 w2 w3 /\
    buffer w3 gd = expected /\
    resolve_segment d finalKey digIdx digInfo (clearSlice gd w3) = (Ret info, w4) /\
    w' = clearSlice afKey (clearSlice gd w4).
Proof.
  intros H. apply unlockKeyslot_inv in H as [(_ & Hnr) | H];
    [now destruct (Hnr info)|].
  destruct H as (afKey & finalKey & gd & digIdx & digInfo & expected
                   & w1 & w2 & w3 & Hreach
                   & [(_ & Heq & _) | (Hmatch & w4 & Hres & ->)]); [discriminate|].
  exists afKey, finalKey, gd, digIdx, digInfo, expected, w1, w2, w3, w4. auto.
Qed.

(** The key of the volume, after the cleanup, is the key whose digest
    was compared. *)
Lemma verified_key d f idx pass w afKey finalKey gd digIdx digInfo expected
    w1 w2 w3 w4 info :
  reaches_verification d f idx pass w afKey finalKey gd digIdx digInfo
    expected w1 w2 w3 ->
  buffer w3 gd = expected ->
  resolve_segment d finalKey digIdx digInfo (clearSlice gd w3) = (Ret info, w4) ->
  vi_digestId info = digIdx /\
  exists salt,
    dig_Type digInfo = "pbkdf2" /\ dig_Hash digInfo = "sha256" /\
    base64_DecodeString (dig_Salt digInfo) = Some salt /\
    pbkdf2_Key (buffer (clearSlice afKey (clearSlice gd w4)) (vi_key info)) salt
      (Go.to_int64 (dig_Iterations digInfo)) 32 = Some expected.
Proof.
  intros ((_ & Hd & Hdec) & Hfind & Hc & Hexp) Hmatch Hres.
  apply deriveLuks2AfKey_spec in Hd as (_ & _ & -> & key0 & Hh1).
  simpl in Hh1.
  apply decryptLuks2VolumeKey_spec in Hdec
    as (_ & _ & -> & n & striped & merged & Hh2 & _).
  rewrite Hh1, <- app_assoc in Hh2. simpl in Hh2.
  pose proof Hc as Hc'.
  apply computeDigestForKey_spec in Hc' as (_ & _ & -> & dg & Hh3).
  apply computeDigestForKey_Ret in Hc
    as (salt & Hsalt & Hty & Hha & _ & Hkdf & _).
  rewrite Hh2, <- app_assoc in Hh3. simpl in Hh3.
  apply resolve_segment_spec in Hres as Hw4. destruct Hw4 as (-> & _).
  apply resolve_segment_Ret in Hres
    as (_ & _ & _ & _ & _ & _ & _ & _ & _ & Hkey & Hid & _).
  cbv zeta in Hkey, Hid.
  split; [exact Hid|].
  assert (Hfk : S (List.length (heap w1)) = (List.length (heap w) + 2)%nat)
    by (rewrite Hh1, length_app; simpl; lia).
  assert (Hb2 : buffer w2 (S (List.length (heap w1))) = merged).
  { rewrite Hfk. unfold buffer. rewrite Hh2, app_nth2 by lia.
    replace (List.length (heap w) + 2 - List.length (heap w))%nat with 2%nat by lia.
    reflexivity. }
  assert (Hgd : List.length (heap w2)
                = (List.length (heap w)
                   + List.length [key0; repeat x00 n; merged])%nat).
  { rewrite Hh2, length_app. reflexivity. }
  assert (Hfinal :
            heap (clearSlice (List.length (heap w))
                    (clearSlice (List.length (heap w2))
                       (clearSlice (List.length (heap w2)) w3)))
            = heap w ++ [repeat x00 (List.length key0); repeat x00 n; merged;
                         repeat x00 (List.length (repeat x00 (List.length dg)))]).
  { apply clearSlice_heap. rewrite Hgd.
    apply (clearSlice_heap_at (heap w) [key0; repeat x00 n; merged]
             (repeat x00 (List.length dg)) []).
    apply (clearSlice_heap_at (heap w) [key0; repeat x00 n; merged] dg []).
    exact Hh3. }
  assert (Hbk : buffer (clearSlice (List.length (heap w))
                    (clearSlice (List.length (heap w2))
                       (clearSlice (List.length (heap w2)) w3)))
                  (vi_key info) = merged).
  { rewrite Hkey, Hfk. unfold buffer. rewrite Hfinal, app_nth2 by lia.
    replace (List.length (heap w) + 2 - List.length (heap w))%nat with 2%nat by lia.
    reflexivity. }
  exists salt.
  change (List.length (heap
            {| heap := heap w; fpos := fpos w;
               trace := trace w ++ [EvUnlockKeyslot idx] |}))
    with (List.length (heap w)).
  rewrite Hb2, Hmatch in Hkdf. rewrite Hbk. auto.
Qed.

(** X4. [unlockKeyslot] returns a volume only with a verified key: the
    keyslot has a digest of type "pbkdf2" with hash "sha256", and
    PBKDF2-SHA256 of the returned key, with the digest's decoded salt
    and iteration count and an output of 32 bytes, is the decoded
    stored digest. *)
Theorem unlockKeyslot_verified d f idx pass w info w' :
  unlockKeyslot d f idx pass w = (Ret info, w') ->
  exists digInfo salt expected,
    findDigestForKeyslot d idx = Some (vi_digestId info, digInfo) /\
    dig_Type digInfo = "pbkdf2" /\ dig_Hash digInfo = "sha256" /\
    base64_DecodeString (dig_Salt digInfo) = Some salt /\
    base64_DecodeString (dig_Digest digInfo) = Some expected /\
    pbkdf2_Key (buffer w' (vi_key info)) salt
      (Go.to_int64 (dig_Iterations digInfo)) 32 = Some expected.
Proof.
  intros H.
  apply unlockKeyslot_Ret_inv in H
    as (afKey & finalKey & gd & digIdx & digInfo & expected & w1 & w2 & w3 & w4
          & Hreach & Hmatch & Hres & ->).
  destruct (verified_key _ _ _ _ _ _ _ _ _ _ _ _ _ _ _ _ Hreach Hmatch Hres)
    as (Hid & salt & Hty & Hha & Hsalt & Hkdf).
  destruct Hreach as (_ & Hfind & _ & Hexp).
  exists digInfo, salt, expected. rewrite Hid. auto 10.
Qed.

(** X17. [unlockAnyKeyslot] returns a volume only with a verified key
    of one of its candidates: for a keyslot of the candidate list, the
    digest bound to it has type "pbkdf2" and hash "sha256", and
    PBKDF2-SHA256 of the returned key with that digest's decoded salt
    and iteration count is the decoded stored digest. *)
Theorem unlockAnyKeyslot_verified d f pass w info w' :
  unlockAnyKeyslot d f pass w = (Ret info, w') ->
  exists k digInfo salt expected,
    In k (activeKeyslots d) /\
    findDigestForKeyslot d k = Some (vi_digestId info, digInfo) /\
    dig_Type digInfo = "pbkdf2" /\ dig_Hash digInfo = "sha256" /\
    base64_DecodeString (dig_Salt digInfo) = Some salt /\
    base64_DecodeString (dig_Digest digInfo) = Some expected /\
    pbkdf2_Key (buffer w' (vi_key info)) salt
      (Go.to_int64 (dig_Iterations digInfo)) 32 = Some expected.
Proof.
  intros H. unfold unlockAnyKeyslot in H.
  apply try_keyslots_spec in H as (wrong & rest & wm & Hact & _ & Hr).
  destruct Hr as [(_ & Heq & _) | (k & rest' & -> & Hk & _)]; [discriminate|].
  apply unlockKeyslot_Ret_inv in Hk
    as (afKey & finalKey & gd & digIdx & digInfo & expected & w1 & w2 & w3 & w4
          & Hreach & Hmatch & Hres & ->).
  destruct (verified_key _ _ _ _ _ _ _ _ _ _ _ _ _ _ _ _ Hreach Hmatch Hres)
    as (Hid & salt & Hty & Hha & Hsalt & Hkdf).
  destruct Hreach as (_ & Hfind & _ & Hexp).
  exists k, digInfo, salt, expected. rewrite Hid.
  split; [rewrite Hact; apply in_or_app; right; now left|]. auto 10.
Qed.

End Verified.

(** * The theorems at concrete devices *)

Lemma pair_eq_inv {A B : Type} (a a' : A) (b b' : B) :
  (a, b) = (a', b') -> a = a' /\ b = b'.
Proof. intros H. inversion H. auto. Qed.


Lemma unlockAny_control_flow_witness :
  let d := Toy.device5_of Toy.good_digest in
  let run := unlockAnyKeyslot (L := Toy.library) d Toy.image Toy.passphrase Toy.w0 in
  fst run = Ret (mkVolumeInfo 2%nat 0 "LUKS2" 256 32 "aes-xts-plain64" 0 512) /\
  exists wrong rest wm,
    activeKeyslots d = wrong ++ rest /\
    all_wrong (L := Toy.library) d Toy.image Toy.passphrase wrong Toy.w0 wm /\
    ((rest = [] /\ fst run = Err ErrPassphraseDoesNotMatch /\ snd run = wm /\
      attempts (trace (snd run)) = attempts (trace Toy.w0) ++ wrong) \/
     (exists k rest',
        rest = k :: rest' /\
        unlockKeyslot (L := Toy.library) d Toy.image k Toy.passphrase wm = (fst run, snd run) /\
        fst run <> Err ErrPassphraseDoesNotMatch /\
        attempts (trace (snd run)) = attempts (trace Toy.w0) ++ wrong ++ [k])).
Proof.
  intros d run. split.
  - vm_compute. reflexivity.
  - apply (unlockAny_control_flow (L := Toy.library) d Toy.image Toy.passphrase Toy.w0
             (fst run) (snd run)).
    apply surjective_pairing.
Defined.

Lemma unlockKeyslot_wrong_passphrase_witness :
  let d := Toy.device_of "x" in
  let run := unlockKeyslot (L := Toy.library) d Toy.image 0 Toy.passphrase Toy.w0 in
  fst run = Err ErrPassphraseDoesNotMatch /\
  (fst run = Err ErrPassphraseDoesNotMatch <->
   exists afKey finalKey gd digIdx digInfo expected w1 w2 w3,
     reaches_verification (L := Toy.library) d Toy.image 0 Toy.passphrase Toy.w0
       afKey finalKey gd digIdx digInfo expected w1 w2 w3 /\
     buffer w3 gd <> expected).
Proof.
  intros d run. split.
  - vm_compute. reflexivity.
  - apply (unlockKeyslot_wrong_passphrase (L := Toy.library) d Toy.image 0
             Toy.passphrase Toy.w0 (fst run) (snd run)).
    apply surjective_pairing.
Defined.



Lemma unlockKeyslot_wrong_passphrase_leaves_key_witness :
  let d := Toy.device_of "x" in
  let run := unlockKeyslot (L := Toy.library) d Toy.image 0 Toy.passphrase Toy.w0 in
  (fst run, buffer (snd run) 2%nat)
  = (Err ErrPassphraseDoesNotMatch, repeat Toy.x01 16) /\
  exists afKeyBuf areaBuf merged digestBuf striped,
    heap (snd run) = heap Toy.w0 ++ [afKeyBuf; areaBuf; merged; digestBuf] /\
    all_zero afKeyBuf /\ all_zero areaBuf /\ all_zero digestBuf /\
    let keyslot := index zero_keyslot (Keyslots (meta d)) 0 in
    afMerge (Library := Toy.library) striped (Go.to_int64 (ks_KeySize keyslot))
      (Go.to_int64 (af_Stripes (ks_Af keyslot))) = inr merged /\
    buffer (snd run) (List.length (heap Toy.w0) + 2)%nat = merged.
Proof.
  intros d run.
  assert (Hrun : (fst run, buffer (snd run) 2%nat)
                 = (Err ErrPassphraseDoesNotMatch, repeat Toy.x01 16))
    by (vm_compute; reflexivity).
  split; [exact Hrun|].
  destruct (pair_eq_inv _ _ _ _ Hrun) as [Hret _].
  apply (unlockKeyslot_wrong_passphrase_leaves_key (L := Toy.library) d Toy.image 0
           Toy.passphrase Toy.w0 (snd run)).
  rewrite <- Hret. apply surjective_pairing.
Defined.

Lemma luks2OpenDevice_header_size_witness :
  let f := Toy.header_image Toy.size_16385 "sha256" "{}" x00 in
  (512 <= Go.len f /\
   ~ valid_header_size (HeaderSize (decode_headerV2 (firstn 512 f)))) /\
  luks2OpenDevice (L := Toy.library) f Toy.w0
  = (Err (Errorf "Invalid size of LUKS header: %v" [VInt 16385]),
     mkWorld [] 512 [EvSeek 0; EvRead 512]).
Proof.
  intros f.
  assert (H1 : 512 <= Go.len f) by (apply Z.leb_le; vm_compute; reflexivity).
  assert (H2 : ~ valid_header_size (HeaderSize (decode_headerV2 (firstn 512 f)))).
  { intros (Hpow & _). apply isPowerOfTwo_spec in Hpow.
    vm_compute in Hpow. discriminate. }
  split; [split; assumption|].
  rewrite (luks2OpenDevice_header_size (L := Toy.library) f Toy.w0 H1 H2).
  vm_compute. reflexivity.
Defined.

Lemma luks2OpenDevice_checksum_witness :
  let f := Toy.header_image Toy.size_16384 "sha256" "{}" x00 in
  let run := luks2OpenDevice (L := Toy.library) f Toy.w0 in
  let hdr := decode_headerV2 (firstn 512 f) in
  let hdrSize := HeaderSize hdr in
  let region := hashed_region f hdrSize in
  (512 <= Go.len f /\ valid_header_size hdrSize /\ hdrSize <= Go.len f) /\
  (hdrSize = 16384 /\ exists dev, fst run = Ret dev) /\
  Go.len region = hdrSize /\
  (exists evs,
     trace (snd run) = trace Toy.w0 ++ [EvSeek 0; EvRead 512; EvReadAt 0 hdrSize;
                                         EvHash region] ++ evs /\
     forall data, ~ In (EvHash data) evs) /\
  (fst run = Err (Errorf "Invalid header checksum" []) <->
   sha256_Sum (Library := Toy.library) region <> firstn 32 (Checksum hdr)).
Proof.
  intros f run hdr hdrSize region.
  assert (H1 : 512 <= Go.len f) by (apply Z.leb_le; vm_compute; reflexivity).
  assert (Hsz : hdrSize = 16384) by (vm_compute; reflexivity).
  assert (H2 : valid_header_size hdrSize).
  { rewrite Hsz. split; [exists 14; split; [lia|reflexivity] | lia]. }
  assert (H3 : hdrSize <= Go.len f)
    by (apply Z.leb_le; vm_compute; reflexivity).
  split; [split; [exact H1 | split; [exact H2 | exact H3]]|].
  split.
  { split; [exact Hsz|].
    exists (mkDevice hdr (meta (Toy.device_of Toy.good_digest))).
    vm_compute. reflexivity. }
  destruct (luks2OpenDevice_checksum (L := Toy.library) f Toy.w0 (fst run) (snd run)
              H1 H2 H3 (surjective_pairing run)) as (Hlen & _ & Hsha).
  split; [exact Hlen|].
  apply Hsha. vm_compute. reflexivity.
Defined.

Lemma unlockKeyslot_segment_witness :
  let d := Toy.device_of Toy.good_digest in
  let run := unlockKeyslot (L := Toy.library) d Toy.image 0 Toy.passphrase Toy.w0 in
  (exists info, fst run = Ret info) /\
  forall info, fst run = Ret info ->
    vi_storageOffset info = 32 /\ vi_storageSize info = 256 /\
    vi_storageSectorSize info = 512.
Proof.
  intros d run. split.
  { exists (mkVolumeInfo 2%nat 0 "LUKS2" 256 32 "aes-xts-plain64" 0 512).
    vm_compute. reflexivity. }
  intros info Hinfo.
  destruct (unlockKeyslot_segment (L := Toy.library) d Toy.image 0 Toy.passphrase
              Toy.w0 (fst run) (snd run) (surjective_pairing run)) as (Hok & _).
  destruct (Hok info Hinfo)
    as (seg0 & segNo & offset & (digIdx & digInfo & Hfind & Hsegs) & Hparse & Hrest).
  vm_compute in Hfind. inversion Hfind; subst digIdx digInfo. clear Hfind.
  vm_compute in Hsegs. inversion Hsegs; subst seg0. clear Hsegs.
  vm_compute in Hparse. inversion Hparse; subst segNo. clear Hparse.
  cbv zeta in Hrest.
  destruct Hrest as (_ & _ & _ & _ & _ & _ & _ & Hexample).
  apply Hexample; reflexivity.
Defined.

Lemma luks2OpenDevice_unterminated_witness :
  let f := Toy.header_image Toy.size_16384 "sha256" "{}" Toy.x01 in
  let run := luks2OpenDevice (L := Toy.library) f Toy.w0 in
  let hdr := decode_headerV2 (firstn 512 f) in
  let hdrSize := HeaderSize hdr in
  (512 <= Go.len f /\ valid_header_size hdrSize /\ hdrSize <= Go.len f /\
   fixedArrayToString (ChecksumAlgorithm hdr) = "sha256" /\
   Toy.hash (hashed_region f hdrSize) = firstn 32 (Checksum hdr) /\
   (forall x, In x (skipn 4096 (firstn (Z.to_nat hdrSize) f)) -> x <> x00)) /\
  fst run = Panic "slice bounds out of range [:-1]".
Proof.
  intros f run hdr hdrSize.
  assert (H1 : 512 <= Go.len f) by (apply Z.leb_le; vm_compute; reflexivity).
  assert (Hsz : hdrSize = 16384) by (vm_compute; reflexivity).
  assert (H2 : valid_header_size hdrSize).
  { rewrite Hsz. split; [exists 14; split; [lia|reflexivity] | lia]. }
  assert (H3 : hdrSize <= Go.len f)
    by (apply Z.leb_le; vm_compute; reflexivity).
  assert (H4 : fixedArrayToString (ChecksumAlgorithm hdr) = "sha256")
    by (vm_compute; reflexivity).
  assert (H5 : Toy.hash (hashed_region f hdrSize) = firstn 32 (Checksum hdr))
    by (vm_compute; reflexivity).
  assert (H6 : forall x, In x (skipn 4096 (firstn (Z.to_nat hdrSize) f)) -> x <> x00).
  { apply IndexByte_absent. vm_compute. reflexivity. }
  split; [repeat (split; [assumption|]); exact H6|].
  destruct (luks2OpenDevice_unterminated (L := Toy.library) f Toy.w0 (fst run)
              (snd run) H1 H2 H3 H4 H5 (surjective_pairing run)) as (Hpanic & _).
  apply Hpanic. exact H6.
Defined.

Lemma findDigest_skips_malformed_witness :
  let d := Toy.device_malformed in
  let run := unlockKeyslot (L := Toy.library) d Toy.image 0 Toy.passphrase Toy.w0 in
  ((forall i dig k, In (i, dig) (Digests (meta d)) -> In k (dig_Keyslots dig) ->
                    Go.ParseInt k <> Some 0) /\
   dig_Keyslots (snd (nth 0 (Digests (meta d)) (0, Toy.digest_of EmptyString [])))
   = ["0.0"; "1"]) /\
  findDigestForKeyslot d 0 = None /\
  (forall v, fst run <> Ret v) /\ fst run <> Err ErrPassphraseDoesNotMatch /\
  (forall afKey finalKey w1 w2,
     recovers_key (L := Toy.library) d Toy.image 0 Toy.passphrase Toy.w0
       afKey finalKey w1 w2 ->
     fst run = Err (Errorf "No digest is found for keyslot %v" [VInt 0])).
Proof.
  intros d run.
  assert (H1 : forall i dig k, In (i, dig) (Digests (meta d)) ->
                               In k (dig_Keyslots dig) -> Go.ParseInt k <> Some 0).
  { intros i dig k [Hd|[]] Hk. inversion Hd; subst i dig. clear Hd.
    destruct Hk as [<-|[<-|[]]]; vm_compute; discriminate. }
  split; [split; [exact H1 | reflexivity]|].
  destruct (findDigest_skips_malformed (L := Toy.library) d Toy.image 0
              Toy.passphrase Toy.w0 (fst run) (snd run) H1
              (surjective_pairing run)) as (_ & Hrest).
  exact Hrest.
Defined.

(** ** The further properties at concrete devices *)

Lemma unlockKeyslot_out_of_range_witness :
  let d := Toy.device_of "x" in
  (5 < 0 \/ Go.len (Keyslots (meta d)) <= 5) /\
  unlockKeyslot (L := Toy.library) d Toy.image 5 Toy.passphrase Toy.w0
  = (Err (Errorf "keyslot %d is out of range of available slots" [VInt 5]),
     mkWorld [] 0 [EvUnlockKeyslot 5]).
Proof.
  intros d.
  assert (H : 5 < 0 \/ Go.len (Keyslots (meta d)) <= 5)
    by (right; apply Z.leb_le; vm_compute; reflexivity).
  split; [exact H|].
  exact (unlockKeyslot_out_of_range (L := Toy.library) d Toy.image 5
           Toy.passphrase Toy.w0 H).
Defined.

Lemma unlockKeyslot_memory_witness :
  let d := Toy.device_of "x" in
  let run := unlockKeyslot (L := Toy.library) d Toy.image 0 Toy.passphrase Toy.w0 in
  fpos (snd run) = fpos Toy.w0 /\
  exists new,
    heap (snd run) = heap Toy.w0 ++ new /\ (List.length new <= 4)%nat /\
    zero_except 2 new.
Proof.
  intros d run.
  apply (unlockKeyslot_memory (L := Toy.library) d Toy.image 0 Toy.passphrase
           Toy.w0 (fst run) (snd run)).
  apply surjective_pairing.
Defined.

Lemma unlockKeyslot_success_key_witness :
  let d := Toy.device_of Toy.good_digest in
  let run := unlockKeyslot (L := Toy.library) d Toy.image 0 Toy.passphrase Toy.w0 in
  let info := mkVolumeInfo 2%nat 0 "LUKS2" 256 32 "aes-xts-plain64" 0 512 in
  fst run = Ret info /\
  exists n1 n2 n3 key striped digInfo,
    heap (snd run)
    = heap Toy.w0 ++ [repeat x00 n1; repeat x00 n2; key; repeat x00 n3] /\
    vi_key info = (List.length (heap Toy.w0) + 2)%nat /\
    buffer (snd run) (vi_key info) = key /\
    (let keyslot := index zero_keyslot (Keyslots (meta d)) 0 in
     afMerge (Library := Toy.library) striped (Go.to_int64 (ks_KeySize keyslot))
       (Go.to_int64 (af_Stripes (ks_Af keyslot))) = inr key) /\
    findDigestForKeyslot d 0 = Some (vi_digestId info, digInfo).
Proof.
  intros d run info.
  assert (Hret : fst run = Ret info) by (vm_compute; reflexivity).
  split; [exact Hret|].
  apply (unlockKeyslot_success_key (L := Toy.library) d Toy.image 0
           Toy.passphrase Toy.w0 info (snd run)).
  rewrite <- Hret. apply surjective_pairing.
Defined.

Lemma unlockKeyslot_verified_witness :
  let d := Toy.device_of Toy.good_digest in
  let run := unlockKeyslot (L := Toy.library) d Toy.image 0 Toy.passphrase Toy.w0 in
  let info := mkVolumeInfo 2%nat 0 "LUKS2" 256 32 "aes-xts-plain64" 0 512 in
  fst run = Ret info /\
  exists digInfo salt expected,
    findDigestForKeyslot d 0 = Some (vi_digestId info, digInfo) /\
    dig_Type digInfo = "pbkdf2" /\ dig_Hash digInfo = "sha256" /\
    base64_DecodeString (Library := Toy.library) (dig_Salt digInfo) = Some salt /\
    base64_DecodeString (Library := Toy.library) (dig_Digest digInfo)
    = Some expected /\
    pbkdf2_Key (Library := Toy.library) (buffer (snd run) (vi_key info)) salt
      (Go.to_int64 (dig_Iterations digInfo)) 32 = Some expected.
Proof.
  intros d run info.
  assert (Hret : fst run = Ret info) by (vm_compute; reflexivity).
  split; [exact Hret|].
  apply (unlockKeyslot_verified (L := Toy.library) d Toy.image 0
           Toy.passphrase Toy.w0 info (snd run)).
  rewrite <- Hret. apply surjective_pairing.
Defined.

Lemma unlockKeyslot_panics_witness :
  let d := Toy.device_with Toy.keyslot_argon0 (Toy.digest_of "x" ["0"]) in
  let run := unlockKeyslot (L := Toy.library) d Toy.image 0 Toy.passphrase Toy.w0 in
  let p := "panic in library call" in
  fst run = Panic p /\
  (p = "panic in library call" \/
   (p = "makeslice: len out of range" /\
    maxAlloc < Go.to_uint64
                 (area_KeySize (ks_Area (index zero_keyslot (Keyslots (meta d)) 0))
                  * stripesNum)) \/
   (p = "integer divide by zero" /\
    exists seg, Go.to_uint64 (seg_SectorSize
                  (index zero_segment (Segments (meta d)) seg)) = 0)).
Proof.
  intros d run p.
  assert (Hret : fst run = Panic p) by (vm_compute; reflexivity).
  split; [exact Hret|].
  apply (unlockKeyslot_panics (L := Toy.library) d Toy.image 0
           Toy.passphrase Toy.w0 p (snd run)).
  rewrite <- Hret. apply surjective_pairing.
Defined.

Lemma unlockAnyKeyslot_memory_witness :
  let d := Toy.device5_of "x" in
  let run := unlockAnyKeyslot (L := Toy.library) d Toy.image Toy.passphrase Toy.w0 in
  fpos (snd run) = fpos Toy.w0 /\
  exists new, heap (snd run) = heap Toy.w0 ++ new /\
              (List.length new <= 4 * List.length (activeKeyslots d))%nat.
Proof.
  intros d run.
  apply (unlockAnyKeyslot_memory (L := Toy.library) d Toy.image Toy.passphrase
           Toy.w0 (fst run) (snd run)).
  apply surjective_pairing.
Defined.

Lemma activeKeyslots_order_independent_witness :
  let d := Toy.device5_of "x" in
  let d' := Toy.device5_swapped "x" in
  Permutation (Keyslots (meta d)) (Keyslots (meta d')) /\
  activeKeyslots d = activeKeyslots d'.
Proof.
  intros d d'.
  assert (Hp : Permutation (Keyslots (meta d)) (Keyslots (meta d')))
    by apply perm_swap.
  split; [exact Hp|].
  exact (activeKeyslots_order_independent d d' Hp).
Defined.

Lemma activeKeyslots_NoDup_witness :
  let d := Toy.device5_of "x" in
  NoDup (map fst (Keyslots (meta d))) /\ NoDup (activeKeyslots d).
Proof.
  intros d.
  assert (Hnd : NoDup (map fst (Keyslots (meta d))))
    by (simpl; repeat constructor; simpl; intuition lia).
  split; [exact Hnd|].
  exact (activeKeyslots_NoDup d Hnd).
Defined.

Lemma deriveLuks2AfKey_outcome_witness :
  let k := ks_Kdf (Toy.keyslot0 EmptyString) in
  let run := deriveLuks2AfKey (L := Toy.library) k 0 Toy.passphrase 16 Toy.w0 in
  ((exists e, fst run = Err e) <->
   (base64_DecodeString (Library := Toy.library) (kdf_Salt k) = None \/
    (kdf_Type k = "pbkdf2" /\ kdf_Hash k <> "sha256") \/
    (kdf_Type k <> "pbkdf2" /\ kdf_Type k <> "argon2i" /\
     kdf_Type k <> "argon2id"))) /\
  (base64_DecodeString (Library := Toy.library) (kdf_Salt k) = None ->
   fst run = Err (Errorf "keyslotIdx[%v].kdf.salt base64 parsing failed: %v"
                    [VInt 0; VErr base64_CorruptInputError])) /\
  match fst run with
  | Ret key => key = List.length (heap Toy.w0)
               /\ exists b, heap (snd run) = heap Toy.w0 ++ [b]
  | _ => snd run = Toy.w0
  end.
Proof.
  intros k run.
  apply (deriveLuks2AfKey_outcome (L := Toy.library) k 0 Toy.passphrase 16 Toy.w0
           (fst run) (snd run)).
  apply surjective_pairing.
Defined.

Lemma buildLuks2AfCipher_iff_witness :
  let enc := "aes-xts-plain64" in
  let run := buildLuks2AfCipher (L := Toy.library) enc 0%nat Toy.w_afKey in
  snd run = Toy.w_afKey /\
  ((exists c, fst run = Ret c)
   <-> cipher_ok (L := Toy.library) enc (buffer Toy.w_afKey 0%nat)) /\
  (Go.len (Go.strings_Split enc "-"%char) <> 3 ->
   fst run = Err (Errorf "Unexpected encryption format: %v" [VStr enc])).
Proof.
  intros enc run.
  apply (buildLuks2AfCipher_iff (L := Toy.library) enc 0%nat Toy.w_afKey
           (fst run) (snd run)).
  apply surjective_pairing.
Defined.

Lemma buildLuks2AfCipher_ivmode_witness :
  no_hyphen "plain64" = true /\
  buildLuks2AfCipher (L := Toy.library) ("aes-xts-" ++ "plain64") 0%nat Toy.w_afKey
  = match xts_NewCipher (Library := Toy.library) (buffer Toy.w_afKey 0%nat) with
    | Some c => (Ret c, Toy.w_afKey)
    | None => (Err (LibErr xts_KeySizeError), Toy.w_afKey)
    end.
Proof.
  assert (H : no_hyphen "plain64" = true) by reflexivity.
  split; [exact H|].
  exact (buildLuks2AfCipher_ivmode (L := Toy.library) "plain64" 0%nat Toy.w_afKey H).
Defined.

Lemma decryptLuks2VolumeKey_functional_witness :
  let ks := Toy.keyslot0 EmptyString in
  let run := decryptLuks2VolumeKey (L := Toy.library) Toy.image 0 ks 0%nat
               Toy.w_afKey in
  ((0 < List.length (heap Toy.w_afKey))%nat /\ fst run = @Ret slice 2%nat) /\
  let a := ks_Area ks in
  let keyslotSize := Go.to_uint64 (area_KeySize a * stripesNum) in
  exists off c,
    Go.ParseInt (area_Offset a) = Some off /\ 0 <= off /\
    xts_NewCipher (Library := Toy.library) (buffer Toy.w_afKey 0%nat) = Some c /\
    af_Stripes (ks_Af ks) = stripesNum /\ af_Hash (ks_Af ks) = "sha256" /\
    let data := firstn (Z.to_nat keyslotSize) (skipn (Z.to_nat off) Toy.image) in
    Go.len data = keyslotSize /\
    afMerge (Library := Toy.library)
      (decrypt_all (L := Toy.library) c data 0 (Z.to_nat (keyslotSize / 512)))
      (Go.to_int64 (ks_KeySize ks)) (Go.to_int64 (af_Stripes (ks_Af ks)))
    = inr (buffer (snd run) 2%nat).
Proof.
  intros ks run.
  assert (Hkey : (0 < List.length (heap Toy.w_afKey))%nat) by (simpl; lia).
  assert (Hret : fst run = @Ret slice 2%nat) by (vm_compute; reflexivity).
  split; [split; assumption|].
  apply (decryptLuks2VolumeKey_functional (L := Toy.library) Toy.image 0 ks 0%nat
           Toy.w_afKey 2%nat (snd run) Hkey).
  rewrite <- Hret. apply surjective_pairing.
Defined.

Lemma luks2OpenDevice_short_file_witness :
  let f := [x00; x00; x00] in
  Go.len f < 512 /\
  luks2OpenDevice (L := Toy.library) f Toy.w0
  = (Err (LibErr io_ErrUnexpectedEOF), mkWorld [] 3 [EvSeek 0; EvRead 512]).
Proof.
  intros f.
  assert (H : Go.len f < 512) by reflexivity.
  split; [exact H|].
  exact (luks2OpenDevice_short_file (L := Toy.library) f Toy.w0 H).
Defined.

Lemma luks2OpenDevice_truncated_witness :
  let f := Toy.header_image Toy.size_32768 "sha256" "{}" x00 in
  let run := luks2OpenDevice (L := Toy.library) f Toy.w0 in
  let hdrSize := HeaderSize (decode_headerV2 (firstn 512 f)) in
  (512 <= Go.len f /\ valid_header_size hdrSize /\ Go.len f < hdrSize) /\
  fst run = Err (LibErr io_EOF) /\
  trace (snd run) = trace Toy.w0 ++ [EvSeek 0; EvRead 512; EvReadAt 0 hdrSize].
Proof.
  intros f run hdrSize.
  assert (H1 : 512 <= Go.len f) by (apply Z.leb_le; vm_compute; reflexivity).
  assert (Hsz : hdrSize = 32768) by (vm_compute; reflexivity).
  assert (H2 : valid_header_size hdrSize).
  { rewrite Hsz. split; [exists 15; split; [lia|reflexivity] | lia]. }
  assert (H3 : Go.len f < hdrSize)
    by (apply Z.ltb_lt; vm_compute; reflexivity).
  split; [split; [exact H1 | split; [exact H2 | exact H3]]|].
  apply (luks2OpenDevice_truncated (L := Toy.library) f Toy.w0 (fst run) (snd run)
           H1 H2 H3).
  apply surjective_pairing.
Defined.

Lemma luks2OpenDevice_accepts_witness :
  let f := Toy.header_image Toy.size_16384 "sha256" "{}" x00 in
  let run := luks2OpenDevice (L := Toy.library) f Toy.w0 in
  let dev := mkDevice (decode_headerV2 (firstn 512 f))
               (meta (Toy.device_of Toy.good_digest)) in
  fst run = Ret dev /\
  512 <= Go.len f /\
  hdr dev = decode_headerV2 (firstn 512 f) /\
  let hdrSize := HeaderSize (hdr dev) in
  valid_header_size hdrSize /\ hdrSize <= Go.len f /\
  fixedArrayToString (ChecksumAlgorithm (hdr dev)) = "sha256" /\
  sha256_Sum (Library := Toy.library) (hashed_region f hdrSize)
  = firstn 32 (Checksum (hdr dev)) /\
  let metadata_region := skipn 4096 (firstn (Z.to_nat hdrSize) f) in
  let nul := Go.bytes_IndexByte metadata_region x00 in
  0 <= nul /\
  json_Unmarshal (Library := Toy.library) (firstn (Z.to_nat nul) metadata_region)
  = Some (meta dev) /\
  heap (snd run) = heap Toy.w0 ++ [hashed_region f hdrSize].
Proof.
  intros f run dev.
  assert (Hret : fst run = Ret dev) by (vm_compute; reflexivity).
  split; [exact Hret|].
  apply (luks2OpenDevice_accepts (L := Toy.library) f Toy.w0 dev (snd run)).
  rewrite <- Hret. apply surjective_pairing.
Defined.

Lemma unlockAnyKeyslot_verified_witness :
  let d := Toy.device_of Toy.good_digest in
  let run := unlockAnyKeyslot (L := Toy.library) d Toy.image Toy.passphrase Toy.w0 in
  let info := mkVolumeInfo 2%nat 0 "LUKS2" 256 32 "aes-xts-plain64" 0 512 in
  fst run = Ret info /\
  exists k digInfo salt expected,
    In k (activeKeyslots d) /\
    findDigestForKeyslot d k = Some (vi_digestId info, digInfo) /\
    dig_Type digInfo = "pbkdf2" /\ dig_Hash digInfo = "sha256" /\
    base64_DecodeString (Library := Toy.library) (dig_Salt digInfo) = Some salt /\
    base64_DecodeString (Library := Toy.library) (dig_Digest digInfo)
    = Some expected /\
    pbkdf2_Key (Library := Toy.library) (buffer (snd run) (vi_key info)) salt
      (Go.to_int64 (dig_Iterations digInfo)) 32 = Some expected.
Proof.
  intros d run info.
  assert (Hret : fst run = Ret info) by (vm_compute; reflexivity).
  split; [exact Hret|].
  apply (unlockAnyKeyslot_verified (L := Toy.library) d Toy.image
           Toy.passphrase Toy.w0 info (snd run)).
  rewrite <- Hret. apply surjective_pairing.
Defined.
